(** * UNtoU3 / UNtoSO3: reduction of U(N) irreps into U(3) and SO(3) irreps

    A shallow embedding of [UNtoSO3.h], [UNtoU3.h] and the driver
    [test_input_SO3.cpp].

    Configuration modelled: the one that compiles and that the driver uses
    for the recursion, i.e. [*_DISABLE_PRECALC] defined (the headers stop
    with [#error] otherwise) and [*_DISABLE_TCE] not defined (the [while]
    form of the recursion).  The OpenMP pragmas are not modelled: the
    functions below are the serial path.

    Conventions.
    - Machine integers are [Z] with the wrap-around written out
      ([GRT], [to_size_t], [to_uint32], [to_int8]).
    - A vector indexed past its end, a failed [assert] and the driver's
      [throw] end a run with a [Fault]; [OutOfFuel] is the only fault that
      belongs to the model and not to the program.
    - [std::unordered_map<Weight, U>] is a [gmap Weight Z]; [operator[]]
      default-inserts 0, [find] is [!!]. *)

From Stdlib Require Import ZArith Lia List.
From stdpp Require Import base option list gmap.

Local Open Scope Z_scope.

(** ** Machine integers *)

Definition wrap_unsigned (bits x : Z) : Z := x mod 2 ^ bits.

Definition wrap_signed (bits x : Z) : Z :=
  (x + 2 ^ (bits - 1)) mod 2 ^ bits - 2 ^ (bits - 1).

(** [GRT = GelfandRow::value_type = uint16_t]; [(GRT)(e)] in the source. *)
Definition GRT (x : Z) : Z := wrap_unsigned 16 x.

(** Conversion to [std::size_t] (64 bits). *)
Definition to_size_t (x : Z) : Z := wrap_unsigned 64 x.

(** Conversion to [uint32_t] (the default [U], and [T] of [UNtoU3]). *)
Definition to_uint32 (x : Z) : Z := wrap_unsigned 32 x.

(** Conversion to [unsigned long] (64 bits), the driver's [sum]. *)
Definition to_ulong (x : Z) : Z := wrap_unsigned 64 x.

(** Conversion to [int8_t], the element type of [m_]. *)
Definition to_int8 (x : Z) : Z := wrap_signed 8 x.

(** Conversion to [int] / [int32_t]. *)
Definition to_int (x : Z) : Z := wrap_signed 32 x.

Definition UINT16_MAX : Z := 65535.
Definition INT_MAX : Z := 2147483647.

(** ** Outcomes *)

Inductive Fault : Type :=
| OutOfBounds       (* a vector read past its end *)
| AssertionFailed   (* [assert(...)] does not hold *)
| InvalidArgument   (* [throw std::invalid_argument] *)
| OutOfFuel.        (* the model's recursion depth is used up *)

Inductive Outcome (A : Type) : Type :=
| Done (a : A)
| Fail (f : Fault).

Arguments Done {A} a.
Arguments Fail {A} f.

(** Sequencing stops at the first fault ([x ← e; k] below). *)
#[global] Instance outcome_bind : MBind Outcome :=
  fun A B (k : A -> Outcome B) (o : Outcome A) =>
    match o with
    | Done a => k a
    | Fail f => Fail f
    end.

#[global] Instance outcome_ret : MRet Outcome := fun A (a : A) => Done a.

(** A checked vector read: [v[i]]. *)
Definition at_index {A : Type} (v : list A) (i : Z) : Outcome A :=
  match v !! Z.to_nat i with
  | Some a => Done a
  | None => Fail OutOfBounds
  end.

(** ** Gelfand pattern rows *)

(** [GelfandRow = std::array<uint16_t, 5>]: the numbers of fours, threes,
    twos, ones and zeros of a row. *)
Record GelfandRow : Type := Row { n4 : Z; n3 : Z; n2 : Z; n1 : Z; n0 : Z }.

Definition rowsum (r : GelfandRow) : Z := n4 r + n3 r + n2 r + n1 r + n0 r.

(** Every component is a [uint16_t]. *)
Definition row_ok (r : GelfandRow) : Prop :=
  (0 <= n4 r <= UINT16_MAX) /\ (0 <= n3 r <= UINT16_MAX) /\
  (0 <= n2 r <= UINT16_MAX) /\ (0 <= n1 r <= UINT16_MAX) /\
  (0 <= n0 r <= UINT16_MAX).

(** The five groups of a row, named by their label. *)
Inductive Group : Type := G4 | G3 | G2 | G1 | G0.

(** ** The recursion, once for both headers

    [generateSO3WeightsRec] and [generateU3WeightsRec] are the same text up
    to the weight type: [q N] is the table read ([m_[N]], or the triple
    [xyz_[0][N], xyz_[1][N], xyz_[2][N]]) and [addmul pp k x] is
    [pp + k * x] in the weight type's arithmetic. *)

Section Recursion.

Context {Weight : Type} `{Countable Weight}.
Variable q : Z -> Outcome Weight.
Variable addmul : Weight -> Z -> Weight -> Weight.

(** The local state of one activation: the row [gpr] (bound by reference to
    [n4 .. n0]), the partial weight [pp], and what the calls made so far
    have done to the accumulator.  [fired] is a ghost field: the in-place
    drops ([n4--], ..., [n0--]) executed so far. *)
Record Frame (S : Type) : Type :=
  MkFrame { gpr : GelfandRow; pp : Weight; acc : S; fired : list Group }.

Arguments MkFrame {S}.
Arguments gpr {S}.
Arguments pp {S}.
Arguments acc {S}.
Arguments fired {S}.

Section Body.

Context {S : Type}.
(** What a recursive call does to the accumulator. *)
Variable call : GelfandRow -> Weight -> S -> Outcome S.

(** [if (n4 > 0) { ... }] *)
Definition block4 (N : Z) (fr : Frame S) : Outcome (Frame S) :=
  let '(Row n4 n3 n2 n1 n0) := gpr fr in
  let pp := pp fr in
  if 0 <? n4 then
    if (0 <? n3) || (0 <? n2) || (0 <? n1) || (0 <? n0) then
      qN ← q N;
      a ← call (Row (GRT (n4 - 1)) n3 n2 n1 n0) (addmul pp 4 qN) (acc fr);
      a ← (if 0 <? n2 then
              a ← call (Row (GRT (n4 - 1)) (GRT (n3 + 1)) (GRT (n2 - 1)) n1 n0)
                        (addmul pp 3 qN) a;
              if 0 <? n0 then
                call (Row (GRT (n4 - 1)) (GRT (n3 + 1)) (GRT (n2 - 1))
                          (GRT (n1 + 1)) (GRT (n0 - 1)))
                     (addmul pp 2 qN) a
              else Done a
            else Done a);
      a ← (if 0 <? n1 then
              a ← call (Row (GRT (n4 - 1)) (GRT (n3 + 1)) n2 (GRT (n1 - 1)) n0)
                        (addmul pp 2 qN) a;
              call (Row (GRT (n4 - 1)) n3 (GRT (n2 + 1)) (GRT (n1 - 1)) n0)
                   (addmul pp 3 qN) a
            else Done a);
      a ← (if 0 <? n0 then
              a ← call (Row (GRT (n4 - 1)) (GRT (n3 + 1)) n2 n1 (GRT (n0 - 1)))
                        (addmul pp 1 qN) a;
              a ← call (Row (GRT (n4 - 1)) n3 (GRT (n2 + 1)) n1 (GRT (n0 - 1)))
                        (addmul pp 2 qN) a;
              call (Row (GRT (n4 - 1)) n3 n2 (GRT (n1 + 1)) (GRT (n0 - 1)))
                   (addmul pp 3 qN) a
            else Done a);
      Done (MkFrame (gpr fr) pp a (fired fr))
    else
      (* n4--; pp += 4 * q[N]; *)
      qN ← q N;
      Done (MkFrame (Row (GRT (n4 - 1)) n3 n2 n1 n0) (addmul pp 4 qN)
                    (acc fr) (fired fr ++ [G4]))
  else Done fr.

(** [if (n3 > 0) { ... }] *)
Definition block3 (N : Z) (fr : Frame S) : Outcome (Frame S) :=
  let '(Row n4 n3 n2 n1 n0) := gpr fr in
  let pp := pp fr in
  if 0 <? n3 then
    if (0 <? n2) || (0 <? n1) || (0 <? n0) then
      qN ← q N;
      a ← call (Row n4 (GRT (n3 - 1)) n2 n1 n0) (addmul pp 3 qN) (acc fr);
      a ← (if 0 <? n1 then
              call (Row n4 (GRT (n3 - 1)) (GRT (n2 + 1)) (GRT (n1 - 1)) n0)
                   (addmul pp 2 qN) a
            else Done a);
      a ← (if 0 <? n0 then
              a ← call (Row n4 (GRT (n3 - 1)) (GRT (n2 + 1)) n1 (GRT (n0 - 1)))
                        (addmul pp 1 qN) a;
              call (Row n4 (GRT (n3 - 1)) n2 (GRT (n1 + 1)) (GRT (n0 - 1)))
                   (addmul pp 2 qN) a
            else Done a);
      Done (MkFrame (gpr fr) pp a (fired fr))
    else
      (* n3--; pp += 3 * q[N]; *)
      qN ← q N;
      Done (MkFrame (Row n4 (GRT (n3 - 1)) n2 n1 n0) (addmul pp 3 qN)
                    (acc fr) (fired fr ++ [G3]))
  else Done fr.

(** [if (n2 > 0) { ... }] *)
Definition block2 (N : Z) (fr : Frame S) : Outcome (Frame S) :=
  let '(Row n4 n3 n2 n1 n0) := gpr fr in
  let pp := pp fr in
  if 0 <? n2 then
    if (0 <? n1) || (0 <? n0) then
      qN ← q N;
      a ← call (Row n4 n3 (GRT (n2 - 1)) n1 n0) (addmul pp 2 qN) (acc fr);
      a ← (if 0 <? n0 then
              call (Row n4 n3 (GRT (n2 - 1)) (GRT (n1 + 1)) (GRT (n0 - 1)))
                   (addmul pp 1 qN) a
            else Done a);
      Done (MkFrame (gpr fr) pp a (fired fr))
    else
      (* n2--; pp += 2 * q[N]; *)
      qN ← q N;
      Done (MkFrame (Row n4 n3 (GRT (n2 - 1)) n1 n0) (addmul pp 2 qN)
                    (acc fr) (fired fr ++ [G2]))
  else Done fr.

(** [if (n1 > 0) if (n0 > 0) ... else { ... }] *)
Definition block1 (N : Z) (fr : Frame S) : Outcome (Frame S) :=
  let '(Row n4 n3 n2 n1 n0) := gpr fr in
  let pp := pp fr in
  if 0 <? n1 then
    if 0 <? n0 then
      qN ← q N;
      a ← call (Row n4 n3 n2 (GRT (n1 - 1)) n0) (addmul pp 1 qN) (acc fr);
      Done (MkFrame (gpr fr) pp a (fired fr))
    else
      (* n1--; pp += q[N]; *)
      qN ← q N;
      Done (MkFrame (Row n4 n3 n2 (GRT (n1 - 1)) n0) (addmul pp 1 qN)
                    (acc fr) (fired fr ++ [G1]))
  else Done fr.

(** [if (n0 > 0) { n0--; }] *)
Definition block0 (fr : Frame S) : Outcome (Frame S) :=
  let '(Row n4 n3 n2 n1 n0) := gpr fr in
  if 0 <? n0 then
    Done (MkFrame (Row n4 n3 n2 n1 (GRT (n0 - 1))) (pp fr) (acc fr)
                  (fired fr ++ [G0]))
  else Done fr.

(** The body of the [while] loop, without its final [N--]. *)
Definition loop_body (N : Z) (fr : Frame S) : Outcome (Frame S) :=
  fr ← block4 N fr;
  fr ← block3 N fr;
  fr ← block2 N fr;
  fr ← block1 N fr;
  block0 fr.

End Body.

(** [mult_[w] += 1] on an [unordered_map<Weight, uint32_t>]. *)
Definition increment (w : Weight) (M : gmap Weight Z) : gmap Weight Z :=
  <[ w := to_uint32 (default 0 (M !! w) + 1) ]> M.

(** The code after the loop:
    [temp = 4*n4 + 3*n3 + 2*n2 + n1; pp += temp * q[0]; mult_[pp] += 1;] *)
Definition base_case (fr : Frame (gmap Weight Z)) : Outcome (gmap Weight Z) :=
  let '(Row n4 n3 n2 n1 n0) := gpr fr in
  let temp := 4 * n4 + 3 * n3 + 2 * n2 + n1 in
  q0 ← q 0;
  Done (increment (addmul (pp fr) temp q0) (acc fr)).

(** [while (N > 0) { body; N--; }] followed by the base case.  [iters]
    bounds the number of iterations; [Z.to_nat N] is always enough. *)
Fixpoint while_loop (call : GelfandRow -> Weight -> gmap Weight Z -> Outcome (gmap Weight Z))
    (iters : nat) (N : Z) (fr : Frame (gmap Weight Z)) : Outcome (gmap Weight Z) :=
  if 0 <? N then
    match iters with
    | O => Fail OutOfFuel
    | Datatypes.S i =>
        fr' ← loop_body call N fr;
        while_loop call i (N - 1) fr'
    end
  else base_case fr.

(** [generate...WeightsRec(gpr, pp)], acting on the multiplicity table [M].
    [depth] bounds the nesting of calls. *)
Fixpoint generateWeightsRec (depth : nat) (g : GelfandRow) (p : Weight)
    (M : gmap Weight Z) : Outcome (gmap Weight Z) :=
  match depth with
  | O => Fail OutOfFuel
  | Datatypes.S d =>
      let N := to_size_t (n4 g + n3 g + n2 g + n1 g + n0 g - 1) in
      while_loop (generateWeightsRec d) (Z.to_nat N) N (MkFrame g p M [])
  end.

End Recursion.

Arguments MkFrame {Weight S}.
Arguments gpr {Weight S}.
Arguments pp {Weight S}.
Arguments acc {Weight S}.
Arguments fired {Weight S}.

(** ** UNtoSO3.h *)

Module SO3.

(** The data members of [UNtoSO3<int32_t, uint32_t>]. *)
Record UNtoSO3 : Type :=
  { m_ : list Z; l_ : Z; mult_ : gmap Z Z }.

(** A default-constructed object. *)
Definition fresh : UNtoSO3 := {| m_ := []; l_ := 0; mult_ := ∅ |}.

(** [for (int m = -l; m <= l; m++) m_.push_back(m);] *)
Fixpoint generateM_loop (iters : nat) (m l : Z) (v : list Z) : list Z :=
  if m <=? l then
    match iters with
    | O => v
    | Datatypes.S i => generateM_loop i (m + 1) l (v ++ [to_int8 m])
    end
  else v.

Definition generateM (l : Z) (gen : UNtoSO3) : UNtoSO3 :=
  {| m_ := generateM_loop (Z.to_nat (2 * l + 1)) (- l) l [];
     l_ := to_int8 l;
     mult_ := mult_ gen |}.

(** [m_[N]] *)
Definition q (gen : UNtoSO3) (N : Z) : Outcome Z := at_index (m_ gen) N.

(** [pp + k * m_[N]]: [int] arithmetic on values that stay far inside the
    range of [int32_t] (|m_[N]| <= 128, k <= 4, at most 5 * 65535 levels). *)
Definition addmul (pp k x : Z) : Z := pp + k * x.

Definition generateSO3WeightsRec (gen : UNtoSO3) (depth : nat)
    (g : GelfandRow) (p : Z) (M : gmap Z Z) : Outcome (gmap Z Z) :=
  generateWeightsRec (q gen) addmul depth g p M.

(** [generateSO3Weights(gpr)]: [mult_.clear()], then the recursion from
    [pp = 0].  The depth given to the recursion is the row sum plus one. *)
Definition generateSO3Weights (g : GelfandRow) (gen : UNtoSO3) : Outcome UNtoSO3 :=
  M ← generateSO3WeightsRec gen (Datatypes.S (Z.to_nat (rowsum g))) g 0 ∅;
  Done {| m_ := m_ gen; l_ := l_ gen; mult_ := M |}.

(** [getLevelDimensionality(l)] *)
Definition getLevelDimensionality (gen : UNtoSO3) (l : Z) : Outcome Z :=
  if l <? 0 then Done 0
  else
    match mult_ gen !! l with
    | None => Fail AssertionFailed      (* assert(so3_mult != mult_.end()) *)
    | Some mult =>
        match mult_ gen !! (l + 1) with
        | None => Done (to_uint32 (mult - 0))
        | Some mult' => Done (to_uint32 (mult - mult'))
        end
    end.

End SO3.

(** ** UNtoU3.h *)

Module U3.

(** [U3Weight = std::array<uint32_t, 3>]. *)
Definition U3Weight : Type := (Z * Z * Z)%type.

(** [xyz_]: three vectors, indexed by [enum { NZ, NX, NY }] = 0, 1, 2. *)
Record XYZ : Type := MkXYZ { xyz_NZ : list Z; xyz_NX : list Z; xyz_NY : list Z }.

(** The data members of [UNtoU3<uint32_t, uint32_t>]. *)
Record UNtoU3 : Type :=
  { xyz_ : XYZ; mult_ : gmap U3Weight Z }.

Definition fresh : UNtoU3 := {| xyz_ := MkXYZ [] [] []; mult_ := ∅ |}.

(** The three [push_back]s of the inner loop body; [n] and [nx] are [int],
    [nz] is [uint32_t]. *)
Definition push_quanta (n nz nx : Z) (t : XYZ) : XYZ :=
  MkXYZ (xyz_NZ t ++ [nz])
        (xyz_NX t ++ [to_uint32 nx])
        (xyz_NY t ++ [to_uint32 (n - nz - nx)]).

(** [for (int nx = k; nx >= 0; nx--) { ... }]; [iters] is the number of
    iterations left. *)
Fixpoint generateXYZ_inner (iters : nat) (n nz nx : Z) (t : XYZ) : XYZ :=
  if 0 <=? nx then
    match iters with
    | O => t
    | Datatypes.S i => generateXYZ_inner i n nz (nx - 1) (push_quanta n nz nx t)
    end
  else t.

(** [for (int k = 0; k <= n; k++) { uint32_t nz = n - k; ... }] *)
Fixpoint generateXYZ_outer (iters : nat) (n k : Z) (t : XYZ) : XYZ :=
  if k <=? n then
    match iters with
    | O => t
    | Datatypes.S i =>
        let nz := to_uint32 (n - k) in
        generateXYZ_outer i n (k + 1) (generateXYZ_inner (Z.to_nat (k + 1)) n nz k t)
    end
  else t.

Definition generateXYZ (n : Z) (gen : UNtoU3) : UNtoU3 :=
  {| xyz_ := generateXYZ_outer (Z.to_nat (n + 1)) n 0 (MkXYZ [] [] []);
     mult_ := mult_ gen |}.

(** The reads [xyz_[0][N]], [xyz_[1][N]], [xyz_[2][N]]. *)
Definition q (gen : UNtoU3) (N : Z) : Outcome U3Weight :=
  z ← at_index (xyz_NZ (xyz_ gen)) N;
  x ← at_index (xyz_NX (xyz_ gen)) N;
  y ← at_index (xyz_NY (xyz_ gen)) N;
  Done (z, x, y).

(** [{ pp[0] + k * xyz_[0][N], pp[1] + k * xyz_[1][N], pp[2] + k * xyz_[2][N] }]
    in [uint32_t] arithmetic. *)
Definition addmul (pp : U3Weight) (k : Z) (x : U3Weight) : U3Weight :=
  let '(p0, p1, p2) := pp in
  let '(x0, x1, x2) := x in
  (to_uint32 (p0 + k * x0), to_uint32 (p1 + k * x1), to_uint32 (p2 + k * x2)).

Definition generateU3WeightsRec (gen : UNtoU3) (depth : nat)
    (g : GelfandRow) (p : U3Weight) (M : gmap U3Weight Z) : Outcome (gmap U3Weight Z) :=
  generateWeightsRec (q gen) addmul depth g p M.

(** [generateU3Weights(gpr)]: [mult_.clear()], then the recursion from
    [pp = {0, 0, 0}]. *)
Definition generateU3Weights (g : GelfandRow) (gen : UNtoU3) : Outcome UNtoU3 :=
  M ← generateU3WeightsRec gen (Datatypes.S (Z.to_nat (rowsum g))) g (0, 0, 0) ∅;
  Done {| xyz_ := xyz_ gen; mult_ := M |}.

(** [(found) ? second : 0] *)
Definition found_or_0 (M : gmap U3Weight Z) (w : U3Weight) : Z := default 0 (M !! w).

(** [getLevelDimensionality(labels)]; the labels and the multiplicities are
    [uint32_t], so every [+] and [-] below wraps modulo 2^32. *)
Definition getLevelDimensionality (gen : UNtoU3) (labels : U3Weight) : Outcome Z :=
  let '(f1, f2, f3) := labels in
  if (f1 <? f2) || (f2 <? f3) then Done 0
  else
    match mult_ gen !! (f1, f2, f3) with
    | None => Fail AssertionFailed      (* assert(u3_mult != mult_.end()) *)
    | Some mult =>
        let M := mult_ gen in
        let mult := to_uint32 (mult + found_or_0 M (to_uint32 (f1 + 1), to_uint32 (f2 + 1), to_uint32 (f3 - 2))) in
        let mult := to_uint32 (mult + found_or_0 M (to_uint32 (f1 + 2), to_uint32 (f2 - 1), to_uint32 (f3 - 1))) in
        let mult := to_uint32 (mult - found_or_0 M (to_uint32 (f1 + 2), f2, to_uint32 (f3 - 2))) in
        let mult := to_uint32 (mult - found_or_0 M (to_uint32 (f1 + 1), to_uint32 (f2 - 1), f3)) in
        let mult := to_uint32 (mult - found_or_0 M (f1, to_uint32 (f2 + 1), to_uint32 (f3 - 1))) in
        Done mult
    end.

End U3.

(** ** test_input_SO3.cpp *)

Module Driver.

(** [dim(const SO3Weight& l)]: [2*l+1] in [int], returned as [unsigned long]. *)
Definition dim (l : Z) : Z := to_ulong (2 * l + 1).

(** The analytic dimension of a U(N) irrep (compiled with [HAVE_BOOST]).
    [boost::rational] keeps the running product in lowest terms; here it is
    the pair numerator, denominator reduced after every step. *)
Definition rational_mul (r : Z * Z) (a b : Z) : Z * Z :=
  let num := fst r * a in
  let den := snd r * b in
  let g := Z.gcd num den in
  (num / g, den / g).

(** [for (k = 1; k <= l - 1; k++) result *= {irrep[k-1] - irrep[l-1] + l - k, l - k};] *)
Fixpoint dim_inner (iters : nat) (irrep : list Z) (l k : Z) (result : Z * Z) : Outcome (Z * Z) :=
  if k <=? l - 1 then
    match iters with
    | O => Fail OutOfFuel
    | Datatypes.S i =>
        fk ← at_index irrep (k - 1);
        fl ← at_index irrep (l - 1);
        dim_inner i irrep l (k + 1) (rational_mul result (fk - fl + l - k) (l - k))
    end
  else Done result.

(** [for (l = 2; l <= N; l++) ...] *)
Fixpoint dim_outer (iters : nat) (irrep : list Z) (l : Z) (result : Z * Z) : Outcome (Z * Z) :=
  if l <=? Z.of_nat (length irrep) then
    match iters with
    | O => Fail OutOfFuel
    | Datatypes.S i =>
        result ← dim_inner (Z.to_nat l) irrep l 1 result;
        dim_outer i irrep (l + 1) result
    end
  else Done result.

Definition dim_UN (irrep : list Z) : Outcome Z :=
  result ← dim_outer (length irrep) irrep 2 (1, 1);
  if snd result =? 1 then Done (fst result) else Fail AssertionFailed.

(** The vector [f] that [main] builds from the counts. *)
Definition irrep_of (g : GelfandRow) : list Z :=
  replicate (Z.to_nat (n4 g)) 4 ++ replicate (Z.to_nat (n3 g)) 3 ++
  replicate (Z.to_nat (n2 g)) 2 ++ replicate (Z.to_nat (n1 g)) 1 ++
  replicate (Z.to_nat (n0 g)) 0.

(** The loop over [gen.multMap()]: [sum += D_l * dim(weight)] for every
    weight whose level dimensionality is not zero. *)
Fixpoint sum_irreps (gen : SO3.UNtoSO3) (pairs : list (Z * Z)) (sum : Z) : Outcome Z :=
  match pairs with
  | [] => Done sum
  | (weight, _) :: rest =>
      D_l ← SO3.getLevelDimensionality gen weight;
      sum_irreps gen rest (if D_l =? 0 then sum else to_ulong (sum + D_l * dim weight))
  end.

(** [main] on the six numbers read from the standard input; the value is
    the number printed after "SO(3) irreps total dim = ".  [l] is an
    [unsigned long], the counts are [unsigned short]. *)
Definition main (l n4 n3 n2 n1 n0 : Z) : Outcome Z :=
  if negb (n4 + n3 + n2 + n1 + n0 =? to_ulong (2 * l + 1)) then
    Fail InvalidArgument             (* throw std::invalid_argument *)
  else
    gen ← SO3.generateSO3Weights (Row n4 n3 n2 n1 n0) (SO3.generateM (to_int l) SO3.fresh);
    sum_irreps gen (map_to_list (SO3.mult_ gen)) 0.

End Driver.

(** * Definitions used to state and to check the properties *)

(** ** Observations of one loop iteration *)

Section Observations.

Context {Weight : Type}.
Variable q : Z -> Outcome Weight.
Variable addmul : Weight -> Z -> Weight -> Weight.

(** The calls of a list, one after the other. *)
Fixpoint run_calls {S : Type} (call : GelfandRow -> Weight -> S -> Outcome S)
    (cs : list (GelfandRow * Weight)) (a : S) : Outcome S :=
  match cs with
  | [] => Done a
  | (r, w) :: cs' => a' ← call r w a; run_calls call cs' a'
  end.

(** The group whose in-place drop is due: the non-empty group with all
    lower groups empty. *)
Definition lowest_group (g : GelfandRow) : option Group :=
  if 0 <? n0 g then Some G0
  else if 0 <? n1 g then Some G1
  else if 0 <? n2 g then Some G2
  else if 0 <? n3 g then Some G3
  else if 0 <? n4 g then Some G4
  else None.

Definition count (grp : Group) (g : GelfandRow) : Z :=
  match grp with G4 => n4 g | G3 => n3 g | G2 => n2 g | G1 => n1 g | G0 => n0 g end.

Definition label (grp : Group) : Z :=
  match grp with G4 => 4 | G3 => 3 | G2 => 2 | G1 => 1 | G0 => 0 end.

(** The row after the in-place drop of one group. *)
Definition drop_group (grp : Group) (g : GelfandRow) : GelfandRow :=
  match grp with
  | G4 => Row (n4 g - 1) (n3 g) (n2 g) (n1 g) (n0 g)
  | G3 => Row (n4 g) (n3 g - 1) (n2 g) (n1 g) (n0 g)
  | G2 => Row (n4 g) (n3 g) (n2 g - 1) (n1 g) (n0 g)
  | G1 => Row (n4 g) (n3 g) (n2 g) (n1 g - 1) (n0 g)
  | G0 => Row (n4 g) (n3 g) (n2 g) (n1 g) (n0 g - 1)
  end.

(** The partial weight after the in-place drop: [n0--] leaves it alone. *)
Definition drop_weight (grp : Group) (p x : Weight) : Weight :=
  match grp with
  | G0 => p
  | _ => addmul p (label grp) x
  end.

(** The recursive calls of one loop iteration, block by block and in the
    order of the source: the row passed and the multiplier [k] of
    [pp + k * q[N]]. *)
Definition branches4 (g : GelfandRow) : list (GelfandRow * Z) :=
  let '(Row n4 n3 n2 n1 n0) := g in
  if (0 <? n4) && ((0 <? n3) || (0 <? n2) || (0 <? n1) || (0 <? n0)) then
    [(Row (GRT (n4 - 1)) n3 n2 n1 n0, 4)] ++
    (if 0 <? n2 then
       [(Row (GRT (n4 - 1)) (GRT (n3 + 1)) (GRT (n2 - 1)) n1 n0, 3)] ++
       (if 0 <? n0 then
          [(Row (GRT (n4 - 1)) (GRT (n3 + 1)) (GRT (n2 - 1)) (GRT (n1 + 1)) (GRT (n0 - 1)), 2)]
        else [])
     else []) ++
    (if 0 <? n1 then
       [(Row (GRT (n4 - 1)) (GRT (n3 + 1)) n2 (GRT (n1 - 1)) n0, 2);
        (Row (GRT (n4 - 1)) n3 (GRT (n2 + 1)) (GRT (n1 - 1)) n0, 3)]
     else []) ++
    (if 0 <? n0 then
       [(Row (GRT (n4 - 1)) (GRT (n3 + 1)) n2 n1 (GRT (n0 - 1)), 1);
        (Row (GRT (n4 - 1)) n3 (GRT (n2 + 1)) n1 (GRT (n0 - 1)), 2);
        (Row (GRT (n4 - 1)) n3 n2 (GRT (n1 + 1)) (GRT (n0 - 1)), 3)]
     else [])
  else [].

Definition branches3 (g : GelfandRow) : list (GelfandRow * Z) :=
  let '(Row n4 n3 n2 n1 n0) := g in
  if (0 <? n3) && ((0 <? n2) || (0 <? n1) || (0 <? n0)) then
    [(Row n4 (GRT (n3 - 1)) n2 n1 n0, 3)] ++
    (if 0 <? n1 then
       [(Row n4 (GRT (n3 - 1)) (GRT (n2 + 1)) (GRT (n1 - 1)) n0, 2)]
     else []) ++
    (if 0 <? n0 then
       [(Row n4 (GRT (n3 - 1)) (GRT (n2 + 1)) n1 (GRT (n0 - 1)), 1);
        (Row n4 (GRT (n3 - 1)) n2 (GRT (n1 + 1)) (GRT (n0 - 1)), 2)]
     else [])
  else [].

Definition branches2 (g : GelfandRow) : list (GelfandRow * Z) :=
  let '(Row n4 n3 n2 n1 n0) := g in
  if (0 <? n2) && ((0 <? n1) || (0 <? n0)) then
    [(Row n4 n3 (GRT (n2 - 1)) n1 n0, 2)] ++
    (if 0 <? n0 then
       [(Row n4 n3 (GRT (n2 - 1)) (GRT (n1 + 1)) (GRT (n0 - 1)), 1)]
     else [])
  else [].

Definition branches1 (g : GelfandRow) : list (GelfandRow * Z) :=
  let '(Row n4 n3 n2 n1 n0) := g in
  if (0 <? n1) && (0 <? n0) then [(Row n4 n3 n2 (GRT (n1 - 1)) n0, 1)] else [].

Definition branches (g : GelfandRow) : list (GelfandRow * Z) :=
  branches4 g ++ branches3 g ++ branches2 g ++ branches1 g.

(** A branch as the call sees it. *)
Definition as_call (p x : Weight) (b : GelfandRow * Z) : GelfandRow * Weight :=
  (fst b, addmul p (snd b) x).


(** One loop iteration with the calls recorded instead of executed. *)
Definition record_call (r : GelfandRow) (w : Weight)
    (cs : list (GelfandRow * Weight)) : Outcome (list (GelfandRow * Weight)) :=
  Done (cs ++ [(r, w)]).

Definition iteration (N : Z) (g : GelfandRow) (p : Weight)
  : Outcome (Frame (list (GelfandRow * Weight))) :=
  loop_body q addmul record_call N (MkFrame g p [] []).

(** The group [grp] is the one whose in-place drop is due in the row [g]:
    it is not empty and every group of a lower label is. *)
Definition due (grp : Group) (g : GelfandRow) : Prop :=
  0 < count grp g /\ forall grp', label grp' < label grp -> count grp' g = 0.

(** The children that the [n4 > 0] block of the loop derives from a row:
    the rows and weights it passes to recursive calls, in order, followed
    by the row and weight it continues with when it drops [n4] in place. *)
Definition n4_children (N : Z) (g : GelfandRow) (p : Weight)
  : Outcome (list (GelfandRow * Weight)) :=
  fr ← block4 q addmul record_call N (MkFrame g p [] []);
  Done (acc fr ++ match fired fr with
                  | [] => []
                  | _ :: _ => [(gpr fr, pp fr)]
                  end).

(** Modelled on the spec's words, the "If n4 > 0" bullet of the branching
    rules, with [x] the table entry q[N]. *)
Definition spec_n4_children (g : GelfandRow) (p x : Weight)
  : list (GelfandRow * Weight) :=
  let '(Row n4 n3 n2 n1 n0) := g in
  [(Row (n4 - 1) n3 n2 n1 n0, addmul p 4 x)] ++
  (if 0 <? n2 then
     [(Row (n4 - 1) (n3 + 1) (n2 - 1) n1 n0, addmul p 3 x)] ++
     (if 0 <? n0 then
        [(Row (n4 - 1) (n3 + 1) (n2 - 1) (n1 + 1) (n0 - 1), addmul p 2 x)]
      else [])
   else []) ++
  (if 0 <? n1 then
     [(Row (n4 - 1) (n3 + 1) n2 (n1 - 1) n0, addmul p 2 x);
      (Row (n4 - 1) n3 (n2 + 1) (n1 - 1) n0, addmul p 3 x)]
   else []) ++
  (if 0 <? n0 then
     [(Row (n4 - 1) (n3 + 1) n2 n1 (n0 - 1), addmul p 1 x);
      (Row (n4 - 1) n3 (n2 + 1) n1 (n0 - 1), addmul p 2 x);
      (Row (n4 - 1) n3 n2 (n1 + 1) (n0 - 1), addmul p 3 x)]
   else []).

End Observations.

(** ** The canonical order of the HO quanta *)

(** Modelled on the spec's words: for k = 0..n, with n_z = n - k, for
    n_x = k down to 0, emit (n_z, n_x, n - n_z - n_x). *)
Definition canonical_order (n : Z) : list (Z * Z * Z) :=
  k ← seqZ 0 (n + 1);
  let nz := n - k in
  nx ← reverse (seqZ 0 (k + 1));
  [(nz, nx, n - nz - nx)].

Definition triple_NZ (t : Z * Z * Z) : Z := fst (fst t).
Definition triple_NX (t : Z * Z * Z) : Z := snd (fst t).
Definition triple_NY (t : Z * Z * Z) : Z := snd t.

(** The three vectors after [push_back] of the components of each triple. *)
Definition append_triples (t : U3.XYZ) (l : list (Z * Z * Z)) : U3.XYZ :=
  U3.MkXYZ (U3.xyz_NZ t ++ (triple_NZ <$> l))
           (U3.xyz_NX t ++ (triple_NX <$> l))
           (U3.xyz_NY t ++ (triple_NY <$> l)).

Definition canonical_row (n k : Z) (nxs : list Z) : list (Z * Z * Z) :=
  nx ← nxs; [(n - k, nx, n - (n - k) - nx)].

(** ** The level dimensionality of U(3) *)

(** The sum of six table entries as [getLevelDimensionality] of [UNtoU3]
    forms it, the keys in [uint32_t] arithmetic. *)
Definition U3_level_sum (M : gmap U3.U3Weight Z) (f1 f2 f3 : Z) : Z :=
  U3.found_or_0 M (f1, f2, f3)
  + U3.found_or_0 M (to_uint32 (f1 + 1), to_uint32 (f2 + 1), to_uint32 (f3 - 2))
  + U3.found_or_0 M (to_uint32 (f1 + 2), to_uint32 (f2 - 1), to_uint32 (f3 - 1))
  - U3.found_or_0 M (to_uint32 (f1 + 2), f2, to_uint32 (f3 - 2))
  - U3.found_or_0 M (to_uint32 (f1 + 1), to_uint32 (f2 - 1), f3)
  - U3.found_or_0 M (f1, to_uint32 (f2 + 1), to_uint32 (f3 - 1)).

(** ** Weight distributions of the SO(3) recursion

    The number of Gelfand patterns below a row grows too fast to run the
    recursion on the driver's documented input.  The weights a row
    contributes are therefore tabulated row by row, from the rows the
    recursion reaches, and the tabulation is checked against the recursion
    by [table_ok] (proved sound below). *)

#[global] Instance Zadd_inj (k : Z) : Inj (=) (=) (Z.add k).
Proof. intros a b E. lia. Qed.

#[global] Instance GelfandRow_eq_dec : EqDecision GelfandRow.
Proof. solve_decision. Defined.

#[global] Instance GelfandRow_countable : Countable GelfandRow :=
  inj_countable'
    (fun g => (n4 g, n3 g, n2 g, n1 g, n0 g))
    (fun t => let '(a, b, c, d, e) := t in Row a b c d e)
    (fun g => match g with Row _ _ _ _ _ => eq_refl end).

(** A distribution: for each weight, relative to the partial weight at the
    row, the exact number of patterns below the row that end on it. *)
Definition dshift (k : Z) (D : gmap Z Z) : gmap Z Z := kmap (Z.add k) D.

Definition dplus (D1 D2 : gmap Z Z) : gmap Z Z :=
  union_with (fun a b => Some (a + b)) D1 D2.

(** The effect on the multiplicity table of counting every pattern of a
    distribution, one [mult_[w] += 1] at a time. *)
Definition dapply (D : gmap Z Z) (M : gmap Z Z) : gmap Z Z :=
  union_with (fun a b => Some (to_uint32 (a + b))) M (to_uint32 <$> D).

(** The rows one loop iteration passes on, the row it continues with
    included, each with the multiplier of the table entry. *)
Definition successors (g : GelfandRow) : list (GelfandRow * Z) :=
  branches g ++
  match lowest_group g with
  | Some grp => [(drop_group grp g, label grp)]
  | None => []
  end.

(** [4*n4 + 3*n3 + 2*n2 + n1], the multiplier of q[0] in the base case. *)
Definition base_multiplier (g : GelfandRow) : Z :=
  4 * n4 g + 3 * n3 g + 2 * n2 g + n1 g.

(** The distribution of a row from those of its successors, [x = m_[N]]. *)
Definition combine_successors (T : gmap GelfandRow (gmap Z Z)) (x : Z)
    (succs : list (GelfandRow * Z)) : gmap Z Z :=
  foldl (fun a b => dplus a (dshift (snd b * x) (default ∅ (T !! fst b)))) ∅ succs.

Definition row_distribution (m : list Z) (T : gmap GelfandRow (gmap Z Z))
    (g : GelfandRow) : option (gmap Z Z) :=
  if rowsum g =? 1 then
    x ← m !! 0%nat; Some {[ base_multiplier g * x := 1 ]}
  else
    x ← m !! Z.to_nat (rowsum g - 1); Some (combine_successors T x (successors g)).

(** The table, filled depth first from a row. *)
Fixpoint tabulate (fuel : nat) (m : list Z) (g : GelfandRow)
    (T : gmap GelfandRow (gmap Z Z)) : gmap GelfandRow (gmap Z Z) :=
  match fuel with
  | O => T
  | S f =>
      match T !! g with
      | Some _ => T
      | None =>
          let T' :=
            if rowsum g =? 1 then T
            else foldl (fun T b => tabulate f m (fst b) T) T (successors g) in
          match row_distribution m T' g with
          | Some D => <[ g := D ]> T'
          | None => T'
          end
      end
  end.

Definition row_ok_b (g : GelfandRow) : bool :=
  forallb (fun c => (0 <=? c) && (c <=? UINT16_MAX)) [n4 g; n3 g; n2 g; n1 g; n0 g].

(** The check of one entry: the row is well formed and inside the table of
    quanta, its successors have entries, and its entry is what
    [row_distribution] makes of theirs. *)
Definition entry_ok (m : list Z) (T : gmap GelfandRow (gmap Z Z))
    (g : GelfandRow) (D : gmap Z Z) : bool :=
  row_ok_b g && (1 <=? rowsum g) && (rowsum g <=? Z.of_nat (length m)) &&
  ((rowsum g =? 1) ||
   forallb (fun b => bool_decide (is_Some (T !! fst b))) (successors g)) &&
  bool_decide (row_distribution m T g = Some D).

Definition table_ok (m : list Z) (T : gmap GelfandRow (gmap Z Z)) : bool :=
  forallb (fun e => entry_ok m T (fst e) (snd e)) (map_to_list T).

(** The driver's sum, from the multiplicity table. *)
Definition total_dim (gen : SO3.UNtoSO3) : Outcome Z :=
  Driver.sum_irreps gen (map_to_list (SO3.mult_ gen)) 0.

(** All rows of a given total. *)
Definition all_rows (s : Z) : list GelfandRow :=
  a ← seqZ 0 (s + 1);
  b ← seqZ 0 (s - a + 1);
  c ← seqZ 0 (s - a - b + 1);
  d ← seqZ 0 (s - a - b - c + 1);
  [Row a b c d (s - a - b - c - d)].

Definition outcome_eqb (a b : Outcome Z) : bool :=
  match a, b with
  | Done x, Done y => x =? y
  | _, _ => false
  end.

(** The dimension sum law at one input: the driver's total is the analytic
    dimension. *)
Definition law_holds (l : Z) (g : GelfandRow) : bool :=
  outcome_eqb (Driver.main l (n4 g) (n3 g) (n2 g) (n1 g) (n0 g))
              (Driver.dim_UN (Driver.irrep_of g)).

(** The table of quanta after [generateM(l)] on a new object. *)
Definition quanta (l : Z) : list Z := SO3.m_ (SO3.generateM l SO3.fresh).

(** The distributions of all rows reached from the rows of total 2l+1. *)
Definition tabulate_all (l : Z) : gmap GelfandRow (gmap Z Z) :=
  foldl (fun T g => tabulate (Z.to_nat (2 * l + 2)) (quanta l) g T) ∅ (all_rows (2 * l + 1)).

(** The dimension sum law at one input, read off a table of distributions. *)
Definition law_holds_in (l : Z) (T : gmap GelfandRow (gmap Z Z)) (g : GelfandRow) : bool :=
  match T !! g with
  | Some D =>
      outcome_eqb
        (total_dim {| SO3.m_ := quanta l; SO3.l_ := to_int8 l; SO3.mult_ := dapply D ∅ |})
        (Driver.dim_UN (Driver.irrep_of g))
  | None => false
  end.

Definition law_checked (l : Z) : bool :=
  let T := tabulate_all l in
  table_ok (quanta l) T && forallb (law_holds_in l T) (all_rows (2 * l + 1)).

(** The row of the U(21) irrep [2,2,2,2,2,2,1,0,...,0] of the driver's
    header comment, and the distributions of the rows reached from it. *)
Definition readme_row : GelfandRow := Row 0 0 6 1 14.

Definition readme_table : gmap GelfandRow (gmap Z Z) :=
  tabulate 22 (quanta 10) readme_row ∅.

(** ** The table of distributions, in a form that evaluates in small space

    The same table as [tabulate], with every distribution rebuilt from the
    list of its entries before it is stored, so that a stored distribution
    holds numbers and not suspended computations. *)

Inductive entries : Set :=
  | no_entry
  | entry (k v : Z) (rest : entries).

Fixpoint to_entries (l : list (Z * Z)) : entries :=
  match l with
  | [] => no_entry
  | (k, v) :: l => entry k v (to_entries l)
  end.

Fixpoint of_entries (e : entries) : gmap Z Z :=
  match e with
  | no_entry => ∅
  | entry k v e => <[ k := v ]> (of_entries e)
  end.

Fixpoint entries_known (e : entries) : bool :=
  match e with
  | no_entry => true
  | entry k v e => (k =? k) && (v =? v) && entries_known e
  end.

Definition store (g : GelfandRow) (e : entries) (T : gmap GelfandRow (gmap Z Z)) :
    gmap GelfandRow (gmap Z Z) :=
  <[ g := of_entries e ]> T.

Fixpoint tabulate_settled (fuel : nat) (m : list Z) (g : GelfandRow)
    (T : gmap GelfandRow (gmap Z Z)) : gmap GelfandRow (gmap Z Z) :=
  match fuel with
  | O => T
  | S f =>
      match T !! g with
      | Some _ => T
      | None =>
          let T' :=
            if rowsum g =? 1 then T
            else foldl (fun T b => tabulate_settled f m (fst b) T) T (successors g) in
          match row_distribution m T' g with
          | Some D =>
              let e := to_entries (map_to_list D) in
              if entries_known e then store g e T' else T'
          | None => T'
          end
      end
  end.

Definition tabulate_all_settled (l : Z) : gmap GelfandRow (gmap Z Z) :=
  foldl (fun T g => tabulate_settled (Z.to_nat (2 * l + 2)) (quanta l) g T) ∅
        (all_rows (2 * l + 1)).

Definition law_checked_settled (l : Z) : bool :=
  let T := tabulate_all_settled l in
  table_ok (quanta l) T && forallb (law_holds_in l T) (all_rows (2 * l + 1)).

(** ** The recursion with [*_DISABLE_TCE] defined

    With tail call elimination disabled the [while] of the recursion is an
    [if] with the base case in its [else], the row is not changed in place,
    and the group that the [while] form drops in place is passed to one more
    recursive call. *)

Section RecursionNoTCE.

Context {Weight : Type} `{Countable Weight}.
Variable q : Z -> Outcome Weight.
Variable addmul : Weight -> Z -> Weight -> Weight.

Section Body.

Context {S : Type}.
Variable call : GelfandRow -> Weight -> S -> Outcome S.

(** [if (n4 > 0) { ... }] *)
Definition block4_noTCE (N : Z) (g : GelfandRow) (pp : Weight) (a : S) : Outcome S :=
  let '(Row n4 n3 n2 n1 n0) := g in
  if 0 <? n4 then
    if (0 <? n3) || (0 <? n2) || (0 <? n1) || (0 <? n0) then
      qN ← q N;
      a ← call (Row (GRT (n4 - 1)) n3 n2 n1 n0) (addmul pp 4 qN) a;
      a ← (if 0 <? n2 then
              a ← call (Row (GRT (n4 - 1)) (GRT (n3 + 1)) (GRT (n2 - 1)) n1 n0)
                        (addmul pp 3 qN) a;
              if 0 <? n0 then
                call (Row (GRT (n4 - 1)) (GRT (n3 + 1)) (GRT (n2 - 1))
                          (GRT (n1 + 1)) (GRT (n0 - 1)))
                     (addmul pp 2 qN) a
              else Done a
            else Done a);
      a ← (if 0 <? n1 then
              a ← call (Row (GRT (n4 - 1)) (GRT (n3 + 1)) n2 (GRT (n1 - 1)) n0)
                        (addmul pp 2 qN) a;
              call (Row (GRT (n4 - 1)) n3 (GRT (n2 + 1)) (GRT (n1 - 1)) n0)
                   (addmul pp 3 qN) a
            else Done a);
      (if 0 <? n0 then
         a ← call (Row (GRT (n4 - 1)) (GRT (n3 + 1)) n2 n1 (GRT (n0 - 1)))
                   (addmul pp 1 qN) a;
         a ← call (Row (GRT (n4 - 1)) n3 (GRT (n2 + 1)) n1 (GRT (n0 - 1)))
                   (addmul pp 2 qN) a;
         call (Row (GRT (n4 - 1)) n3 n2 (GRT (n1 + 1)) (GRT (n0 - 1)))
              (addmul pp 3 qN) a
       else Done a)
    else
      qN ← q N;
      call (Row (GRT (n4 - 1)) n3 n2 n1 n0) (addmul pp 4 qN) a
  else Done a.

(** [if (n3 > 0) { ... }] *)
Definition block3_noTCE (N : Z) (g : GelfandRow) (pp : Weight) (a : S) : Outcome S :=
  let '(Row n4 n3 n2 n1 n0) := g in
  if 0 <? n3 then
    if (0 <? n2) || (0 <? n1) || (0 <? n0) then
      qN ← q N;
      a ← call (Row n4 (GRT (n3 - 1)) n2 n1 n0) (addmul pp 3 qN) a;
      a ← (if 0 <? n1 then
              call (Row n4 (GRT (n3 - 1)) (GRT (n2 + 1)) (GRT (n1 - 1)) n0)
                   (addmul pp 2 qN) a
            else Done a);
      (if 0 <? n0 then
         a ← call (Row n4 (GRT (n3 - 1)) (GRT (n2 + 1)) n1 (GRT (n0 - 1)))
                   (addmul pp 1 qN) a;
         call (Row n4 (GRT (n3 - 1)) n2 (GRT (n1 + 1)) (GRT (n0 - 1)))
              (addmul pp 2 qN) a
       else Done a)
    else
      qN ← q N;
      call (Row n4 (GRT (n3 - 1)) n2 n1 n0) (addmul pp 3 qN) a
  else Done a.

(** [if (n2 > 0) { ... }] *)
Definition block2_noTCE (N : Z) (g : GelfandRow) (pp : Weight) (a : S) : Outcome S :=
  let '(Row n4 n3 n2 n1 n0) := g in
  if 0 <? n2 then
    if (0 <? n1) || (0 <? n0) then
      qN ← q N;
      a ← call (Row n4 n3 (GRT (n2 - 1)) n1 n0) (addmul pp 2 qN) a;
      (if 0 <? n0 then
         call (Row n4 n3 (GRT (n2 - 1)) (GRT (n1 + 1)) (GRT (n0 - 1)))
              (addmul pp 1 qN) a
       else Done a)
    else
      qN ← q N;
      call (Row n4 n3 (GRT (n2 - 1)) n1 n0) (addmul pp 2 qN) a
  else Done a.

(** [if (n1 > 0) if (n0 > 0) ... else { ... }]: the same call in both
    branches. *)
Definition block1_noTCE (N : Z) (g : GelfandRow) (pp : Weight) (a : S) : Outcome S :=
  let '(Row n4 n3 n2 n1 n0) := g in
  if 0 <? n1 then
    if 0 <? n0 then
      qN ← q N;
      call (Row n4 n3 n2 (GRT (n1 - 1)) n0) (addmul pp 1 qN) a
    else
      qN ← q N;
      call (Row n4 n3 n2 (GRT (n1 - 1)) n0) (addmul pp 1 qN) a
  else Done a.

(** [if (n0 > 0) generate...WeightsRec({n4, n3, n2, n1, (GRT)(n0 - 1)}, pp);] *)
Definition block0_noTCE (g : GelfandRow) (pp : Weight) (a : S) : Outcome S :=
  let '(Row n4 n3 n2 n1 n0) := g in
  if 0 <? n0 then call (Row n4 n3 n2 n1 (GRT (n0 - 1))) pp a
  else Done a.

(** The body of the [if (N > 0)]. *)
Definition body_noTCE (N : Z) (g : GelfandRow) (pp : Weight) (a : S) : Outcome S :=
  a ← block4_noTCE N g pp a;
  a ← block3_noTCE N g pp a;
  a ← block2_noTCE N g pp a;
  a ← block1_noTCE N g pp a;
  block0_noTCE g pp a.

End Body.

(** [generate...WeightsRec(gpr, pp)] with [*_DISABLE_TCE], acting on the
    multiplicity table [M]: [if (N > 0) { body } else { base case }]. *)
Fixpoint generateWeightsRec_noTCE (depth : nat) (g : GelfandRow) (p : Weight)
    (M : gmap Weight Z) : Outcome (gmap Weight Z) :=
  match depth with
  | O => Fail OutOfFuel
  | Datatypes.S d =>
      let N := to_size_t (n4 g + n3 g + n2 g + n1 g + n0 g - 1) in
      if 0 <? N then body_noTCE (generateWeightsRec_noTCE d) N g p M
      else base_case q addmul (MkFrame g p M [])
  end.

End RecursionNoTCE.

(** [UNtoSO3::generateSO3Weights] and [UNtoU3::generateU3Weights] compiled
    with [*_DISABLE_TCE]. *)
Definition generateSO3Weights_noTCE (g : GelfandRow) (gen : SO3.UNtoSO3)
  : Outcome SO3.UNtoSO3 :=
  M ← generateWeightsRec_noTCE (SO3.q gen) SO3.addmul
         (Datatypes.S (Z.to_nat (rowsum g))) g 0 ∅;
  Done {| SO3.m_ := SO3.m_ gen; SO3.l_ := SO3.l_ gen; SO3.mult_ := M |}.

Definition generateU3Weights_noTCE (g : GelfandRow) (gen : U3.UNtoU3)
  : Outcome U3.UNtoU3 :=
  M ← generateWeightsRec_noTCE (U3.q gen) U3.addmul
         (Datatypes.S (Z.to_nat (rowsum g))) g (0, 0, 0) ∅;
  Done {| U3.xyz_ := U3.xyz_ gen; U3.mult_ := M |}.

(** ** A weight that holds [n] quanta per particle

    [w] is [p] plus three non-negative numbers of quanta, in [uint32_t]
    arithmetic, that add up to [n] times the label total of the row [g];
    stated for rows whose counts cannot wrap around. *)
Definition holds_quanta (n : Z) (g : GelfandRow) (p w : U3.U3Weight) : Prop :=
  rowsum g <= UINT16_MAX ->
  exists c0 c1 c2, 0 <= c0 /\ 0 <= c1 /\ 0 <= c2 /\
    c0 + c1 + c2 = n * base_multiplier g /\
    w = (to_uint32 (fst (fst p) + c0), to_uint32 (snd (fst p) + c1),
         to_uint32 (snd p + c2)).

(** ** Merging a thread-local table

    [for (const auto temp : *mult_tl_) mult_[temp.first] += temp.second;]
    of [generateSO3Weights] and [generateU3Weights] with OpenMP enabled,
    over the entries in the order [entries] in which the map yields them. *)
Definition merge_entries `{Countable Weight} (entries : list (Weight * Z))
    (mult : gmap Weight Z) : gmap Weight Z :=
  foldl (fun mult temp =>
           <[ fst temp := to_uint32 (default 0 (mult !! fst temp) + snd temp) ]> mult)
        mult entries.

(** [mult_[w] += 1] for every weight of a list, in order. *)
Definition increments `{Countable Weight} (ws : list Weight) (M : gmap Weight Z)
  : gmap Weight Z :=
  foldl (fun M w => increment w M) M ws.

(** How often a weight occurs in a list. *)
Definition occurrences `{Countable Weight} (w : Weight) (ws : list Weight) : Z :=
  Z.of_nat (length (filter (fun w' => w' = w) ws)).

(** What a call does to a table: it fails whatever the table, or it counts
    a list of weights. *)
Definition counts_a_list `{Countable Weight}
    (run : gmap Weight Z -> Outcome (gmap Weight Z)) : Prop :=
  (exists f, forall M, run M = Fail f) \/
  (exists ws, forall M, run M = Done (increments ws M)).

(** ** The hasher of U(3) weights

    [array_3_hasher<T>::operator()] for [T = uint32_t]:
    [key[0] + (key[1] << 8) + (key[2] << 16)] in [uint32_t] arithmetic,
    returned as [std::size_t]. *)
Definition array_3_hasher (key : U3.U3Weight) : Z :=
  let '(k0, k1, k2) := key in
  to_size_t (to_uint32 (to_uint32 (k0 + to_uint32 (Z.shiftl k1 8))
                        + to_uint32 (Z.shiftl k2 16))).

(** ** Rows with one group

    The row of an irrep whose labels are all equal: [c] entries of the
    group [grp]. *)
Definition single_group (grp : Group) (c : Z) : GelfandRow :=
  match grp with
  | G4 => Row c 0 0 0 0
  | G3 => Row 0 c 0 0 0
  | G2 => Row 0 0 c 0 0
  | G1 => Row 0 0 0 c 0
  | G0 => Row 0 0 0 0 c
  end.

(** The sum of the first [n] entries of a table of quanta. *)
Definition quanta_sum (m : list Z) (n : nat) : Z := foldr Z.add 0 (take n m).

(** * Properties *)

(** ** Machine integers *)

Lemma GRT_spec (x : Z) :
  0 <= x -> 0 <= GRT x <= UINT16_MAX /\ GRT x <= x /\ (x <= UINT16_MAX -> GRT x = x).
Proof.
  intros Hx. unfold GRT, wrap_unsigned, UINT16_MAX.
  change (2 ^ 16) with 65536.
  pose proof (Z.mod_pos_bound x 65536 ltac:(lia)) as Hb.
  pose proof (Z.mod_le x 65536 Hx ltac:(lia)) as Hle.
  repeat split; try lia.
  intros Hs. apply Z.mod_small. lia.
Qed.

Lemma GRT_small (x : Z) : 0 <= x <= UINT16_MAX -> GRT x = x.
Proof. intros [H0 H1]. now apply GRT_spec. Qed.

Lemma to_size_t_small (x : Z) : 0 <= x < 2 ^ 64 -> to_size_t x = x.
Proof. intros Hx. unfold to_size_t, wrap_unsigned. now apply Z.mod_small. Qed.

Lemma to_uint32_small (x : Z) : 0 <= x < 2 ^ 32 -> to_uint32 x = x.
Proof. intros Hx. unfold to_uint32, wrap_unsigned. now apply Z.mod_small. Qed.

Lemma at_index_Done {A : Type} (v : list A) (i : Z) :
  0 <= i < Z.of_nat (length v) -> exists a, at_index v i = Done a.
Proof.
  intros Hi. unfold at_index.
  destruct (v !! Z.to_nat i) as [a|] eqn:E; [now exists a|].
  apply lookup_ge_None in E. lia.
Qed.

(** A read succeeds exactly when its index is inside the vector. *)
Lemma at_index_Done_iff {A : Type} (v : list A) (i : Z) :
  0 <= i -> (exists a, at_index v i = Done a) <-> i < Z.of_nat (length v).
Proof.
  intros H0. split.
  - intros [a Ha]. unfold at_index in Ha.
    destruct (v !! Z.to_nat i) as [b|] eqn:E; [|discriminate].
    apply lookup_lt_Some in E. lia.
  - intros Hi. apply at_index_Done. lia.
Qed.

(** ** One loop iteration *)

Ltac unfold_bind := unfold mbind, outcome_bind in *.

Ltac GRT_facts :=
  repeat match goal with
  | |- context [GRT ?x] =>
      let F := fresh "F" in
      pose proof (GRT_spec x ltac:(lia)) as F;
      generalize dependent (GRT x); intros
  end.

Section IterationFacts.

Context {Weight : Type} `{Countable Weight}.
Variable q : Z -> Outcome Weight.
Variable addmul : Weight -> Z -> Weight -> Weight.

(** The loop body makes the calls that [iteration] records, in that order,
    and leaves the frame that [iteration] leaves. *)
Lemma loop_body_calls {S : Type} (call : GelfandRow -> Weight -> S -> Outcome S)
    (N : Z) (fr : Frame S) :
  loop_body q addmul call N fr =
  match iteration q addmul N (gpr fr) (pp fr) with
  | Done t =>
      a ← run_calls call (acc t) (acc fr);
      Done (MkFrame (gpr t) (pp t) a (fired fr ++ fired t))
  | Fail f => Fail f
  end.
Proof.
  destruct fr as [[a4 a3 a2 a1 a0] p a ds].
  unfold iteration, loop_body, block4, block3, block2, block1, block0, record_call.
  cbn [gpr pp acc fired]. unfold_bind.
  destruct (0 <? a4) eqn:E4, (0 <? a3) eqn:E3, (0 <? a2) eqn:E2,
           (0 <? a1) eqn:E1, (0 <? a0) eqn:E0;
    cbn; destruct (q N) as [x|f];
    repeat (progress (cbn; rewrite ?E4, ?E3, ?E2, ?E1, ?E0));
    rewrite ?app_nil_r; try reflexivity;
    repeat (match goal with
            | |- context [call ?r ?w ?s] =>
                destruct (call r w s);
                repeat (progress (cbn; rewrite ?E4, ?E3, ?E2, ?E1, ?E0));
                try reflexivity
            end).
Qed.

(** What one iteration does to a row: it records the calls of
    [branches], and performs the in-place drop of the lowest non-empty
    group (none when the row is empty). *)
Lemma iteration_Done (N : Z) (g : GelfandRow) (p x : Weight) :
  row_ok g -> q N = Done x ->
  iteration q addmul N g p =
    Done (MkFrame
            (match lowest_group g with Some grp => drop_group grp g | None => g end)
            (match lowest_group g with Some grp => drop_weight addmul grp p x | None => p end)
            (map (as_call addmul p x) (branches g))
            (match lowest_group g with Some grp => [grp] | None => [] end)).
Proof.
  destruct g as [a4 a3 a2 a1 a0]. unfold row_ok, rowsum, UINT16_MAX. cbn [n4 n3 n2 n1 n0].
  intros (R4 & R3 & R2 & R1 & R0) Hq.
  unfold iteration, loop_body, block4, block3, block2, block1, block0, record_call,
    lowest_group, drop_group, drop_weight, label, branches, branches4, branches3,
    branches2, branches1, as_call.
  cbn [gpr pp acc fired n4 n3 n2 n1 n0]. unfold_bind. rewrite Hq.
  destruct (0 <? a4) eqn:E4, (0 <? a3) eqn:E3, (0 <? a2) eqn:E2,
           (0 <? a1) eqn:E1, (0 <? a0) eqn:E0;
    repeat (progress (cbn; rewrite ?E4, ?E3, ?E2, ?E1, ?E0));
    rewrite ?Z.ltb_lt, ?Z.ltb_ge in *;
    rewrite ?(GRT_small (a4 - 1)), ?(GRT_small (a3 - 1)), ?(GRT_small (a2 - 1)),
      ?(GRT_small (a1 - 1)), ?(GRT_small (a0 - 1)) by (unfold UINT16_MAX; lia);
    reflexivity.
Qed.

(** Every call is on a well-formed row with a strictly smaller sum. *)
Lemma branches_smaller (g : GelfandRow) :
  row_ok g ->
  Forall (fun b => row_ok (fst b) /\ rowsum (fst b) < rowsum g) (branches g).
Proof.
  destruct g as [a4 a3 a2 a1 a0]. unfold row_ok, rowsum, UINT16_MAX. cbn [n4 n3 n2 n1 n0].
  intros (R4 & R3 & R2 & R1 & R0).
  unfold branches, branches4, branches3, branches2, branches1.
  destruct (0 <? a4) eqn:E4, (0 <? a3) eqn:E3, (0 <? a2) eqn:E2,
           (0 <? a1) eqn:E1, (0 <? a0) eqn:E0;
    cbn [andb orb app];
    rewrite ?Z.ltb_lt, ?Z.ltb_ge in *;
    repeat (apply Forall_cons; split;
            [cbn [fst n4 n3 n2 n1 n0]; unfold UINT16_MAX in *; GRT_facts;
             unfold UINT16_MAX in *; lia|]);
    apply Forall_nil; exact I.
Qed.

(** The row left by the in-place drop. *)
Lemma lowest_group_Some (g : GelfandRow) :
  row_ok g -> 0 < rowsum g ->
  exists grp, lowest_group g = Some grp /\ 0 < count grp g /\
    row_ok (drop_group grp g) /\ rowsum (drop_group grp g) = rowsum g - 1.
Proof.
  destruct g as [a4 a3 a2 a1 a0]. unfold row_ok, rowsum, UINT16_MAX, lowest_group.
  cbn [n4 n3 n2 n1 n0]. intros (R4 & R3 & R2 & R1 & R0) Hs.
  destruct (Z.ltb_spec 0 a0); [exists G0; cbn; repeat split; lia|].
  destruct (Z.ltb_spec 0 a1); [exists G1; cbn; repeat split; lia|].
  destruct (Z.ltb_spec 0 a2); [exists G2; cbn; repeat split; lia|].
  destruct (Z.ltb_spec 0 a3); [exists G3; cbn; repeat split; lia|].
  destruct (Z.ltb_spec 0 a4); [exists G4; cbn; repeat split; lia|].
  lia.
Qed.

Lemma lowest_group_None (g : GelfandRow) :
  row_ok g -> rowsum g = 0 -> lowest_group g = None /\ branches g = [] /\ g = Row 0 0 0 0 0.
Proof.
  destruct g as [a4 a3 a2 a1 a0]. unfold row_ok, rowsum, UINT16_MAX.
  cbn [n4 n3 n2 n1 n0]. intros (R4 & R3 & R2 & R1 & R0) Hs.
  assert (a4 = 0) by lia. assert (a3 = 0) by lia. assert (a2 = 0) by lia.
  assert (a1 = 0) by lia. assert (a0 = 0) by lia. subst. repeat split.
Qed.

(** ** Termination and bounds of the table reads *)

Section Termination.

(** The length of the quanta table: every index below it can be read. *)
Variable len : Z.
Hypothesis q_inside : forall N, 0 <= N < len -> exists x, q N = Done x.

Lemma run_calls_Done {S : Type} (call : GelfandRow -> Weight -> S -> Outcome S)
    (cs : list (GelfandRow * Weight)) :
  Forall (fun c => forall a, exists a', call (fst c) (snd c) a = Done a') cs ->
  forall a, exists a', run_calls call cs a = Done a'.
Proof.
  induction cs as [|[r w] cs IH]; intros Hcs a; cbn.
  - now exists a.
  - apply Forall_cons in Hcs as [Hc Hcs]. destruct (Hc a) as [a' Ha'].
    cbn in Ha'. unfold_bind. rewrite Ha'. now apply IH.
Qed.

Lemma base_case_Done (fr : Frame (gmap Weight Z)) :
  0 < len -> exists M', base_case q addmul fr = Done M'.
Proof.
  intros Hlen. destruct fr as [[a4 a3 a2 a1 a0] p M ds]. unfold base_case. cbn.
  destruct (q_inside 0 ltac:(lia)) as [x Hx]. unfold_bind. rewrite Hx. eauto.
Qed.

(** An empty row (reached only when a count wraps around): the loop runs
    [N] times without touching the table or the row. *)
Lemma while_loop_empty (call : GelfandRow -> Weight -> gmap Weight Z -> Outcome (gmap Weight Z))
    (iters : nat) (N : Z) (p : Weight) (M : gmap Weight Z) (ds : list Group) :
  0 <= N <= Z.of_nat iters ->
  while_loop q addmul call iters N (MkFrame (Row 0 0 0 0 0) p M ds) =
  base_case q addmul (MkFrame (Row 0 0 0 0 0) p M ds).
Proof.
  revert N. induction iters as [|i IH]; intros N HN; cbn [while_loop].
  - destruct (Z.ltb_spec 0 N); [lia|reflexivity].
  - destruct (Z.ltb_spec 0 N); [|reflexivity].
    cbn. apply IH. lia.
Qed.

Lemma while_loop_Done (d : nat) :
  (forall g, row_ok g -> rowsum g < Z.of_nat d -> rowsum g <= len ->
     forall p M, exists M', generateWeightsRec q addmul d g p M = Done M') ->
  0 < len ->
  forall (iters : nat) (N : Z) (g : GelfandRow) (p : Weight) (M : gmap Weight Z)
         (ds : list Group),
    row_ok g -> N = rowsum g - 1 -> 0 <= N <= Z.of_nat iters ->
    rowsum g <= Z.of_nat d -> rowsum g <= len ->
    exists M', while_loop q addmul (generateWeightsRec q addmul d) iters N
                 (MkFrame g p M ds) = Done M'.
Proof.
  intros IHd Hlen. induction iters as [|i IH]; intros N g p M ds Hg HN Hi Hd Hl;
    cbn [while_loop]; destruct (Z.ltb_spec 0 N); try lia;
    try (now apply base_case_Done).
  rewrite loop_body_calls. cbn [gpr pp acc fired].
  destruct (q_inside N ltac:(lia)) as [x Hx].
  rewrite (iteration_Done N g p x Hg Hx). cbn [gpr pp acc fired].
  destruct (run_calls_Done (generateWeightsRec q addmul d)
              (map (as_call addmul p x) (branches g))) with (a := M) as [M1 HM1].
  { apply Forall_map. eapply Forall_impl; [apply (branches_smaller g Hg)|].
    intros [r k] [Hr Hs] a. cbn [fst snd as_call] in *. apply IHd; [assumption|lia|lia]. }
  unfold_bind. rewrite HM1.
  destruct (lowest_group_Some g Hg ltac:(lia)) as (grp & Hgrp & _ & Hok & Hsum).
  rewrite Hgrp. apply IH; [assumption|lia|lia|lia|lia].
Qed.

(** The recursion returns, without a read outside the table, on every
    well-formed row that is no longer than the table; any depth above the
    row sum is enough. *)
Lemma generateWeightsRec_Done (depth : nat) :
  0 < len ->
  forall g, row_ok g -> rowsum g < Z.of_nat depth -> rowsum g <= len ->
  forall p M, exists M', generateWeightsRec q addmul depth g p M = Done M'.
Proof.
  intros Hlen. induction depth as [|d IHd]; intros g Hg Hd Hl p M.
  - unfold row_ok, rowsum in *. lia.
  - cbn [generateWeightsRec]. fold (rowsum g).
    destruct (Z.eq_dec (rowsum g) 0) as [E|E].
    + destruct (lowest_group_None g Hg E) as (_ & _ & ->).
      assert (HN : 0 <= to_size_t (rowsum (Row 0 0 0 0 0) - 1))
        by (apply Z.mod_pos_bound; reflexivity).
      revert HN. generalize (to_size_t (rowsum (Row 0 0 0 0 0) - 1)).
      intros N HN. rewrite while_loop_empty.
      * now apply base_case_Done.
      * rewrite Z2Nat.id; lia.
    + assert (Hpos : 0 < rowsum g) by (unfold row_ok, rowsum in *; lia).
      assert (Hsmall : rowsum g <= 5 * UINT16_MAX) by (unfold row_ok, rowsum in *; lia).
      rewrite to_size_t_small by (unfold UINT16_MAX in *; lia).
      apply while_loop_Done; try assumption; try lia.
Qed.

End Termination.

End IterationFacts.

(** ** The quanta tables *)

Section GenerateM.

(** [generateM(l)] stores -l, -l+1, ..., l, each converted to [int8_t]. *)
Lemma generateM_loop_spec (iters : nat) (m l : Z) (v : list Z) :
  Z.of_nat iters = l - m + 1 ->
  SO3.generateM_loop iters m l v = v ++ (to_int8 <$> seqZ m (l - m + 1)).
Proof.
  revert m v. induction iters as [|i IH]; intros m v Hi; cbn [SO3.generateM_loop].
  - destruct (Z.leb_spec m l); [lia|]. rewrite seqZ_nil by lia. now rewrite app_nil_r.
  - destruct (Z.leb_spec m l); [|lia].
    rewrite IH by lia. rewrite (seqZ_cons m) by lia. cbn [fmap list_fmap].
    rewrite <- app_assoc. cbn [app].
    replace (Z.succ m) with (m + 1) by lia.
    replace (Z.pred (l - m + 1)) with (l - (m + 1) + 1) by lia. reflexivity.
Qed.

Lemma generateM_table (l : Z) (gen : SO3.UNtoSO3) :
  0 <= l ->
  SO3.m_ (SO3.generateM l gen) = to_int8 <$> seqZ (- l) (2 * l + 1).
Proof.
  intros Hl. unfold SO3.generateM. cbn [SO3.m_].
  rewrite generateM_loop_spec by lia. cbn [app]. f_equal. f_equal. lia.
Qed.

Lemma generateM_length (l : Z) (gen : SO3.UNtoSO3) :
  0 <= l -> Z.of_nat (length (SO3.m_ (SO3.generateM l gen))) = 2 * l + 1.
Proof.
  intros Hl. rewrite generateM_table by assumption.
  rewrite length_fmap, length_seqZ. lia.
Qed.

End GenerateM.

Section GenerateXYZ.

Lemma append_triples_app (t : U3.XYZ) (l1 l2 : list (Z * Z * Z)) :
  append_triples (append_triples t l1) l2 = append_triples t (l1 ++ l2).
Proof.
  unfold append_triples. cbn. rewrite !fmap_app, !app_assoc. reflexivity.
Qed.

Lemma generateXYZ_inner_spec (n k : Z) (iters : nat) (nx : Z) (t : U3.XYZ) :
  0 <= n - k < 2 ^ 32 -> nx <= k < 2 ^ 32 ->
  Z.of_nat iters = nx + 1 ->
  U3.generateXYZ_inner iters n (n - k) nx t =
  append_triples t (canonical_row n k (reverse (seqZ 0 (nx + 1)))).
Proof.
  intros Hn Hk. revert nx Hk t.
  induction iters as [|i IH]; intros nx Hk t Hi; cbn [U3.generateXYZ_inner].
  - destruct (Z.leb_spec 0 nx); [lia|]. rewrite seqZ_nil by lia.
    destruct t; unfold append_triples; cbn. now rewrite !app_nil_r.
  - destruct (Z.leb_spec 0 nx); [|lia].
    rewrite IH by lia.
    assert (E : seqZ 0 (nx + 1) = seqZ 0 nx ++ [nx]).
    { rewrite (seqZ_app 0 nx 1) by lia. rewrite (seqZ_cons (0 + nx) 1) by lia.
      now rewrite (seqZ_nil _ (Z.pred 1)) by lia. }
    rewrite E, reverse_snoc. replace (nx - 1 + 1) with nx by lia.
    unfold canonical_row at 2.
    cbn [mbind list_bind app]. fold (canonical_row n k (reverse (seqZ 0 nx))).
    change (?a :: ?l) with ([a] ++ l).
    rewrite <- (append_triples_app t [_]). f_equal.
    unfold U3.push_quanta, append_triples, triple_NZ, triple_NX, triple_NY. cbn.
    rewrite !to_uint32_small by lia. repeat f_equal; lia.
Qed.

Lemma generateXYZ_outer_spec (n : Z) (iters : nat) (k : Z) (t : U3.XYZ) :
  0 <= k -> n < 2 ^ 32 ->
  Z.of_nat iters = n - k + 1 ->
  U3.generateXYZ_outer iters n k t =
  append_triples t (k' ← seqZ k (n - k + 1);
                    canonical_row n k' (reverse (seqZ 0 (k' + 1)))).
Proof.
  intros Hk Hn. revert k Hk t.
  induction iters as [|i IH]; intros k Hk t Hi; cbn [U3.generateXYZ_outer].
  - destruct (Z.leb_spec k n); [lia|]. rewrite seqZ_nil by lia.
    destruct t; unfold append_triples; cbn. now rewrite !app_nil_r.
  - destruct (Z.leb_spec k n); [|lia].
    rewrite to_uint32_small by lia.
    rewrite generateXYZ_inner_spec by lia.
    rewrite IH by lia. rewrite append_triples_app.
    rewrite (seqZ_cons k) by lia. cbn [mbind list_bind].
    replace (Z.succ k) with (k + 1) by lia.
    replace (Z.pred (n - k + 1)) with (n - (k + 1) + 1) by lia. reflexivity.
Qed.

(** The table of [generateXYZ(n)] is the canonical order, component by
    component. *)
Lemma generateXYZ_table (n : Z) (gen : U3.UNtoU3) :
  0 <= n < 2 ^ 32 ->
  U3.xyz_ (U3.generateXYZ n gen) = append_triples (U3.MkXYZ [] [] []) (canonical_order n).
Proof.
  intros Hn. unfold U3.generateXYZ. cbn [U3.xyz_].
  rewrite generateXYZ_outer_spec by lia.
  unfold canonical_order, canonical_row.
  replace (n - 0 + 1) with (n + 1) by lia. reflexivity.
Qed.

Lemma canonical_row_length (n k : Z) (nxs : list Z) :
  length (canonical_row n k nxs) = length nxs.
Proof.
  unfold canonical_row. induction nxs as [|x nxs IH]; [reflexivity|].
  cbn [mbind list_bind app length] in *. now rewrite IH.
Qed.

Lemma canonical_prefix_length (n : Z) (m : nat) :
  2 * Z.of_nat (length (k ← seqZ 0 (Z.of_nat m);
                        canonical_row n k (reverse (seqZ 0 (k + 1)))))
  = Z.of_nat m * (Z.of_nat m + 1).
Proof.
  induction m as [|m IH].
  - reflexivity.
  - rewrite seqZ_S, bind_app, length_app, Nat2Z.inj_add, Z.mul_add_distr_l, IH.
    cbn [mbind list_bind]. rewrite app_nil_r, canonical_row_length, length_reverse, length_seqZ.
    lia.
Qed.

Lemma canonical_order_length (n : Z) :
  0 <= n -> Z.of_nat (length (canonical_order n)) = (n + 1) * (n + 2) / 2.
Proof.
  intros Hn.
  pose proof (canonical_prefix_length n (Z.to_nat (n + 1))) as Hp.
  rewrite Z2Nat.id in Hp by lia.
  change (canonical_order n) with
    (k ← seqZ 0 (n + 1); canonical_row n k (reverse (seqZ 0 (k + 1)))).
  apply Z.div_unique_exact; lia.
Qed.

Lemma canonical_order_sum (n : Z) :
  Forall (fun t => triple_NZ t + triple_NX t + triple_NY t = n) (canonical_order n).
Proof.
  unfold canonical_order. apply Forall_forall. intros [[z x] y] Hin.
  apply list_elem_of_bind in Hin as (k & Hin & _).
  apply list_elem_of_bind in Hin as (nx & Hin & _).
  apply list_elem_of_singleton in Hin. injection Hin as -> -> ->.
  unfold triple_NZ, triple_NX, triple_NY. cbn. lia.
Qed.

End GenerateXYZ.

(** ** The tables can be read at every index below their length *)

Lemma SO3_q_inside (l : Z) (gen : SO3.UNtoSO3) :
  0 <= l ->
  forall N, 0 <= N < 2 * l + 1 -> exists x, SO3.q (SO3.generateM l gen) N = Done x.
Proof.
  intros Hl N HN. unfold SO3.q. apply at_index_Done.
  rewrite generateM_length by assumption. lia.
Qed.

Lemma U3_q_inside (n : Z) (gen : U3.UNtoU3) :
  0 <= n < 2 ^ 32 ->
  forall N, 0 <= N < (n + 1) * (n + 2) / 2 ->
  exists x, U3.q (U3.generateXYZ n gen) N = Done x.
Proof.
  intros Hn N HN. unfold U3.q. rewrite generateXYZ_table by assumption.
  unfold append_triples. cbn [U3.xyz_NZ U3.xyz_NX U3.xyz_NY app].
  pose proof (canonical_order_length n ltac:(lia)) as Hlen.
  destruct (at_index_Done (triple_NZ <$> canonical_order n) N) as [z ->];
    [rewrite length_fmap; lia|].
  destruct (at_index_Done (triple_NX <$> canonical_order n) N) as [x ->];
    [rewrite length_fmap; lia|].
  destruct (at_index_Done (triple_NY <$> canonical_order n) N) as [y ->];
    [rewrite length_fmap; lia|].
  now exists (z, x, y).
Qed.

(** ** C9: the table of HO quanta *)

(** C9.  For every shell n >= 0 (an [int], small enough for the loop counter
    to step past it), [generateXYZ(n)] fills three vectors of length
    (n+1)(n+2)/2 which are, component by component, the canonical order
    "for k = 0..n, n_z = n - k, n_x from k down to 0:
    (n_z, n_x, n - n_z - n_x)"; the three entries at any index sum to n. *)
Theorem generateXYZ_canonical (n : Z) (gen : U3.UNtoU3) :
  0 <= n < INT_MAX ->
  let t := U3.xyz_ (U3.generateXYZ n gen) in
  U3.xyz_NZ t = triple_NZ <$> canonical_order n /\
  U3.xyz_NX t = triple_NX <$> canonical_order n /\
  U3.xyz_NY t = triple_NY <$> canonical_order n /\
  Z.of_nat (length (U3.xyz_NZ t)) = (n + 1) * (n + 2) / 2 /\
  Z.of_nat (length (U3.xyz_NX t)) = (n + 1) * (n + 2) / 2 /\
  Z.of_nat (length (U3.xyz_NY t)) = (n + 1) * (n + 2) / 2 /\
  (forall (i : nat) (z x y : Z),
      U3.xyz_NZ t !! i = Some z -> U3.xyz_NX t !! i = Some x ->
      U3.xyz_NY t !! i = Some y -> z + x + y = n).
Proof.
  intros Hn t. unfold INT_MAX in Hn.
  assert (Ht : t = append_triples (U3.MkXYZ [] [] []) (canonical_order n))
    by (apply generateXYZ_table; lia).
  rewrite Ht. unfold append_triples. cbn [U3.xyz_NZ U3.xyz_NX U3.xyz_NY app].
  rewrite !length_fmap, canonical_order_length by lia.
  repeat split; try reflexivity.
  intros i z x y Hz Hx Hy.
  rewrite list_lookup_fmap in Hz, Hx, Hy.
  destruct (canonical_order n !! i) as [tr|] eqn:E; [|discriminate].
  cbn in Hz, Hx, Hy. injection Hz as <-. injection Hx as <-. injection Hy as <-.
  pose proof (canonical_order_sum n) as Hs.
  rewrite Forall_forall in Hs. apply Hs. eapply list_elem_of_lookup_2. exact E.
Qed.

Lemma generateXYZ_canonical_witness :
  U3.xyz_ (U3.generateXYZ 2 U3.fresh) =
  U3.MkXYZ [2; 1; 1; 0; 0; 0] [0; 1; 0; 2; 1; 0] [0; 0; 1; 0; 1; 2] /\
  U3.xyz_NZ (U3.xyz_ (U3.generateXYZ 2 U3.fresh)) = triple_NZ <$> canonical_order 2.
Proof.
  split; [reflexivity|].
  apply (generateXYZ_canonical 2 U3.fresh). unfold INT_MAX. lia.
Defined.

(** ** C10: termination, and no read outside the table *)

(** C10.  After [generateM(l)] (l >= 0) every well-formed top row whose
    counts sum to 2l+1, and after [generateXYZ(n)] (n >= 0) every
    well-formed top row whose counts sum to (n+1)(n+2)/2, is enumerated to
    the end: the run is [Done], so neither the depth bound was hit (the
    loops and the recursion terminate) nor any table read was outside the
    table (such a read ends a run with [Fail OutOfBounds], and a read
    succeeds exactly at the indices 0 <= N < length). *)
Theorem recursion_terminates_in_bounds :
  (forall (l : Z) (g : GelfandRow) (gen : SO3.UNtoSO3),
      0 <= l -> row_ok g -> rowsum g = 2 * l + 1 ->
      (exists gen', SO3.generateSO3Weights g (SO3.generateM l gen) = Done gen') /\
      (forall N, 0 <= N ->
         (exists x, SO3.q (SO3.generateM l gen) N = Done x) <-> N < 2 * l + 1)) /\
  (forall (n : Z) (g : GelfandRow) (gen : U3.UNtoU3),
      0 <= n < INT_MAX -> row_ok g -> rowsum g = (n + 1) * (n + 2) / 2 ->
      (exists gen', U3.generateU3Weights g (U3.generateXYZ n gen) = Done gen') /\
      (forall N, 0 <= N ->
         (exists x, U3.q (U3.generateXYZ n gen) N = Done x) <-> N < (n + 1) * (n + 2) / 2)).
Proof.
  split.
  - intros l g gen Hl Hg Hsum. split.
    + unfold SO3.generateSO3Weights, SO3.generateSO3WeightsRec.
      destruct (generateWeightsRec_Done (SO3.q (SO3.generateM l gen)) SO3.addmul
                  (2 * l + 1) (SO3_q_inside l gen Hl)
                  (S (Z.to_nat (rowsum g))) ltac:(lia) g Hg ltac:(lia) ltac:(lia) 0 ∅)
        as [M' HM'].
      unfold_bind. rewrite HM'. eauto.
    + intros N HN. unfold SO3.q. rewrite at_index_Done_iff by assumption.
      rewrite generateM_length by assumption. reflexivity.
  - intros n g gen Hn Hg Hsum. unfold INT_MAX in Hn. split.
    + unfold U3.generateU3Weights, U3.generateU3WeightsRec.
      assert (Hpos : 0 < (n + 1) * (n + 2) / 2).
      { apply Z.div_str_pos. nia. }
      destruct (generateWeightsRec_Done (U3.q (U3.generateXYZ n gen)) U3.addmul
                  ((n + 1) * (n + 2) / 2) (U3_q_inside n gen ltac:(lia))
                  (S (Z.to_nat (rowsum g))) Hpos g Hg ltac:(lia) ltac:(lia) (0, 0, 0) ∅)
        as [M' HM'].
      unfold_bind. rewrite HM'. eauto.
    + intros N HN. split.
      * intros [[[z x] y] Hq]. unfold U3.q in Hq. unfold_bind.
        destruct (at_index (U3.xyz_NZ (U3.xyz_ (U3.generateXYZ n gen))) N) as [z'|] eqn:E;
          [|discriminate].
        assert (Hlt : N < Z.of_nat (length (U3.xyz_NZ (U3.xyz_ (U3.generateXYZ n gen)))))
          by (apply at_index_Done_iff; eauto).
        destruct (generateXYZ_canonical n gen ltac:(unfold INT_MAX; lia))
          as (_ & _ & _ & Hlen & _).
        cbv zeta in Hlen. lia.
      * intros Hlt. apply U3_q_inside; lia.
Qed.

Lemma recursion_terminates_in_bounds_witness :
  (exists gen', SO3.generateSO3Weights (Row 0 0 1 1 1) (SO3.generateM 1 SO3.fresh) = Done gen') /\
  (exists gen', U3.generateU3Weights (Row 0 0 1 1 1) (U3.generateXYZ 1 U3.fresh) = Done gen').
Proof.
  split.
  - apply (proj1 recursion_terminates_in_bounds 1 (Row 0 0 1 1 1) SO3.fresh);
      [lia | unfold row_ok, UINT16_MAX; cbn; lia | reflexivity].
  - apply (proj2 recursion_terminates_in_bounds 1 (Row 0 0 1 1 1) U3.fresh);
      [unfold INT_MAX; lia | unfold row_ok, UINT16_MAX; cbn; lia | reflexivity].
Defined.

(** ** C6: the in-place drops of one loop iteration *)

Section OneDrop.

Context {Weight : Type}.
Variable q : Z -> Outcome Weight.
Variable addmul : Weight -> Z -> Weight -> Weight.

Lemma lowest_group_due (g : GelfandRow) (grp : Group) :
  row_ok g -> lowest_group g = Some grp -> due grp g.
Proof.
  destruct g as [a4 a3 a2 a1 a0]. unfold row_ok, lowest_group, due, UINT16_MAX.
  cbn [n4 n3 n2 n1 n0]. intros (R4 & R3 & R2 & R1 & R0).
  destruct (Z.ltb_spec 0 a0); [intros [= <-]; split; [assumption|];
    intros []; cbn; lia|].
  destruct (Z.ltb_spec 0 a1); [intros [= <-]; split; [assumption|];
    intros []; cbn; lia|].
  destruct (Z.ltb_spec 0 a2); [intros [= <-]; split; [assumption|];
    intros []; cbn; lia|].
  destruct (Z.ltb_spec 0 a3); [intros [= <-]; split; [assumption|];
    intros []; cbn; lia|].
  destruct (Z.ltb_spec 0 a4); [intros [= <-]; split; [assumption|];
    intros []; cbn; lia|].
  discriminate.
Qed.

Lemma one_drop (N : Z) (g : GelfandRow) (p x : Weight) :
  row_ok g -> q N = Done x ->
  exists fr, iteration q addmul N g p = Done fr /\
    (0 < rowsum g ->
       exists grp, fired fr = [grp] /\ due grp g /\
         gpr fr = drop_group grp g /\ pp fr = drop_weight addmul grp p x) /\
    (rowsum g = 0 -> fired fr = [] /\ gpr fr = g /\ pp fr = p /\ acc fr = []).
Proof.
  intros Hg Hq. eexists. split; [apply (iteration_Done q addmul N g p x Hg Hq)|].
  cbn [gpr pp acc fired]. split.
  - intros Hpos. destruct (lowest_group_Some g Hg Hpos) as (grp & Hgrp & _).
    rewrite Hgrp. exists grp. repeat split; try reflexivity.
    + apply (lowest_group_due g grp Hg Hgrp).
    + apply (lowest_group_due g grp Hg Hgrp).
  - intros H0. destruct (lowest_group_None g Hg H0) as (-> & -> & _).
    repeat split.
Qed.

End OneDrop.

(** C6.  In one iteration of the [while] loop, on a row with at least one
    entry (every row the loop meets while [N = sum - 1 > 0]), exactly one
    in-place drop fires: that of the non-empty group all of whose lower
    groups are empty; the row continues with that count decreased by one.
    (No drop fires only on a row without entries.)  The same holds for the
    SO(3) and the U(3) recursion. *)
Theorem one_drop_per_iteration (N : Z) (g : GelfandRow) :
  row_ok g ->
  (forall (gen : SO3.UNtoSO3) (p x : Z),
      SO3.q gen N = Done x ->
      exists fr, iteration (SO3.q gen) SO3.addmul N g p = Done fr /\
        (0 < rowsum g ->
           exists grp, fired fr = [grp] /\ due grp g /\
             gpr fr = drop_group grp g /\ pp fr = drop_weight SO3.addmul grp p x) /\
        (rowsum g = 0 -> fired fr = [] /\ gpr fr = g /\ pp fr = p /\ acc fr = [])) /\
  (forall (gen : U3.UNtoU3) (p x : U3.U3Weight),
      U3.q gen N = Done x ->
      exists fr, iteration (U3.q gen) U3.addmul N g p = Done fr /\
        (0 < rowsum g ->
           exists grp, fired fr = [grp] /\ due grp g /\
             gpr fr = drop_group grp g /\ pp fr = drop_weight U3.addmul grp p x) /\
        (rowsum g = 0 -> fired fr = [] /\ gpr fr = g /\ pp fr = p /\ acc fr = [])).
Proof.
  intros Hg. split.
  - intros gen p x Hq. now apply one_drop.
  - intros gen p x Hq. now apply one_drop.
Qed.

Lemma one_drop_per_iteration_witness :
  exists fr, iteration (SO3.q (SO3.generateM 2 SO3.fresh)) SO3.addmul 4 (Row 1 0 2 0 2) 0
             = Done fr /\
    fired fr = [G0] /\ gpr fr = Row 1 0 2 0 1.
Proof.
  destruct (proj1 (one_drop_per_iteration 4 (Row 1 0 2 0 2)
                     ltac:(unfold row_ok, UINT16_MAX; cbn; lia))
              (SO3.generateM 2 SO3.fresh) 0 2 eq_refl)
    as (fr & Hfr & Hpos & _).
  exists fr. split; [exact Hfr|].
  destruct (Hpos ltac:(reflexivity)) as (grp & Hf & Hdue & Hg & _).
  destruct grp; destruct Hdue as [Hc Hl]; cbn in Hc;
    try lia;
    try (specialize (Hl G0 ltac:(cbn; lia)); cbn in Hl; lia).
  split; [exact Hf | exact Hg].
Defined.

(** ** C4: the children of the [n4 > 0] block *)

Section N4Children.

Context {Weight : Type}.
Variable q : Z -> Outcome Weight.
Variable addmul : Weight -> Z -> Weight -> Weight.

Lemma n4_children_spec (N : Z) (g : GelfandRow) (p x : Weight) :
  row_ok g -> 0 < n4 g -> rowsum g <= UINT16_MAX -> q N = Done x ->
  n4_children q addmul N g p = Done (spec_n4_children addmul g p x).
Proof.
  destruct g as [a4 a3 a2 a1 a0]. unfold row_ok, rowsum, UINT16_MAX.
  cbn [n4 n3 n2 n1 n0]. intros (R4 & R3 & R2 & R1 & R0) H4 Hsum Hq.
  unfold n4_children, block4, record_call, spec_n4_children.
  cbn [gpr pp acc fired]. unfold_bind. rewrite Hq.
  destruct (0 <? a4) eqn:E4; [|apply Z.ltb_ge in E4; lia].
  destruct (0 <? a3) eqn:E3, (0 <? a2) eqn:E2, (0 <? a1) eqn:E1, (0 <? a0) eqn:E0;
    cbn;
    rewrite ?Z.ltb_lt, ?Z.ltb_ge in *;
    rewrite ?(GRT_small (a4 - 1)), ?(GRT_small (a3 - 1)), ?(GRT_small (a2 - 1)),
      ?(GRT_small (a1 - 1)), ?(GRT_small (a0 - 1)), ?(GRT_small (a3 + 1)),
      ?(GRT_small (a2 + 1)), ?(GRT_small (a1 + 1)) by (unfold UINT16_MAX; lia);
    reflexivity.
Qed.

End N4Children.



(** ** C2, C3: the level dimensionality *)

Lemma to_uint32_add_l (a b : Z) : to_uint32 (to_uint32 a + b) = to_uint32 (a + b).
Proof. unfold to_uint32, wrap_unsigned. apply Zplus_mod_idemp_l. Qed.

Lemma to_uint32_sub_l (a b : Z) : to_uint32 (to_uint32 a - b) = to_uint32 (a - b).
Proof. unfold to_uint32, wrap_unsigned. apply Zminus_mod_idemp_l. Qed.

Lemma to_uint32_repr (a : Z) : exists k, to_uint32 a = a + k * 2 ^ 32.
Proof.
  exists (- (a / 2 ^ 32)). unfold to_uint32, wrap_unsigned.
  rewrite Z.mod_eq by (intros E; discriminate E). ring.
Qed.

Lemma to_uint32_congr (a b k : Z) : a = b + k * 2 ^ 32 -> to_uint32 a = to_uint32 b.
Proof.
  intros ->. unfold to_uint32, wrap_unsigned. apply Z_mod_plus_full.
Qed.

(** C2, as the code has it.  [getLevelDimensionality(l)] returns 0 when
    l < 0.  For l >= 0 it asserts that l is a key of the multiplicity table:
    when it is, the value is M[l] - M[l+1] in [uint32_t] arithmetic, an
    absent key l+1 counting as 0 (and this is the plain difference when
    0 <= M[l+1] <= M[l] < 2^32); when l itself is absent the assertion
    fails and no value is returned. *)
Theorem SO3_getLevelDimensionality_spec (gen : SO3.UNtoSO3) (l : Z) :
  (l < 0 -> SO3.getLevelDimensionality gen l = Done 0) /\
  (0 <= l < INT_MAX ->
   forall mult, SO3.mult_ gen !! l = Some mult ->
     SO3.getLevelDimensionality gen l
     = Done (to_uint32 (mult - default 0 (SO3.mult_ gen !! (l + 1)))) /\
     (0 <= default 0 (SO3.mult_ gen !! (l + 1)) <= mult -> mult < 2 ^ 32 ->
      SO3.getLevelDimensionality gen l
      = Done (mult - default 0 (SO3.mult_ gen !! (l + 1))))) /\
  (0 <= l -> SO3.mult_ gen !! l = None ->
   SO3.getLevelDimensionality gen l = Fail AssertionFailed).
Proof.
  unfold SO3.getLevelDimensionality. split; [|split].
  - intros Hl. destruct (Z.ltb_spec l 0); [reflexivity|lia].
  - intros Hl mult Hm. destruct (Z.ltb_spec l 0); [lia|]. rewrite Hm. split.
    + destruct (SO3.mult_ gen !! (l + 1)); reflexivity.
    + intros Hle Hlt.
      destruct (SO3.mult_ gen !! (l + 1)) as [m'|]; cbn [from_option id] in *;
        rewrite to_uint32_small by lia; reflexivity.
  - intros Hl Hnone. destruct (Z.ltb_spec l 0); [lia|]. now rewrite Hnone.
Qed.

Lemma SO3_getLevelDimensionality_spec_witness :
  SO3.getLevelDimensionality
    {| SO3.m_ := [0]; SO3.l_ := 0; SO3.mult_ := ({[ 0 := 1 ]} : gmap Z Z) |} 0
  = Done 1.
Proof.
  set (gen := {| SO3.m_ := [0]; SO3.l_ := 0; SO3.mult_ := ({[ 0 := 1 ]} : gmap Z Z) |}).
  assert (Hm : SO3.mult_ gen !! 0 = Some 1) by (vm_compute; reflexivity).
  assert (Hr : 0 <= 0 < INT_MAX) by (unfold INT_MAX; lia).
  destruct (proj1 (proj2 (SO3_getLevelDimensionality_spec gen 0)) Hr 1 Hm) as [_ Hd].
  apply Hd; [vm_compute; split; discriminate | reflexivity].
Defined.

(** C2 as stated fails: after the enumeration for l = 0 of the row
    (0,0,0,0,1) the table is {0 -> 1}; the weight 1 is not a key, and
    [getLevelDimensionality(1)] stops at its assertion instead of returning
    M[1] - M[2] = 0. *)
Lemma SO3_absent_weight_asserts :
  SO3.generateSO3Weights (Row 0 0 0 0 1) (SO3.generateM 0 SO3.fresh)
  = Done {| SO3.m_ := [0]; SO3.l_ := 0; SO3.mult_ := {[ 0 := 1 ]} |} /\
  SO3.getLevelDimensionality
    {| SO3.m_ := [0]; SO3.l_ := 0; SO3.mult_ := {[ 0 := 1 ]} |} 1
  = Fail AssertionFailed /\
  SO3.getLevelDimensionality
    {| SO3.m_ := [0]; SO3.l_ := 0; SO3.mult_ := {[ 0 := 1 ]} |} 1
  <> Done 0.
Proof.
  split; [vm_compute; reflexivity|].
  split; [vm_compute; reflexivity | vm_compute; discriminate].
Qed.

(** C3, as the code has it.  [getLevelDimensionality(f1,f2,f3)] returns 0
    when f1 < f2 or f2 < f3.  Otherwise it asserts that (f1,f2,f3) is a key
    of the table: when it is, the value is
    M[f1,f2,f3] + M[f1+1,f2+1,f3-2] + M[f1+2,f2-1,f3-1] - M[f1+2,f2,f3-2]
    - M[f1+1,f2-1,f3] - M[f1,f2+1,f3-1] in [uint32_t] arithmetic, the five
    other keys counting as 0 when absent; when (f1,f2,f3) itself is absent
    the assertion fails and no value is returned. *)
Theorem U3_getLevelDimensionality_spec (gen : U3.UNtoU3) (f1 f2 f3 : Z) :
  (f1 < f2 \/ f2 < f3 -> U3.getLevelDimensionality gen (f1, f2, f3) = Done 0) /\
  (f2 <= f1 -> f3 <= f2 -> is_Some (U3.mult_ gen !! (f1, f2, f3)) ->
   U3.getLevelDimensionality gen (f1, f2, f3)
   = Done (to_uint32 (U3_level_sum (U3.mult_ gen) f1 f2 f3))) /\
  (f2 <= f1 -> f3 <= f2 -> U3.mult_ gen !! (f1, f2, f3) = None ->
   U3.getLevelDimensionality gen (f1, f2, f3) = Fail AssertionFailed).
Proof.
  unfold U3.getLevelDimensionality. split; [|split].
  - intros Hlt. destruct (Z.ltb_spec f1 f2), (Z.ltb_spec f2 f3); cbn; try reflexivity; lia.
  - intros H1 H2 [mult Hm].
    destruct (Z.ltb_spec f1 f2), (Z.ltb_spec f2 f3); try lia. cbn [orb].
    rewrite Hm. f_equal. unfold U3_level_sum.
    assert (E0 : U3.found_or_0 (U3.mult_ gen) (f1, f2, f3) = mult)
      by (exact (f_equal (default 0) Hm)).
    rewrite E0. clear E0.
    generalize (U3.found_or_0 (U3.mult_ gen)
                  (to_uint32 (f1 + 1), to_uint32 (f2 + 1), to_uint32 (f3 - 2)))
               (U3.found_or_0 (U3.mult_ gen)
                  (to_uint32 (f1 + 2), to_uint32 (f2 - 1), to_uint32 (f3 - 1)))
               (U3.found_or_0 (U3.mult_ gen) (to_uint32 (f1 + 2), f2, to_uint32 (f3 - 2)))
               (U3.found_or_0 (U3.mult_ gen) (to_uint32 (f1 + 1), to_uint32 (f2 - 1), f3))
               (U3.found_or_0 (U3.mult_ gen) (f1, to_uint32 (f2 + 1), to_uint32 (f3 - 1))).
    intros A B C D E.
    destruct (to_uint32_repr (mult + A)) as [k1 ->].
    destruct (to_uint32_repr (mult + A + k1 * 2 ^ 32 + B)) as [k2 ->].
    destruct (to_uint32_repr (mult + A + k1 * 2 ^ 32 + B + k2 * 2 ^ 32 - C)) as [k3 ->].
    destruct (to_uint32_repr
                (mult + A + k1 * 2 ^ 32 + B + k2 * 2 ^ 32 - C + k3 * 2 ^ 32 - D))
      as [k4 ->].
    apply (to_uint32_congr _ _ (k1 + k2 + k3 + k4)). ring.
  - intros H1 H2 Hnone.
    destruct (Z.ltb_spec f1 f2), (Z.ltb_spec f2 f3); try lia. cbn [orb].
    now rewrite Hnone.
Qed.

Lemma U3_getLevelDimensionality_spec_witness :
  U3.getLevelDimensionality
    {| U3.xyz_ := U3.MkXYZ [0] [0] [0];
       U3.mult_ := ({[ (0, 0, 0) := 1 ]} : gmap U3.U3Weight Z) |} (0, 0, 0)
  = Done 1.
Proof.
  set (gen := {| U3.xyz_ := U3.MkXYZ [0] [0] [0];
                 U3.mult_ := ({[ (0, 0, 0) := 1 ]} : gmap U3.U3Weight Z) |}).
  assert (Hm : is_Some (U3.mult_ gen !! (0, 0, 0)))
    by (exists 1; vm_compute; reflexivity).
  rewrite (proj1 (proj2 (U3_getLevelDimensionality_spec gen 0 0 0))
             ltac:(lia) ltac:(lia) Hm).
  vm_compute. reflexivity.
Defined.

(** C3 as stated fails: after the enumeration for n = 0 of the row
    (0,0,0,0,1) the table is {(0,0,0) -> 1}; the label (1,0,0) is ordered
    but not a key, and [getLevelDimensionality] stops at its assertion
    instead of returning 0. *)
Lemma U3_absent_label_asserts :
  U3.generateU3Weights (Row 0 0 0 0 1) (U3.generateXYZ 0 U3.fresh)
  = Done {| U3.xyz_ := U3.MkXYZ [0] [0] [0]; U3.mult_ := {[ (0, 0, 0) := 1 ]} |} /\
  U3.getLevelDimensionality
    {| U3.xyz_ := U3.MkXYZ [0] [0] [0]; U3.mult_ := {[ (0, 0, 0) := 1 ]} |} (1, 0, 0)
  = Fail AssertionFailed /\
  U3.getLevelDimensionality
    {| U3.xyz_ := U3.MkXYZ [0] [0] [0]; U3.mult_ := {[ (0, 0, 0) := 1 ]} |} (1, 0, 0)
  <> Done 0.
Proof.
  split; [vm_compute; reflexivity|].
  split; [vm_compute; reflexivity | vm_compute; discriminate].
Qed.

(** ** C7: l = 1, the row (0,0,0,3,0) *)

(** C7, as the code has it.  With the table (-1, 0, 1) of l = 1, the row
    n4=0, n3=0, n2=0, n1=3, n0=0 yields the table with the single key 0,
    of multiplicity 1, whatever the object held before. *)
Theorem SO3_l1_three_ones (gen : SO3.UNtoSO3) :
  SO3.m_ (SO3.generateM 1 gen) = [-1; 0; 1] /\
  SO3.generateSO3Weights (Row 0 0 0 3 0) (SO3.generateM 1 gen)
  = Done {| SO3.m_ := [-1; 0; 1]; SO3.l_ := 1; SO3.mult_ := {[ 0 := 1 ]} |}.
Proof. split; vm_compute; reflexivity. Qed.

(** C7 as stated fails: none of -3, -1, 1, 3 is a key of the table, and 0
    is. *)
Lemma SO3_l1_three_ones_not_four_keys :
  exists M,
    SO3.mult_ <$> (match SO3.generateSO3Weights (Row 0 0 0 3 0)
                           (SO3.generateM 1 SO3.fresh) with
                   | Done gen => Some gen
                   | Fail _ => None
                   end) = Some M /\
    M !! (-3) = None /\ M !! (-1) = None /\ M !! 1 = None /\ M !! 3 = None /\
    M !! 0 = Some 1 /\
    M <> {[ -3 := 1; -1 := 1; 1 := 1; 3 := 1 ]}.
Proof.
  exists {[ 0 := 1 ]}. repeat split; try (vm_compute; reflexivity).
  intros E. apply (f_equal (fun M : gmap Z Z => M !! 3)) in E.
  vm_compute in E. discriminate.
Qed.

(** ** C5: what the enumerate operation checks *)

Section NonEmpty.

Context {Weight : Type} `{Countable Weight}.
Variable q : Z -> Outcome Weight.
Variable addmul : Weight -> Z -> Weight -> Weight.

Lemma increment_nonempty (w : Weight) (M : gmap Weight Z) : increment w M <> ∅.
Proof. unfold increment. apply insert_non_empty. Qed.

(** A run that returns has counted at least one weight. *)
Lemma while_loop_nonempty
    (call : GelfandRow -> Weight -> gmap Weight Z -> Outcome (gmap Weight Z))
    (iters : nat) (N : Z) (fr : Frame (gmap Weight Z)) (M' : gmap Weight Z) :
  while_loop q addmul call iters N fr = Done M' -> M' <> ∅.
Proof.
  revert N fr. induction iters as [|i IH]; intros N fr; cbn [while_loop];
    destruct (0 <? N).
  - discriminate.
  - destruct fr as [[a4 a3 a2 a1 a0] p M ds]. unfold base_case. cbn. unfold_bind.
    destruct (q 0); [|discriminate]. intros [= <-]. apply increment_nonempty.
  - unfold_bind. destruct (loop_body q addmul call N fr) as [fr'|]; [|discriminate].
    apply IH.
  - destruct fr as [[a4 a3 a2 a1 a0] p M ds]. unfold base_case. cbn. unfold_bind.
    destruct (q 0); [|discriminate]. intros [= <-]. apply increment_nonempty.
Qed.

Lemma generateWeightsRec_nonempty (depth : nat) (g : GelfandRow) (p : Weight)
    (M M' : gmap Weight Z) :
  generateWeightsRec q addmul depth g p M = Done M' -> M' <> ∅.
Proof.
  destruct depth as [|d]; cbn [generateWeightsRec]; [discriminate|].
  apply while_loop_nonempty.
Qed.

End NonEmpty.

(** C5, as the code has it.  Only the driver checks its input, and only the
    total: when n4+n3+n2+n1+n0 differs from 2l+1 (in [unsigned long]
    arithmetic) [main] throws [invalid_argument] before an enumerator
    exists.  The enumerate operations themselves check nothing: for every
    well-formed row whose total is at most the table length, whatever its
    counts and also when the total is not the table length, they return
    normally and leave a non-empty multiplicity table. *)
Theorem only_the_driver_validates :
  (forall l n4 n3 n2 n1 n0 : Z,
      n4 + n3 + n2 + n1 + n0 <> to_ulong (2 * l + 1) ->
      Driver.main l n4 n3 n2 n1 n0 = Fail InvalidArgument) /\
  (forall (l : Z) (g : GelfandRow) (gen : SO3.UNtoSO3),
      0 <= l -> row_ok g -> rowsum g <= 2 * l + 1 ->
      exists gen', SO3.generateSO3Weights g (SO3.generateM l gen) = Done gen' /\
                   SO3.mult_ gen' <> ∅) /\
  (forall (n : Z) (g : GelfandRow) (gen : U3.UNtoU3),
      0 <= n < INT_MAX -> row_ok g -> rowsum g <= (n + 1) * (n + 2) / 2 ->
      exists gen', U3.generateU3Weights g (U3.generateXYZ n gen) = Done gen' /\
                   U3.mult_ gen' <> ∅).
Proof.
  split; [|split].
  - intros l a4 a3 a2 a1 a0 Hne. unfold Driver.main.
    destruct (Z.eqb_spec (a4 + a3 + a2 + a1 + a0) (to_ulong (2 * l + 1))); [contradiction|].
    reflexivity.
  - intros l g gen Hl Hg Hsum.
    unfold SO3.generateSO3Weights, SO3.generateSO3WeightsRec.
    destruct (generateWeightsRec_Done (SO3.q (SO3.generateM l gen)) SO3.addmul
                (2 * l + 1) (SO3_q_inside l gen Hl)
                (S (Z.to_nat (rowsum g))) ltac:(lia) g Hg
                ltac:(unfold row_ok, rowsum in *; lia) ltac:(lia) 0 ∅)
      as [M' HM'].
    unfold_bind. rewrite HM'. eexists. split; [reflexivity|]. cbn [SO3.mult_].
    eapply generateWeightsRec_nonempty. exact HM'.
  - intros n g gen Hn Hg Hsum. unfold INT_MAX in Hn.
    unfold U3.generateU3Weights, U3.generateU3WeightsRec.
    assert (Hpos : 0 < (n + 1) * (n + 2) / 2) by (apply Z.div_str_pos; nia).
    destruct (generateWeightsRec_Done (U3.q (U3.generateXYZ n gen)) U3.addmul
                ((n + 1) * (n + 2) / 2) (U3_q_inside n gen ltac:(lia))
                (S (Z.to_nat (rowsum g))) Hpos g Hg
                ltac:(unfold row_ok, rowsum in *; lia) ltac:(lia) (0, 0, 0) ∅)
      as [M' HM'].
    unfold_bind. rewrite HM'. eexists. split; [reflexivity|]. cbn [U3.mult_].
    eapply generateWeightsRec_nonempty. exact HM'.
Qed.

Lemma only_the_driver_validates_witness :
  Driver.main 10 5 0 0 6 1 = Fail InvalidArgument /\
  (exists gen', SO3.generateSO3Weights (Row 0 0 0 5 0) (SO3.generateM 2 SO3.fresh)
                = Done gen' /\ SO3.mult_ gen' <> ∅).
Proof.
  split.
  - apply (proj1 only_the_driver_validates). vm_compute. discriminate.
  - apply (proj1 (proj2 only_the_driver_validates) 2 (Row 0 0 0 5 0) SO3.fresh);
      [lia | unfold row_ok, UINT16_MAX; cbn; lia | vm_compute; discriminate].
Defined.

(** C5 as stated fails.  With the table of l = 1 (length 3) the row
    (0,0,0,1,0) has the wrong total 1: [generateSO3Weights] reports nothing,
    and the table that held {0 -> 1} before now holds {-1 -> 1}.  With the
    table of l = 2 the row (0,0,0,5,0) has a count above 4 and is
    enumerated like any other row. *)
Lemma enumerate_accepts_invalid_input :
  rowsum (Row 0 0 0 1 0) <> 2 * 1 + 1 /\
  SO3.generateSO3Weights (Row 0 0 0 1 0)
    (SO3.generateM 1 {| SO3.m_ := []; SO3.l_ := 0; SO3.mult_ := {[ 0 := 1 ]} |})
  = Done {| SO3.m_ := [-1; 0; 1]; SO3.l_ := 1; SO3.mult_ := {[ -1 := 1 ]} |} /\
  SO3.generateSO3Weights (Row 0 0 0 5 0) (SO3.generateM 2 SO3.fresh)
  = Done {| SO3.m_ := [-2; -1; 0; 1; 2]; SO3.l_ := 2; SO3.mult_ := {[ 0 := 1 ]} |}.
Proof.
  split; [vm_compute; discriminate|].
  split; vm_compute; reflexivity.
Qed.

(** ** The tabulated distributions are those of the recursion *)

Section DistributionAlgebra.

Implicit Types D M : gmap Z Z.

Lemma lookup_dshift (k : Z) D (w : Z) : dshift k D !! w = D !! (w - k).
Proof.
  unfold dshift. replace w with (k + (w - k)) at 1 by lia.
  apply (lookup_kmap (Z.add k)).
Qed.

Lemma lookup_dplus D1 D2 (w : Z) :
  dplus D1 D2 !! w = union_with (fun a b => Some (a + b)) (D1 !! w) (D2 !! w).
Proof. unfold dplus. apply lookup_union_with. Qed.

Lemma lookup_dapply D M (w : Z) :
  dapply D M !! w =
  union_with (fun a b => Some (to_uint32 (a + b))) (M !! w) (to_uint32 <$> D !! w).
Proof. unfold dapply. rewrite lookup_union_with, lookup_fmap. reflexivity. Qed.

Lemma to_uint32_idem (a : Z) : to_uint32 (to_uint32 a) = to_uint32 a.
Proof. unfold to_uint32, wrap_unsigned. apply Z.mod_mod. discriminate. Qed.

Lemma to_uint32_add_r (a b : Z) : to_uint32 (a + to_uint32 b) = to_uint32 (a + b).
Proof. unfold to_uint32, wrap_unsigned. apply Zplus_mod_idemp_r. Qed.

(** [mult_[w] += 1] counts one pattern of weight [w]. *)
Lemma increment_dapply (w : Z) M : increment w M = dapply {[ w := 1 ]} M.
Proof.
  apply map_eq. intros w'. rewrite lookup_dapply. unfold increment.
  destruct (decide (w = w')) as [<-|Hne].
  - rewrite lookup_insert_eq, lookup_singleton_eq.
    destruct (M !! w) as [a|]; reflexivity.
  - rewrite lookup_insert_ne, lookup_singleton_ne by assumption.
    destruct (M !! w'); reflexivity.
Qed.

(** Counting two distributions one after the other counts their sum. *)
Lemma dapply_dapply D1 D2 M : dapply D2 (dapply D1 M) = dapply (dplus D1 D2) M.
Proof.
  apply map_eq. intros w. rewrite !lookup_dapply, lookup_dplus.
  destruct (M !! w) as [a|], (D1 !! w) as [b|], (D2 !! w) as [c|]; cbn;
    try reflexivity; f_equal.
  - rewrite to_uint32_add_l, to_uint32_add_r.
    replace (a + to_uint32 b + c) with (a + c + to_uint32 b) by ring.
    rewrite !to_uint32_add_r. f_equal. ring.
  - rewrite to_uint32_add_l, to_uint32_add_r. reflexivity.
Qed.

Lemma dshift_dplus (k : Z) D1 D2 :
  dshift k (dplus D1 D2) = dplus (dshift k D1) (dshift k D2).
Proof. unfold dshift, dplus. apply (kmap_union_with (Z.add k)). Qed.

Lemma dshift_dshift (p k : Z) D : dshift p (dshift k D) = dshift (p + k) D.
Proof.
  apply map_eq. intros w. rewrite !lookup_dshift. f_equal. lia.
Qed.

Lemma dshift_singleton (p w c : Z) : dshift p {[ w := c ]} = {[ p + w := c ]}.
Proof. unfold dshift. apply (kmap_singleton (Z.add p)). Qed.

Lemma dshift_empty (p : Z) : dshift p ∅ = ∅.
Proof. unfold dshift. apply (kmap_empty (Z.add p)). Qed.

Lemma dapply_empty M : dapply ∅ M = M.
Proof.
  apply map_eq. intros w. rewrite lookup_dapply, lookup_empty.
  destruct (M !! w); reflexivity.
Qed.

(** Counting the distributions of a list of successors, shifted by the
    partial weight each is entered with, counts their combination. *)
Lemma foldl_dapply (T : gmap GelfandRow (gmap Z Z)) (p x : Z)
    (succs : list (GelfandRow * Z)) (A M : gmap Z Z) :
  foldl (fun M b => dapply (dshift (p + snd b * x) (default ∅ (T !! fst b))) M)
        (dapply (dshift p A) M) succs
  = dapply (dshift p (foldl (fun a b => dplus a (dshift (snd b * x) (default ∅ (T !! fst b))))
                            A succs)) M.
Proof.
  revert A. induction succs as [|[r k] succs IH]; intros A; cbn [foldl fst snd].
  - reflexivity.
  - rewrite <- IH. f_equal.
    rewrite dapply_dapply, dshift_dplus, dshift_dshift. reflexivity.
Qed.

Lemma combine_successors_dapply (T : gmap GelfandRow (gmap Z Z)) (p x : Z)
    (succs : list (GelfandRow * Z)) (M : gmap Z Z) :
  dapply (dshift p (combine_successors T x succs)) M
  = foldl (fun M b => dapply (dshift (p + snd b * x) (default ∅ (T !! fst b))) M) M succs.
Proof.
  unfold combine_successors. rewrite <- foldl_dapply, dshift_empty, dapply_empty. reflexivity.
Qed.

End DistributionAlgebra.

Section GhostField.

Context {Weight : Type} `{Countable Weight}.
Variable q : Z -> Outcome Weight.
Variable addmul : Weight -> Z -> Weight -> Weight.

(** The ghost field [fired] does not influence a run. *)
Lemma while_loop_fired
    (call : GelfandRow -> Weight -> gmap Weight Z -> Outcome (gmap Weight Z))
    (iters : nat) (N : Z) (g : GelfandRow) (p : Weight) (M : gmap Weight Z)
    (ds ds' : list Group) :
  while_loop q addmul call iters N (MkFrame g p M ds)
  = while_loop q addmul call iters N (MkFrame g p M ds').
Proof.
  revert N g p M ds ds'. induction iters as [|i IH]; intros N g p M ds ds';
    cbn [while_loop]; destruct (0 <? N); try reflexivity.
  rewrite !loop_body_calls. cbn [gpr pp acc fired].
  destruct (iteration q addmul N g p) as [t|f]; [|reflexivity].
  unfold_bind. destruct (run_calls call (acc t) M) as [M1|f]; [|reflexivity].
  apply IH.
Qed.

End GhostField.

Section TableSound.

Variable gen : SO3.UNtoSO3.
Variable T : gmap GelfandRow (gmap Z Z).
Hypothesis HT : table_ok (SO3.m_ gen) T = true.

Lemma row_ok_b_true (g : GelfandRow) : row_ok_b g = true -> row_ok g.
Proof.
  unfold row_ok_b, row_ok. cbn [forallb].
  rewrite !andb_true_iff, !Z.leb_le. tauto.
Qed.

Lemma table_entry (g : GelfandRow) (D : gmap Z Z) :
  T !! g = Some D ->
  row_ok g /\ 1 <= rowsum g <= Z.of_nat (length (SO3.m_ gen)) /\
  (rowsum g <> 1 -> Forall (fun b => is_Some (T !! fst b)) (successors g)) /\
  row_distribution (SO3.m_ gen) T g = Some D.
Proof.
  intros Hg. unfold table_ok in HT. rewrite forallb_forall in HT.
  specialize (HT (g, D)). cbn [fst snd] in HT.
  assert (Hin : In (g, D) (map_to_list T))
    by (apply list_elem_of_In, elem_of_map_to_list; exact Hg).
  specialize (HT Hin). unfold entry_ok in HT.
  rewrite !andb_true_iff in HT. destruct HT as ((((Hok & H1) & Hlen) & Hsucc) & Hd).
  apply row_ok_b_true in Hok. apply Z.leb_le in H1, Hlen.
  apply bool_decide_eq_true in Hd.
  split; [assumption|]. split; [lia|]. split; [|assumption].
  intros Hne. apply orb_true_iff in Hsucc as [Hs|Hs].
  - apply Z.eqb_eq in Hs. contradiction.
  - rewrite forallb_forall in Hs. apply Forall_forall. intros b Hb.
    apply list_elem_of_In in Hb. specialize (Hs b Hb).
    now apply bool_decide_eq_true in Hs.
Qed.

Lemma drop_weight_SO3 (grp : Group) (p x : Z) :
  drop_weight SO3.addmul grp p x = p + label grp * x.
Proof. destruct grp; unfold drop_weight, SO3.addmul, label; lia. Qed.

Lemma run_calls_table (d : nat) (bound p x : Z) (bs : list (GelfandRow * Z)) :
  (forall r D, T !! r = Some D -> rowsum r < bound ->
     forall p M, SO3.generateSO3WeightsRec gen d r p M = Done (dapply (dshift p D) M)) ->
  Forall (fun b => is_Some (T !! fst b) /\ rowsum (fst b) < bound) bs ->
  forall M,
    run_calls (SO3.generateSO3WeightsRec gen d) (map (as_call SO3.addmul p x) bs) M
    = Done (foldl (fun M b => dapply (dshift (p + snd b * x) (default ∅ (T !! fst b))) M)
                  M bs).
Proof.
  intros IH. induction bs as [|[r k] bs IHbs]; intros Hbs M; cbn [map run_calls foldl].
  - reflexivity.
  - apply Forall_cons in Hbs as [[[D HD] Hr] Hbs]. cbn [fst snd] in *.
    unfold as_call at 1. cbn [fst snd]. unfold_bind.
    rewrite (IH r D HD Hr). rewrite HD. cbn [default from_option id].
    unfold SO3.addmul at 1. now apply IHbs.
Qed.

(** The entry of a row is the distribution the recursion counts from it. *)
Lemma table_sound (n : nat) :
  forall g D, rowsum g <= Z.of_nat n -> T !! g = Some D ->
  forall depth, rowsum g < Z.of_nat depth ->
  forall p M, SO3.generateSO3WeightsRec gen depth g p M = Done (dapply (dshift p D) M).
Proof.
  induction n as [|n IHn]; intros g D Hn Hg depth Hd p M;
    destruct (table_entry g D Hg) as (Hok & Hs & Hsucc & Hdist); [lia|].
  destruct depth as [|d]; [lia|].
  assert (Hsmall : rowsum g <= 5 * UINT16_MAX) by (unfold row_ok, rowsum in *; lia).
  unfold SO3.generateSO3WeightsRec. cbn [generateWeightsRec]. fold (rowsum g).
  rewrite to_size_t_small by (unfold UINT16_MAX in *; lia).
  unfold row_distribution in Hdist.
  destruct (Z.eqb_spec (rowsum g) 1) as [E1|E1].
  - rewrite E1. change (Z.to_nat (1 - 1)) with O. change (1 - 1) with 0.
    cbn [while_loop Z.ltb Z.compare].
    destruct g as [a4 a3 a2 a1 a0]. unfold base_case. cbn [gpr pp acc].
    unfold SO3.q, at_index. change (Z.to_nat 0) with O.
    destruct (SO3.m_ gen !! 0%nat) as [x|]; [|discriminate].
    cbn in Hdist. injection Hdist as <-. unfold_bind.
    rewrite dshift_singleton, increment_dapply. reflexivity.
  - set (N := rowsum g - 1) in *.
    destruct (SO3.m_ gen !! Z.to_nat N) as [x|] eqn:Ex; [|discriminate].
    cbn in Hdist. injection Hdist as <-.
    assert (Hq : SO3.q gen N = Done x) by (unfold SO3.q, at_index; now rewrite Ex).
    destruct (Z.to_nat N) as [|i] eqn:EN; [lia|].
    cbn [while_loop]. destruct (Z.ltb_spec 0 N); [|lia].
    rewrite loop_body_calls. cbn [gpr pp acc fired].
    rewrite (iteration_Done (SO3.q gen) SO3.addmul N g p x Hok Hq).
    cbn [gpr pp acc fired].
    destruct (lowest_group_Some g Hok ltac:(lia)) as (grp & Hgrp & _ & Hok' & Hsum').
    rewrite Hgrp. specialize (Hsucc E1). unfold successors in *. rewrite Hgrp in *.
    apply Forall_app in Hsucc as [Hbr Hcont].
    apply Forall_cons in Hcont as [[D' HD'] _]. cbn [fst] in HD'.
    rewrite (run_calls_table d (rowsum g) p x (branches g)).
    + unfold_bind.
      rewrite (while_loop_fired (SO3.q gen) SO3.addmul _ i (N - 1) _ _ _ _ []).
      assert (Hcont : SO3.generateSO3WeightsRec gen (S d) (drop_group grp g)
                        (drop_weight SO3.addmul grp p x)
                        (foldl (fun M b => dapply (dshift (p + snd b * x)
                                                     (default ∅ (T !! fst b))) M)
                               M (branches g))
                      = while_loop (SO3.q gen) SO3.addmul
                          (generateWeightsRec (SO3.q gen) SO3.addmul d) i (N - 1)
                          (MkFrame (drop_group grp g) (drop_weight SO3.addmul grp p x)
                             (foldl (fun M b => dapply (dshift (p + snd b * x)
                                                          (default ∅ (T !! fst b))) M)
                                    M (branches g)) [])).
      { unfold SO3.generateSO3WeightsRec. cbn [generateWeightsRec].
        fold (rowsum (drop_group grp g)). rewrite Hsum'.
        rewrite to_size_t_small by (unfold UINT16_MAX in *; lia).
        fold N. replace (Z.to_nat (N - 1)) with i by lia. reflexivity. }
      rewrite <- Hcont.
      rewrite (IHn (drop_group grp g) D' ltac:(lia) HD' (S d) ltac:(lia)).
      f_equal. rewrite combine_successors_dapply, foldl_app. cbn [foldl fst snd].
      rewrite HD'. cbn [default from_option id].
      rewrite drop_weight_SO3. reflexivity.
    + intros r D0 HD0 Hr p0 M0. apply (IHn r D0); [lia|assumption|lia].
    + pose proof (branches_smaller g Hok) as Hsm.
      apply Forall_forall. intros b Hb.
      rewrite Forall_forall in Hbr, Hsm. split; [now apply Hbr|].
      destruct (Hsm b Hb) as [_ Hlt]. exact Hlt.
Qed.

(** What [generateSO3Weights] leaves in the object, from the table. *)
Lemma generateSO3Weights_table (g : GelfandRow) (D : gmap Z Z) :
  T !! g = Some D ->
  SO3.generateSO3Weights g gen
  = Done {| SO3.m_ := SO3.m_ gen; SO3.l_ := SO3.l_ gen; SO3.mult_ := dapply D ∅ |}.
Proof.
  intros Hg. unfold SO3.generateSO3Weights.
  destruct (table_entry g D Hg) as (Hok & Hs & _).
  rewrite (table_sound (Z.to_nat (rowsum g)) g D ltac:(lia) Hg
             (S (Z.to_nat (rowsum g))) ltac:(lia)).
  unfold_bind. do 2 f_equal.
  replace (dshift 0 D) with D; [reflexivity|].
  apply map_eq. intros w. rewrite lookup_dshift. f_equal. lia.
Qed.

End TableSound.

(** ** C1: the dimension sum law *)

Lemma to_ulong_small (x : Z) : 0 <= x < 2 ^ 64 -> to_ulong x = x.
Proof. intros Hx. unfold to_ulong, wrap_unsigned. now apply Z.mod_small. Qed.

Lemma to_int_small (x : Z) : 0 <= x < 2 ^ 31 -> to_int x = x.
Proof.
  intros Hx. unfold to_int, wrap_signed.
  change (2 ^ (32 - 1)) with (2 ^ 31). rewrite Z.mod_small; lia.
Qed.

Lemma to_ulong_add_l (a b : Z) : to_ulong (to_ulong a + b) = to_ulong (a + b).
Proof. unfold to_ulong, wrap_unsigned. apply Zplus_mod_idemp_l. Qed.

Lemma SO3_getLevelDimensionality_fault (gen : SO3.UNtoSO3) (l : Z) (f : Fault) :
  SO3.getLevelDimensionality gen l = Fail f -> f = AssertionFailed.
Proof.
  unfold SO3.getLevelDimensionality.
  destruct (l <? 0); [discriminate|].
  destruct (SO3.mult_ gen !! l); [|now intros [= <-]].
  destruct (SO3.mult_ gen !! (l + 1)); discriminate.
Qed.

(** The order in which the driver's loop visits the entries of the
    [unordered_map] does not matter. *)
Lemma sum_irreps_Permutation (gen : SO3.UNtoSO3) (pairs pairs' : list (Z * Z)) :
  pairs ≡ₚ pairs' ->
  forall sum, Driver.sum_irreps gen pairs sum = Driver.sum_irreps gen pairs' sum.
Proof.
  induction 1 as [|[w c] l l' _ IH|[w c] [w' c'] l|l1 l2 l3 _ IH1 _ IH2]; intros sum.
  - reflexivity.
  - cbn [Driver.sum_irreps]. unfold_bind.
    destruct (SO3.getLevelDimensionality gen w); [apply IH|reflexivity].
  - cbn [Driver.sum_irreps]. unfold_bind.
    destruct (SO3.getLevelDimensionality gen w) as [d|f] eqn:E,
             (SO3.getLevelDimensionality gen w') as [d'|f'] eqn:E'; try reflexivity.
    + f_equal. destruct (d =? 0), (d' =? 0); try reflexivity.
      rewrite !to_ulong_add_l. f_equal. lia.
    + apply SO3_getLevelDimensionality_fault in E, E'. congruence.
  - now rewrite IH1.
Qed.

(** [all_rows s] lists every row of total [s]. *)
Lemma all_rows_complete (g : GelfandRow) :
  row_ok g -> g ∈ all_rows (rowsum g).
Proof.
  destruct g as [a b c d e]. unfold row_ok, rowsum, all_rows. cbn [n4 n3 n2 n1 n0].
  intros (Ha & Hb & Hc & Hd & He).
  apply list_elem_of_bind. exists a. split; [|apply elem_of_seqZ; lia].
  apply list_elem_of_bind. exists b. split; [|apply elem_of_seqZ; lia].
  apply list_elem_of_bind. exists c. split; [|apply elem_of_seqZ; lia].
  apply list_elem_of_bind. exists d. split; [|apply elem_of_seqZ; lia].
  apply list_elem_of_singleton. f_equal. lia.
Qed.

(** The driver's result on a valid input, from a checked table. *)
Lemma main_from_table (l : Z) (g : GelfandRow) (T : gmap GelfandRow (gmap Z Z))
    (D : gmap Z Z) :
  0 <= l < 2 ^ 31 -> rowsum g = 2 * l + 1 ->
  table_ok (quanta l) T = true -> T !! g = Some D ->
  Driver.main l (n4 g) (n3 g) (n2 g) (n1 g) (n0 g)
  = total_dim {| SO3.m_ := quanta l; SO3.l_ := to_int8 l; SO3.mult_ := dapply D ∅ |}.
Proof.
  intros Hl Hsum HT HD. unfold Driver.main. fold (rowsum g).
  rewrite to_ulong_small, to_int_small by lia.
  destruct (Z.eqb_spec (rowsum g) (2 * l + 1)) as [_|Hne]; [|contradiction]. cbn [negb].
  destruct g as [a b c d e]. cbn [n4 n3 n2 n1 n0].
  rewrite (generateSO3Weights_table (SO3.generateM l SO3.fresh) T HT _ D HD).
  reflexivity.
Qed.

Lemma outcome_eqb_true (a b : Outcome Z) :
  outcome_eqb a b = true -> exists d, a = Done d /\ b = Done d.
Proof.
  destruct a as [x|], b as [y|]; cbn; try discriminate.
  intros E. apply Z.eqb_eq in E. subst. eauto.
Qed.

Lemma law_from_check (l : Z) (g : GelfandRow) :
  0 <= l < 2 ^ 31 -> law_checked l = true ->
  row_ok g -> rowsum g = 2 * l + 1 ->
  exists d, Driver.main l (n4 g) (n3 g) (n2 g) (n1 g) (n0 g) = Done d /\
            Driver.dim_UN (Driver.irrep_of g) = Done d.
Proof.
  intros Hl Hc Hg Hsum. unfold law_checked in Hc. cbv zeta in Hc.
  apply andb_true_iff in Hc as [HT Hall].
  rewrite forallb_forall in Hall.
  specialize (Hall g). rewrite <- Hsum in Hall.
  specialize (Hall ltac:(apply list_elem_of_In, all_rows_complete, Hg)).
  unfold law_holds_in in Hall.
  destruct (tabulate_all l !! g) as [D|] eqn:ED; [|discriminate].
  rewrite (main_from_table l g (tabulate_all l) D Hl Hsum HT ED).
  now apply outcome_eqb_true.
Qed.

(** The small-space table is the table. *)
Lemma entries_known_true (e : entries) : entries_known e = true.
Proof. induction e as [|k v e IH]; cbn; [reflexivity|]. now rewrite !Z.eqb_refl, IH. Qed.

Lemma of_to_entries (l : list (Z * Z)) : of_entries (to_entries l) = list_to_map l.
Proof. induction l as [|[k v] l IH]; cbn; [reflexivity|]. now rewrite IH. Qed.

Lemma store_settled (g : GelfandRow) (D : gmap Z Z) (T : gmap GelfandRow (gmap Z Z)) :
  store g (to_entries (map_to_list D)) T = <[ g := D ]> T.
Proof. unfold store. now rewrite of_to_entries, list_to_map_to_list. Qed.

Lemma foldl_ext_all {A B : Type} (f f' : A -> B -> A) (l : list B) :
  (forall a b, f a b = f' a b) -> forall a, foldl f a l = foldl f' a l.
Proof. intros H. induction l as [|b l IH]; intros a; cbn; [reflexivity|]. now rewrite H, IH. Qed.

Lemma tabulate_settled_eq (fuel : nat) (m : list Z) :
  forall g T, tabulate_settled fuel m g T = tabulate fuel m g T.
Proof.
  induction fuel as [|f IH]; intros g T; cbn [tabulate_settled tabulate]; [reflexivity|].
  destruct (T !! g); [reflexivity|].
  rewrite (foldl_ext_all _ (fun T b => tabulate f m (fst b) T)) by (intros; apply IH).
  cbv zeta.
  destruct (row_distribution m _ g) as [D|]; [|reflexivity].
  now rewrite entries_known_true, store_settled.
Qed.

Lemma law_checked_settled_eq (l : Z) : law_checked_settled l = law_checked l.
Proof.
  unfold law_checked_settled, law_checked, tabulate_all_settled, tabulate_all.
  now rewrite (foldl_ext_all _ (fun T g => tabulate (Z.to_nat (2 * l + 2)) (quanta l) g T))
    by (intros; apply tabulate_settled_eq).
Qed.

Lemma law_checked_0 : law_checked 0 = true.
Proof. vm_cast_no_check (eq_refl true). Qed.

Lemma law_checked_1 : law_checked 1 = true.
Proof. vm_cast_no_check (eq_refl true). Qed.

Lemma law_checked_2 : law_checked 2 = true.
Proof. vm_cast_no_check (eq_refl true). Qed.

Lemma law_checked_3 : law_checked 3 = true.
Proof. rewrite <- law_checked_settled_eq. vm_cast_no_check (eq_refl true). Qed.

Lemma law_checked_4 : law_checked 4 = true.
Proof. rewrite <- law_checked_settled_eq. vm_cast_no_check (eq_refl true). Qed.

Lemma readme_table_ok : table_ok (quanta 10) readme_table = true.
Proof. vm_cast_no_check (eq_refl true). Qed.




(** ** The recursion with and without tail call elimination *)

Section NoTCE.

Context {Weight : Type} `{Countable Weight}.
Variable q : Z -> Outcome Weight.
Variable addmul : Weight -> Z -> Weight -> Weight.

(** The body without tail call elimination makes the calls of the loop
    body, and one more call on the row and partial weight that the loop
    body continues with when it has dropped a group in place. *)
Lemma body_noTCE_loop_body {S : Type} (call : GelfandRow -> Weight -> S -> Outcome S)
    (N : Z) (g : GelfandRow) (p : Weight) (a : S) :
  body_noTCE q addmul call N g p a =
  fr ← loop_body q addmul call N (MkFrame g p a []);
  match fired fr with
  | [] => Done (acc fr)
  | _ :: _ => call (gpr fr) (pp fr) (acc fr)
  end.
Proof.
  destruct g as [a4 a3 a2 a1 a0].
  unfold body_noTCE, block4_noTCE, block3_noTCE, block2_noTCE, block1_noTCE, block0_noTCE,
    loop_body, block4, block3, block2, block1, block0.
  cbn [gpr pp acc fired]. unfold mbind, outcome_bind.
  destruct (0 <? a4) eqn:E4, (0 <? a3) eqn:E3, (0 <? a2) eqn:E2,
           (0 <? a1) eqn:E1, (0 <? a0) eqn:E0;
    cbn; destruct (q N) as [x|f];
    repeat (progress (cbn; rewrite ?E4, ?E3, ?E2, ?E1, ?E0));
    try reflexivity;
    repeat (match goal with
            | |- context [call ?r ?w ?s] =>
                destruct (call r w s);
                repeat (progress (cbn; rewrite ?E4, ?E3, ?E2, ?E1, ?E0));
                try reflexivity
            end).
Qed.

(** What one iteration passes on, whatever the table read gives: calls on
    well-formed rows with one entry less, and a well-formed row to continue
    with, one entry less as well unless the row was empty. *)
Lemma iteration_frame (N : Z) (g : GelfandRow) (p : Weight)
    (t : Frame (list (GelfandRow * Weight))) :
  row_ok g -> rowsum g <= UINT16_MAX ->
  iteration q addmul N g p = Done t ->
  Forall (fun c => row_ok (fst c) /\ rowsum (fst c) = rowsum g - 1) (acc t) /\
  row_ok (gpr t) /\
  match fired t with
  | [] => rowsum g = 0 /\ gpr t = g /\ acc t = []
  | _ :: _ => rowsum (gpr t) = rowsum g - 1
  end.
Proof.
  destruct g as [a4 a3 a2 a1 a0]. unfold row_ok, rowsum, UINT16_MAX. cbn [n4 n3 n2 n1 n0].
  intros (R4 & R3 & R2 & R1 & R0) Hsum.
  unfold iteration, loop_body, block4, block3, block2, block1, block0, record_call.
  cbn [gpr pp acc fired]. unfold mbind, outcome_bind.
  destruct (0 <? a4) eqn:E4, (0 <? a3) eqn:E3, (0 <? a2) eqn:E2,
           (0 <? a1) eqn:E1, (0 <? a0) eqn:E0;
    cbn; destruct (q N) as [x|f];
    repeat (progress (cbn; rewrite ?E4, ?E3, ?E2, ?E1, ?E0));
    intros Ht; try discriminate; injection Ht as <-;
    cbn [gpr pp acc fired app];
    rewrite ?Z.ltb_lt, ?Z.ltb_ge in *;
    rewrite ?(GRT_small (a4 - 1)), ?(GRT_small (a3 - 1)), ?(GRT_small (a2 - 1)),
      ?(GRT_small (a1 - 1)), ?(GRT_small (a0 - 1)), ?(GRT_small (a3 + 1)),
      ?(GRT_small (a2 + 1)), ?(GRT_small (a1 + 1)) by (unfold UINT16_MAX; lia);
    (split; [repeat (apply Forall_cons; split;
                      [cbn [fst n4 n3 n2 n1 n0]; unfold UINT16_MAX; lia|]);
             apply Forall_nil; exact I|]);
    cbn [n4 n3 n2 n1 n0]; unfold UINT16_MAX;
    repeat split; try lia; f_equal; lia.
Qed.

Lemma run_calls_ext {S : Type} (call1 call2 : GelfandRow -> Weight -> S -> Outcome S)
    (cs : list (GelfandRow * Weight)) :
  Forall (fun c => forall a, call1 (fst c) (snd c) a = call2 (fst c) (snd c) a) cs ->
  forall a, run_calls call1 cs a = run_calls call2 cs a.
Proof.
  induction cs as [|[r w] cs IH]; intros Hcs a; cbn [run_calls]; [reflexivity|].
  apply Forall_cons in Hcs as [Hc Hcs]. cbn [fst snd] in Hc. rewrite Hc.
  unfold mbind, outcome_bind. destruct (call2 r w a); [now apply IH|reflexivity].
Qed.

(** The loop does not depend on what the calls do on rows it never passes. *)
Lemma while_loop_ext
    (call1 call2 : GelfandRow -> Weight -> gmap Weight Z -> Outcome (gmap Weight Z))
    (bound : Z) :
  (forall r, row_ok r -> rowsum r < bound ->
     forall w M, call1 r w M = call2 r w M) ->
  forall (iters : nat) (N : Z) (g : GelfandRow) (p : Weight) (M : gmap Weight Z)
         (ds : list Group),
    row_ok g -> rowsum g <= bound -> rowsum g <= UINT16_MAX ->
    while_loop q addmul call1 iters N (MkFrame g p M ds)
    = while_loop q addmul call2 iters N (MkFrame g p M ds).
Proof.
  intros Hcalls. induction iters as [|i IH]; intros N g p M ds Hg Hb Hs;
    cbn [while_loop]; destruct (0 <? N); try reflexivity.
  rewrite !loop_body_calls. cbn [gpr pp acc fired].
  destruct (iteration q addmul N g p) as [t|f] eqn:Et; [|reflexivity].
  destruct (iteration_frame N g p t Hg Hs Et) as (Hcs & Hok & Hfired).
  rewrite (run_calls_ext call1 call2 (acc t)).
  - unfold mbind, outcome_bind.
    destruct (run_calls call2 (acc t) M) as [M1|f]; [|reflexivity].
    apply IH; [assumption| |]; destruct (fired t); try lia;
      destruct Hfired as (_ & -> & _); lia.
  - eapply Forall_impl; [exact Hcs|]. intros [r w] [Hr Hsum] a. cbn [fst snd] in *.
    apply Hcalls; [assumption|lia].
Qed.

(** Any depth above the row sum gives the same run. *)
Lemma generateWeightsRec_depth (d d' : nat) :
  forall g, row_ok g -> rowsum g <= UINT16_MAX ->
  rowsum g < Z.of_nat d -> rowsum g < Z.of_nat d' ->
  forall p M, generateWeightsRec q addmul d g p M = generateWeightsRec q addmul d' g p M.
Proof.
  revert d'. induction d as [|d IHd]; intros d' g Hg Hs Hd Hd' p M.
  - unfold row_ok, rowsum in *. lia.
  - destruct d' as [|d']; [unfold row_ok, rowsum in *; lia|].
    cbn [generateWeightsRec].
    apply (while_loop_ext _ _ (rowsum g)); [|assumption|lia|assumption].
    intros r Hr Hlt w M0. apply IHd; [assumption|lia|lia|lia].
Qed.

(** On a row that is not empty and whose counts cannot wrap around, the
    recursion gives the same result with and without tail call elimination. *)
Lemma generateWeightsRec_noTCE_eq (d : nat) :
  forall g, row_ok g -> 1 <= rowsum g <= UINT16_MAX -> rowsum g < Z.of_nat d ->
  forall p M, generateWeightsRec_noTCE q addmul d g p M = generateWeightsRec q addmul d g p M.
Proof.
  induction d as [|d IHd]; intros g Hg Hs Hd p M; [lia|].
  cbn [generateWeightsRec_noTCE generateWeightsRec]. fold (rowsum g).
  rewrite to_size_t_small by (unfold UINT16_MAX in *; lia).
  set (N := rowsum g - 1).
  destruct (Z.ltb_spec 0 N) as [HN|HN].
  - destruct (Z.to_nat N) as [|i] eqn:EN; [lia|].
    cbn [while_loop]. destruct (Z.ltb_spec 0 N); [|lia].
    rewrite body_noTCE_loop_body, !loop_body_calls. cbn [gpr pp acc fired].
    destruct (iteration q addmul N g p) as [t|f] eqn:Et; [|reflexivity].
    destruct (iteration_frame N g p t Hg ltac:(lia) Et) as (Hcs & Hok & Hfired).
    rewrite (run_calls_ext (generateWeightsRec_noTCE q addmul d)
               (generateWeightsRec q addmul d) (acc t)).
    + unfold mbind, outcome_bind.
      destruct (run_calls (generateWeightsRec q addmul d) (acc t) M) as [M1|f];
        [|reflexivity].
      cbn [gpr pp acc fired app].
      destruct (fired t) as [|grp ds] eqn:Ef; [lia|].
      rewrite IHd by (try assumption; lia).
      rewrite (generateWeightsRec_depth d (Datatypes.S d)) by (try assumption; lia).
      cbn [generateWeightsRec]. fold (rowsum (gpr t)). rewrite Hfired.
      rewrite to_size_t_small by (unfold UINT16_MAX in *; lia).
      fold N. replace (Z.to_nat (N - 1)) with i by lia.
      apply while_loop_fired.
    + eapply Forall_impl; [exact Hcs|]. intros [r w] [Hr Hsum] a. cbn [fst snd] in *.
      apply IHd; [assumption|lia|lia].
  - assert (HN0 : N = 0) by lia. rewrite HN0. cbn [Z.to_nat while_loop Z.ltb Z.compare].
    reflexivity.
Qed.

(** One iteration when the table read fails: either the read is made, or
    the row has zeros only and one of them is dropped. *)
Lemma iteration_no_table (N : Z) (g : GelfandRow) (p : Weight) (f : Fault) :
  q N = Fail f -> row_ok g -> 0 < rowsum g ->
  iteration q addmul N g p = Fail f \/
  exists t, iteration q addmul N g p = Done t /\ acc t = [] /\ row_ok (gpr t) /\
            rowsum (gpr t) = rowsum g - 1.
Proof.
  destruct g as [a4 a3 a2 a1 a0]. unfold row_ok, rowsum, UINT16_MAX. cbn [n4 n3 n2 n1 n0].
  intros Hq (R4 & R3 & R2 & R1 & R0) Hsum.
  unfold iteration, loop_body, block4, block3, block2, block1, block0, record_call.
  cbn [gpr pp acc fired]. unfold mbind, outcome_bind. rewrite Hq.
  destruct (0 <? a4) eqn:E4, (0 <? a3) eqn:E3, (0 <? a2) eqn:E2,
           (0 <? a1) eqn:E1, (0 <? a0) eqn:E0;
    repeat (progress (cbn; rewrite ?E4, ?E3, ?E2, ?E1, ?E0));
    try (left; reflexivity);
    rewrite ?Z.ltb_lt, ?Z.ltb_ge in *; try lia.
  right. eexists. split; [reflexivity|]. cbn [gpr acc n4 n3 n2 n1 n0].
  rewrite GRT_small by (unfold UINT16_MAX; lia). unfold UINT16_MAX.
  repeat split; lia.
Qed.

(** Without a table every run ends with a read outside it. *)
Lemma while_loop_no_table
    (call : GelfandRow -> Weight -> gmap Weight Z -> Outcome (gmap Weight Z)) :
  (forall N, q N = Fail OutOfBounds) ->
  forall (iters : nat) (N : Z) (g : GelfandRow) (p : Weight) (M : gmap Weight Z)
         (ds : list Group),
    row_ok g -> N = rowsum g - 1 -> 0 <= N <= Z.of_nat iters ->
    while_loop q addmul call iters N (MkFrame g p M ds) = Fail OutOfBounds.
Proof.
  intros Hq. induction iters as [|i IH]; intros N g p M ds Hg HN Hi;
    cbn [while_loop]; destruct (Z.ltb_spec 0 N); try lia.
  - destruct g as [a4 a3 a2 a1 a0]. unfold base_case. cbn [gpr]. now rewrite Hq.
  - rewrite loop_body_calls. cbn [gpr pp acc fired].
    destruct (iteration_no_table N g p OutOfBounds (Hq N) Hg ltac:(lia))
      as [->|(t & -> & Hacc & Hok & Hsum)]; [reflexivity|].
    rewrite Hacc. cbn [run_calls]. unfold mbind, outcome_bind.
    apply IH; [assumption|lia|lia].
  - destruct g as [a4 a3 a2 a1 a0]. unfold base_case. cbn [gpr]. now rewrite Hq.
Qed.

Lemma generateWeightsRec_no_table (g : GelfandRow) (p : Weight) (M : gmap Weight Z) :
  (forall N, q N = Fail OutOfBounds) -> row_ok g ->
  generateWeightsRec q addmul (Datatypes.S (Z.to_nat (rowsum g))) g p M = Fail OutOfBounds.
Proof.
  intros Hq Hg. cbn [generateWeightsRec]. fold (rowsum g).
  destruct (Z.eq_dec (rowsum g) 0) as [E|E].
  - destruct (lowest_group_None g Hg E) as (_ & _ & ->).
    assert (HN : 0 <= to_size_t (rowsum (Row 0 0 0 0 0) - 1))
      by (apply Z.mod_pos_bound; reflexivity).
    revert HN. generalize (to_size_t (rowsum (Row 0 0 0 0 0) - 1)).
    intros N HN. rewrite while_loop_empty by (rewrite Z2Nat.id; lia).
    unfold base_case. cbn [gpr]. now rewrite Hq.
  - assert (Hpos : 0 < rowsum g) by (unfold row_ok, rowsum in *; lia).
    assert (Hsmall : rowsum g <= 5 * UINT16_MAX) by (unfold row_ok, rowsum in *; lia).
    rewrite to_size_t_small by (unfold UINT16_MAX in *; lia).
    apply while_loop_no_table; [assumption|assumption|reflexivity|lia].
Qed.

(** The empty row: the [while] form falls through to the base case, the
    [if] form does nothing. *)
Lemma generateWeightsRec_empty_row (p x : Weight) (M : gmap Weight Z) :
  q 0 = Done x ->
  generateWeightsRec q addmul 1 (Row 0 0 0 0 0) p M = Done (increment (addmul p 0 x) M).
Proof.
  intros Hq. cbn [generateWeightsRec n4 n3 n2 n1 n0].
  assert (HN : 0 <= to_size_t (0 + 0 + 0 + 0 + 0 - 1))
    by (apply Z.mod_pos_bound; reflexivity).
  revert HN. generalize (to_size_t (0 + 0 + 0 + 0 + 0 - 1)).
  intros N HN. rewrite while_loop_empty by (rewrite Z2Nat.id; lia).
  unfold base_case. cbn [gpr pp acc]. now rewrite Hq.
Qed.

Lemma generateWeightsRec_noTCE_empty_row (p : Weight) (M : gmap Weight Z) :
  generateWeightsRec_noTCE q addmul 1 (Row 0 0 0 0 0) p M = Done M.
Proof. reflexivity. Qed.

End NoTCE.

(** X1.  On every row that is not empty and has at most 65535 entries,
    [generateSO3Weights] and [generateU3Weights] leave the same object
    whether the headers are compiled with [*_DISABLE_TCE] or without it,
    faults included. *)
Theorem noTCE_same_result (g : GelfandRow) (so3 : SO3.UNtoSO3) (u3 : U3.UNtoU3) :
  row_ok g -> 1 <= rowsum g <= UINT16_MAX ->
  generateSO3Weights_noTCE g so3 = SO3.generateSO3Weights g so3 /\
  generateU3Weights_noTCE g u3 = U3.generateU3Weights g u3.
Proof.
  intros Hg Hs.
  unfold generateSO3Weights_noTCE, SO3.generateSO3Weights, SO3.generateSO3WeightsRec,
    generateU3Weights_noTCE, U3.generateU3Weights, U3.generateU3WeightsRec.
  assert (Hd : rowsum g < Z.of_nat (Datatypes.S (Z.to_nat (rowsum g)))) by lia.
  rewrite !generateWeightsRec_noTCE_eq by assumption. split; reflexivity.
Qed.

Lemma noTCE_same_result_witness :
  generateSO3Weights_noTCE (Row 0 1 1 1 0) (SO3.generateM 1 SO3.fresh)
    = SO3.generateSO3Weights (Row 0 1 1 1 0) (SO3.generateM 1 SO3.fresh) /\
  generateU3Weights_noTCE (Row 0 1 1 1 0) (U3.generateXYZ 1 U3.fresh)
    = U3.generateU3Weights (Row 0 1 1 1 0) (U3.generateXYZ 1 U3.fresh).
Proof.
  apply (noTCE_same_result (Row 0 1 1 1 0));
    [unfold row_ok, UINT16_MAX; cbn; lia | unfold rowsum, UINT16_MAX; cbn; lia].
Defined.

(** X2.  The empty row tells the two forms apart: on an object with a table
    of quanta, the [while] form runs through to the base case and counts one
    pattern of weight zero, the [if] form returns with nothing counted. *)
Theorem empty_row_counted_with_TCE_only (x l : Z) (rest : list Z) (M : gmap Z Z) :
  SO3.generateSO3Weights (Row 0 0 0 0 0)
    {| SO3.m_ := x :: rest; SO3.l_ := l; SO3.mult_ := M |}
  = Done {| SO3.m_ := x :: rest; SO3.l_ := l; SO3.mult_ := {[ 0 := 1 ]} |} /\
  generateSO3Weights_noTCE (Row 0 0 0 0 0)
    {| SO3.m_ := x :: rest; SO3.l_ := l; SO3.mult_ := M |}
  = Done {| SO3.m_ := x :: rest; SO3.l_ := l; SO3.mult_ := ∅ |}.
Proof.
  split; [|reflexivity].
  pose proof (generateWeightsRec_empty_row
                (SO3.q {| SO3.m_ := x :: rest; SO3.l_ := l; SO3.mult_ := M |})
                SO3.addmul 0 x ∅ eq_refl) as E.
  unfold SO3.generateSO3Weights, SO3.generateSO3WeightsRec.
  change (Datatypes.S (Z.to_nat (rowsum (Row 0 0 0 0 0)))) with 1%nat.
  unfold mbind, outcome_bind. rewrite E.
  unfold increment, SO3.addmul. cbn [SO3.m_ SO3.l_].
  rewrite lookup_empty. cbn [default from_option id]. rewrite insert_empty.
  reflexivity.
Qed.

(** X3.  [generateSO3Weights] on an object whose table of quanta is empty
    ([generateM] not called, or called with a negative [l]), and
    [generateU3Weights] on one whose [xyz_] is empty, read outside the table
    for every row: no run returns. *)
Theorem no_table_reads_outside (g : GelfandRow) (l : Z) (M : gmap Z Z)
    (M' : gmap U3.U3Weight Z) :
  row_ok g ->
  SO3.generateSO3Weights g {| SO3.m_ := []; SO3.l_ := l; SO3.mult_ := M |}
    = Fail OutOfBounds /\
  U3.generateU3Weights g {| U3.xyz_ := U3.MkXYZ [] [] []; U3.mult_ := M' |}
    = Fail OutOfBounds.
Proof.
  intros Hg. unfold SO3.generateSO3Weights, SO3.generateSO3WeightsRec,
    U3.generateU3Weights, U3.generateU3WeightsRec.
  rewrite !generateWeightsRec_no_table by (try assumption; intros N; reflexivity).
  split; reflexivity.
Qed.

Lemma no_table_reads_outside_witness :
  SO3.generateSO3Weights (Row 0 0 1 4 1) SO3.fresh = Fail OutOfBounds /\
  U3.generateU3Weights (Row 0 0 1 4 1) U3.fresh = Fail OutOfBounds.
Proof.
  apply (no_table_reads_outside (Row 0 0 1 4 1) 0 ∅ ∅).
  unfold row_ok, UINT16_MAX; cbn; lia.
Defined.

(** ** What the weights counted by a run have in common *)

Section CountedWeights.

Context {Weight : Type} `{Countable Weight}.
Variable q : Z -> Outcome Weight.
Variable addmul : Weight -> Z -> Weight -> Weight.

(** [Φ g p w]: [w] may be counted by a run entered with the row [g] and the
    partial weight [p]. *)
Variable Φ : GelfandRow -> Weight -> Weight -> Prop.

Hypothesis Φ_base : forall g p x,
  row_ok g -> rowsum g <= 1 -> q 0 = Done x ->
  Φ g p (addmul p (base_multiplier g) x).
Hypothesis Φ_call : forall g p x b w,
  row_ok g -> 2 <= rowsum g -> q (rowsum g - 1) = Done x ->
  b ∈ branches g -> Φ (fst b) (addmul p (snd b) x) w -> Φ g p w.
Hypothesis Φ_drop : forall g p x grp w,
  row_ok g -> 2 <= rowsum g -> q (rowsum g - 1) = Done x ->
  lowest_group g = Some grp ->
  Φ (drop_group grp g) (drop_weight addmul grp p x) w -> Φ g p w.
Hypothesis Φ_drop0 : forall g p w,
  row_ok g -> 2 <= rowsum g -> 0 < n0 g ->
  Φ (drop_group G0 g) p w -> Φ g p w.

Lemma increment_keys (w0 w : Weight) (M : gmap Weight Z) :
  is_Some (increment w0 M !! w) -> is_Some (M !! w) \/ w = w0.
Proof.
  unfold increment. destruct (decide (w0 = w)) as [->|Hne]; [now right|].
  rewrite lookup_insert_ne by assumption. now left.
Qed.

Lemma base_case_keys (g : GelfandRow) (p : Weight) (M M' : gmap Weight Z)
    (ds : list Group) :
  row_ok g -> rowsum g <= 1 ->
  base_case q addmul (MkFrame g p M ds) = Done M' ->
  forall w, is_Some (M' !! w) -> is_Some (M !! w) \/ Φ g p w.
Proof.
  intros Hg Hs Hb w Hw. destruct g as [a4 a3 a2 a1 a0].
  unfold base_case in Hb. cbn [gpr pp acc] in Hb. unfold mbind, outcome_bind in Hb.
  destruct (q 0) as [x|f] eqn:Hq; [|discriminate]. injection Hb as <-.
  apply increment_keys in Hw as [Hw| ->]; [now left|right].
  now apply (Φ_base (Row a4 a3 a2 a1 a0) p x).
Qed.

Lemma run_calls_keys (call : GelfandRow -> Weight -> gmap Weight Z -> Outcome (gmap Weight Z))
    (Ψ : Weight -> Prop) (cs : list (GelfandRow * Weight)) :
  Forall (fun c => forall M M', call (fst c) (snd c) M = Done M' ->
                   forall w, is_Some (M' !! w) -> is_Some (M !! w) \/ Ψ w) cs ->
  forall M M', run_calls call cs M = Done M' ->
  forall w, is_Some (M' !! w) -> is_Some (M !! w) \/ Ψ w.
Proof.
  induction cs as [|[r v] cs IH]; intros Hcs M M' Hrun w Hw; cbn [run_calls] in Hrun.
  - injection Hrun as <-. now left.
  - apply Forall_cons in Hcs as [Hc Hcs]. cbn [fst snd] in Hc.
    unfold mbind, outcome_bind in Hrun.
    destruct (call r v M) as [M1|f] eqn:E1; [|discriminate].
    destruct (IH Hcs M1 M' Hrun w Hw) as [Hw1|HΨ]; [|now right].
    exact (Hc M M1 E1 w Hw1).
Qed.

(** One iteration whose table read fails and that goes on all the same:
    the row has zeros only, and one of them is dropped. *)
Lemma iteration_zeros_only (N : Z) (g : GelfandRow) (p : Weight) (f : Fault)
    (t : Frame (list (GelfandRow * Weight))) :
  q N = Fail f -> row_ok g -> 0 < rowsum g ->
  iteration q addmul N g p = Done t ->
  acc t = [] /\ gpr t = drop_group G0 g /\ pp t = p /\ 0 < n0 g /\
  row_ok (drop_group G0 g) /\ rowsum (drop_group G0 g) = rowsum g - 1.
Proof.
  destruct g as [a4 a3 a2 a1 a0]. unfold row_ok, rowsum, UINT16_MAX. cbn [n4 n3 n2 n1 n0].
  intros Hq (R4 & R3 & R2 & R1 & R0) Hsum.
  unfold iteration, loop_body, block4, block3, block2, block1, block0, record_call.
  cbn [gpr pp acc fired]. unfold mbind, outcome_bind. rewrite Hq.
  destruct (0 <? a4) eqn:E4, (0 <? a3) eqn:E3, (0 <? a2) eqn:E2,
           (0 <? a1) eqn:E1, (0 <? a0) eqn:E0;
    repeat (progress (cbn; rewrite ?E4, ?E3, ?E2, ?E1, ?E0));
    intros Ht; try discriminate; injection Ht as <-;
    rewrite ?Z.ltb_lt, ?Z.ltb_ge in *; try lia.
  cbn [gpr acc pp n4 n3 n2 n1 n0 drop_group].
  rewrite GRT_small by (unfold UINT16_MAX; lia). unfold UINT16_MAX.
  repeat split; lia.
Qed.

Lemma while_loop_keys (d : nat) :
  (forall r, row_ok r -> forall p M M',
     generateWeightsRec q addmul d r p M = Done M' ->
     forall w, is_Some (M' !! w) -> is_Some (M !! w) \/ Φ r p w) ->
  forall (iters : nat) (N : Z) (g : GelfandRow) (p : Weight) (M M' : gmap Weight Z)
         (ds : list Group),
    row_ok g -> 1 <= rowsum g -> N = rowsum g - 1 ->
    while_loop q addmul (generateWeightsRec q addmul d) iters N (MkFrame g p M ds) = Done M' ->
    forall w, is_Some (M' !! w) -> is_Some (M !! w) \/ Φ g p w.
Proof.
  intros IHd. induction iters as [|i IH]; intros N g p M M' ds Hg Hs HN Hrun w Hw;
    cbn [while_loop] in Hrun; destruct (Z.ltb_spec 0 N); try discriminate;
    try (apply (base_case_keys g p M M' ds); (assumption || lia)).
  rewrite loop_body_calls in Hrun. cbn [gpr pp acc fired] in Hrun.
  destruct (iteration q addmul N g p) as [t|f] eqn:Et; [|discriminate].
  unfold mbind, outcome_bind in Hrun.
  destruct (run_calls (generateWeightsRec q addmul d) (acc t) M) as [M1|f] eqn:E1;
    [|discriminate].
  destruct (q N) as [x|f] eqn:Hq.
  - rewrite (iteration_Done q addmul N g p x Hg Hq) in Et. injection Et as <-.
    cbn [gpr pp acc fired] in *.
    destruct (lowest_group_Some g Hg ltac:(lia)) as (grp & Hgrp & _ & Hok & Hsum).
    rewrite Hgrp in Hrun.
    subst N.
    assert (H1 : 1 <= rowsum (drop_group grp g)) by lia.
    assert (H2 : rowsum g - 1 - 1 = rowsum (drop_group grp g) - 1) by lia.
    destruct (IH _ _ _ _ _ _ Hok H1 H2 Hrun w Hw) as [Hw1|HΦ].
    + assert (Hcs : Forall (fun c => forall M M',
                  generateWeightsRec q addmul d (fst c) (snd c) M = Done M' ->
                  forall w, is_Some (M' !! w) -> is_Some (M !! w) \/ Φ g p w)
                (map (as_call addmul p x) (branches g))).
      { apply Forall_map, Forall_forall. intros b Hb M0 M0' Hcall w0 Hw0.
        cbn [fst snd as_call] in Hcall.
        pose proof (branches_smaller g Hg) as Hsm. rewrite Forall_forall in Hsm.
        destruct (Hsm b Hb) as [Hr _].
        destruct (IHd (fst b) Hr _ _ _ Hcall w0 Hw0) as [?|HΦ]; [now left|right].
        apply (Φ_call g p x b w0 Hg ltac:(lia) Hq Hb HΦ). }
      destruct (run_calls_keys _ (Φ g p) _ Hcs M M1 E1 w Hw1) as [?|?];
        [now left|now right].
    + right. apply (Φ_drop g p x grp w Hg ltac:(lia) Hq Hgrp HΦ).
  - destruct (iteration_zeros_only N g p f t Hq Hg ltac:(lia) Et)
      as (Hacc & Hgpr & Hpp & Hn0 & Hok & Hsum).
    rewrite Hacc in E1. cbn [run_calls] in E1. injection E1 as <-.
    rewrite Hgpr, Hpp in Hrun.
    assert (H1 : 1 <= rowsum (drop_group G0 g)) by lia.
    assert (H2 : N - 1 = rowsum (drop_group G0 g) - 1) by lia.
    destruct (IH _ _ _ _ _ _ Hok H1 H2 Hrun w Hw) as [?|HΦ];
      [now left|right].
    apply (Φ_drop0 g p w Hg ltac:(lia) Hn0 HΦ).
Qed.

(** Every weight that a run adds to the table is one that [Φ] allows. *)
Lemma generateWeightsRec_keys (depth : nat) :
  forall g, row_ok g -> forall p M M',
  generateWeightsRec q addmul depth g p M = Done M' ->
  forall w, is_Some (M' !! w) -> is_Some (M !! w) \/ Φ g p w.
Proof.
  induction depth as [|d IHd]; intros g Hg p M M' Hrun w Hw; [discriminate|].
  cbn [generateWeightsRec] in Hrun. fold (rowsum g) in Hrun.
  destruct (Z.eq_dec (rowsum g) 0) as [E|E].
  - destruct (lowest_group_None g Hg E) as (_ & _ & ->).
    assert (HN : 0 <= to_size_t (rowsum (Row 0 0 0 0 0) - 1))
      by (apply Z.mod_pos_bound; reflexivity).
    revert HN Hrun. generalize (to_size_t (rowsum (Row 0 0 0 0 0) - 1)).
    intros N HN Hrun. rewrite while_loop_empty in Hrun by (rewrite Z2Nat.id; lia).
    apply (base_case_keys (Row 0 0 0 0 0) p M M' []); try assumption.
    unfold rowsum; cbn; lia.
  - assert (Hpos : 0 < rowsum g) by (unfold row_ok, rowsum in *; lia).
    assert (Hsmall : rowsum g <= 5 * UINT16_MAX) by (unfold row_ok, rowsum in *; lia).
    rewrite to_size_t_small in Hrun by (unfold UINT16_MAX in *; lia).
    apply (while_loop_keys d IHd _ _ g p M M' [] Hg ltac:(lia) eq_refl Hrun w Hw).
Qed.

End CountedWeights.

(** ** The label total of a row and the multipliers of the calls *)

(** Every call is entered with [pp + k * q[N]], where [k] is at most the
    amount by which the label total [4*n4 + 3*n3 + 2*n2 + n1] goes down. *)
Lemma branches_multiplier (g : GelfandRow) :
  row_ok g ->
  Forall (fun b => 0 <= snd b /\ 0 <= base_multiplier (fst b) /\
                   base_multiplier (fst b) + snd b <= base_multiplier g) (branches g).
Proof.
  destruct g as [a4 a3 a2 a1 a0]. unfold row_ok, rowsum, UINT16_MAX, base_multiplier.
  cbn [n4 n3 n2 n1 n0]. intros (R4 & R3 & R2 & R1 & R0).
  unfold branches, branches4, branches3, branches2, branches1.
  destruct (0 <? a4) eqn:E4, (0 <? a3) eqn:E3, (0 <? a2) eqn:E2,
           (0 <? a1) eqn:E1, (0 <? a0) eqn:E0;
    cbn [andb orb app];
    rewrite ?Z.ltb_lt, ?Z.ltb_ge in *;
    repeat (apply Forall_cons; split;
            [cbn [fst snd n4 n3 n2 n1 n0]; unfold UINT16_MAX in *; GRT_facts;
             unfold UINT16_MAX in *; lia|]);
    apply Forall_nil; exact I.
Qed.

(** When no count can wrap around, it is exactly that amount, and the row
    passed has one entry less. *)
Lemma branches_multiplier_exact (g : GelfandRow) :
  row_ok g -> rowsum g <= UINT16_MAX ->
  Forall (fun b => 0 <= snd b /\ rowsum (fst b) = rowsum g - 1 /\
                   base_multiplier (fst b) + snd b = base_multiplier g) (branches g).
Proof.
  destruct g as [a4 a3 a2 a1 a0]. unfold row_ok, rowsum, UINT16_MAX, base_multiplier.
  cbn [n4 n3 n2 n1 n0]. intros (R4 & R3 & R2 & R1 & R0) Hs.
  unfold branches, branches4, branches3, branches2, branches1.
  destruct (0 <? a4) eqn:E4, (0 <? a3) eqn:E3, (0 <? a2) eqn:E2,
           (0 <? a1) eqn:E1, (0 <? a0) eqn:E0;
    cbn [andb orb app];
    rewrite ?Z.ltb_lt, ?Z.ltb_ge in *;
    rewrite ?(GRT_small (a4 - 1)), ?(GRT_small (a3 - 1)), ?(GRT_small (a2 - 1)),
      ?(GRT_small (a1 - 1)), ?(GRT_small (a0 - 1)), ?(GRT_small (a3 + 1)),
      ?(GRT_small (a2 + 1)), ?(GRT_small (a1 + 1)) by (unfold UINT16_MAX; lia);
    repeat (apply Forall_cons; split; [cbn [fst snd n4 n3 n2 n1 n0]; lia|]);
    apply Forall_nil; exact I.
Qed.

Lemma drop_group_multiplier (g : GelfandRow) (grp : Group) :
  row_ok g -> lowest_group g = Some grp ->
  0 <= base_multiplier (drop_group grp g) /\
  base_multiplier (drop_group grp g) + label grp = base_multiplier g.
Proof.
  destruct g as [a4 a3 a2 a1 a0]. unfold row_ok, UINT16_MAX, base_multiplier, lowest_group.
  cbn [n4 n3 n2 n1 n0]. intros (R4 & R3 & R2 & R1 & R0).
  destruct (Z.ltb_spec 0 a0); [intros [= <-]; cbn; lia|].
  destruct (Z.ltb_spec 0 a1); [intros [= <-]; cbn; lia|].
  destruct (Z.ltb_spec 0 a2); [intros [= <-]; cbn; lia|].
  destruct (Z.ltb_spec 0 a3); [intros [= <-]; cbn; lia|].
  destruct (Z.ltb_spec 0 a4); [intros [= <-]; cbn; lia|].
  discriminate.
Qed.

(** ** SO(3): every counted weight is within l times the label total *)

Section SO3Bound.

Variable gen : SO3.UNtoSO3.
Variable B : Z.
Hypothesis quanta_bounded : Forall (fun x => - B <= x <= B) (SO3.m_ gen).

Lemma SO3_q_bounded (N x : Z) : SO3.q gen N = Done x -> - B <= x <= B.
Proof.
  unfold SO3.q, at_index. destruct (SO3.m_ gen !! Z.to_nat N) as [y|] eqn:E; [|discriminate].
  intros [= <-]. rewrite Forall_forall in quanta_bounded.
  apply quanta_bounded. eapply list_elem_of_lookup_2. exact E.
Qed.

Lemma SO3_weights_within (depth : nat) (g : GelfandRow) (p : Z) (M M' : gmap Z Z) :
  row_ok g ->
  SO3.generateSO3WeightsRec gen depth g p M = Done M' ->
  forall w, is_Some (M' !! w) ->
  is_Some (M !! w) \/ - (B * base_multiplier g) <= w - p <= B * base_multiplier g.
Proof.
  intros Hg Hrun.
  apply (generateWeightsRec_keys (SO3.q gen) SO3.addmul
           (fun g p w => - (B * base_multiplier g) <= w - p <= B * base_multiplier g))
    with (depth := depth); try assumption.
  - intros g0 p0 x Hg0 _ Hq. apply SO3_q_bounded in Hq. unfold SO3.addmul.
    assert (0 <= base_multiplier g0)
      by (unfold row_ok, base_multiplier in *; lia).
    nia.
  - intros g0 p0 x b w Hg0 _ Hq Hb Hw. apply SO3_q_bounded in Hq.
    pose proof (branches_multiplier g0 Hg0) as Hm. rewrite Forall_forall in Hm.
    destruct (Hm b Hb) as (Hk & Hr & Hle). unfold SO3.addmul in Hw. nia.
  - intros g0 p0 x grp w Hg0 _ Hq Hgrp Hw. apply SO3_q_bounded in Hq.
    destruct (drop_group_multiplier g0 grp Hg0 Hgrp) as [Hr He].
    rewrite drop_weight_SO3 in Hw.
    assert (0 <= label grp) by (destruct grp; cbn; lia). nia.
  - intros g0 p0 w Hg0 _ Hn0 Hw.
    assert (Hgrp : lowest_group g0 = Some G0).
    { unfold lowest_group. destruct (Z.ltb_spec 0 (n0 g0)); [reflexivity|lia]. }
    destruct (drop_group_multiplier g0 G0 Hg0 Hgrp) as [Hr He]. cbn [label] in He.
    assert (0 <= B \/ B < 0) as [HB|HB] by lia; nia.
Qed.

End SO3Bound.

Lemma to_int8_small (x : Z) : - 128 <= x <= 127 -> to_int8 x = x.
Proof.
  intros Hx. unfold to_int8, wrap_signed. change (2 ^ (8 - 1)) with 128.
  change (2 ^ 8) with 256. rewrite Z.mod_small by lia. lia.
Qed.

Lemma generateM_bounded (l : Z) (gen : SO3.UNtoSO3) :
  0 <= l <= 127 -> Forall (fun x => - l <= x <= l) (SO3.m_ (SO3.generateM l gen)).
Proof.
  intros Hl. rewrite generateM_table by lia. apply Forall_fmap, Forall_forall.
  intros x Hx. apply elem_of_seqZ in Hx. cbn. rewrite to_int8_small by lia. lia.
Qed.

(** ** U(3): every counted weight holds n quanta per particle *)

Lemma canonical_order_nonneg (n : Z) :
  Forall (fun t => 0 <= triple_NZ t /\ 0 <= triple_NX t /\ 0 <= triple_NY t)
         (canonical_order n).
Proof.
  unfold canonical_order. apply Forall_forall. intros [[z x] y] Hin.
  apply list_elem_of_bind in Hin as (k & Hin & Hk).
  apply list_elem_of_bind in Hin as (nx & Hin & Hnx).
  apply list_elem_of_singleton in Hin. injection Hin as -> -> ->.
  apply elem_of_seqZ in Hk. apply elem_of_reverse, elem_of_seqZ in Hnx.
  unfold triple_NZ, triple_NX, triple_NY. cbn. lia.
Qed.

Lemma U3_q_quanta (n : Z) (gen : U3.UNtoU3) (N z x y : Z) :
  0 <= n < 2 ^ 32 ->
  U3.q (U3.generateXYZ n gen) N = Done (z, x, y) ->
  0 <= z /\ 0 <= x /\ 0 <= y /\ z + x + y = n.
Proof.
  intros Hn. unfold U3.q. rewrite generateXYZ_table by assumption.
  unfold append_triples. cbn [U3.xyz_NZ U3.xyz_NX U3.xyz_NY app].
  unfold at_index. rewrite !list_lookup_fmap.
  destruct (canonical_order n !! Z.to_nat N) as [t|] eqn:E; [|discriminate].
  cbn. intros [= <- <- <-].
  pose proof (canonical_order_sum n) as Hs. pose proof (canonical_order_nonneg n) as Hp.
  rewrite Forall_forall in Hs, Hp.
  apply list_elem_of_lookup_2 in E. specialize (Hs t E). specialize (Hp t E). lia.
Qed.

Section U3Quanta.

Variable n : Z.
Variable gen : U3.UNtoU3.
Hypothesis Hn : 0 <= n < 2 ^ 32.

Lemma holds_quanta_step (g r : GelfandRow) (p x w : U3.U3Weight) (k : Z) :
  U3.q (U3.generateXYZ n gen) (rowsum g - 1) = Done x ->
  0 <= k -> 0 <= base_multiplier r ->
  (rowsum g <= UINT16_MAX -> rowsum r <= UINT16_MAX /\
                              base_multiplier r + k = base_multiplier g) ->
  holds_quanta n r (U3.addmul p k x) w -> holds_quanta n g p w.
Proof.
  destruct x as [[x0 x1] x2], p as [[p0 p1] p2].
  intros Hq Hk Hr Hstep Hw Hs. destruct (Hstep Hs) as [Hs' He].
  destruct (Hw Hs') as (c0 & c1 & c2 & H0 & H1 & H2 & Hsum & ->).
  destruct (U3_q_quanta n gen _ _ _ _ Hn Hq) as (Hx0 & Hx1 & Hx2 & Hx).
  exists (k * x0 + c0), (k * x1 + c1), (k * x2 + c2).
  cbn [U3.addmul fst snd]. rewrite !to_uint32_add_l.
  repeat split; try nia. f_equal; [f_equal|]; f_equal; lia.
Qed.

Lemma U3_weights_hold_quanta (depth : nat) (g : GelfandRow) (p : U3.U3Weight)
    (M M' : gmap U3.U3Weight Z) :
  row_ok g ->
  U3.generateU3WeightsRec (U3.generateXYZ n gen) depth g p M = Done M' ->
  forall w, is_Some (M' !! w) -> is_Some (M !! w) \/ holds_quanta n g p w.
Proof.
  intros Hg Hrun.
  apply (generateWeightsRec_keys (U3.q (U3.generateXYZ n gen)) U3.addmul (holds_quanta n))
    with (depth := depth); try assumption.
  - intros g0 [[p0 p1] p2] [[x0 x1] x2] Hg0 _ Hq _.
    destruct (U3_q_quanta n gen _ _ _ _ Hn Hq) as (Hx0 & Hx1 & Hx2 & Hx).
    assert (0 <= base_multiplier g0) by (unfold row_ok, base_multiplier in *; lia).
    exists (base_multiplier g0 * x0), (base_multiplier g0 * x1), (base_multiplier g0 * x2).
    cbn [U3.addmul fst snd]. repeat split; nia.
  - intros g0 p0 x b w Hg0 _ Hq Hb Hw.
    pose proof (branches_multiplier g0 Hg0) as Hm. rewrite Forall_forall in Hm.
    destruct (Hm b Hb) as (Hk & Hr & _).
    apply (holds_quanta_step g0 (fst b) p0 x w (snd b) Hq Hk Hr); [|assumption].
    intros Hs. pose proof (branches_multiplier_exact g0 Hg0 Hs) as Hx.
    rewrite Forall_forall in Hx. destruct (Hx b Hb) as (_ & Hsum & He). split; lia.
  - intros g0 p0 x grp w Hg0 Hs2 Hq Hgrp Hw.
    destruct (drop_group_multiplier g0 grp Hg0 Hgrp) as [Hr He].
    destruct (lowest_group_Some g0 Hg0 ltac:(lia))
      as (grp' & Hgrp' & _ & _ & Hsum).
    rewrite Hgrp in Hgrp'. injection Hgrp' as <-.
    assert (Hcases : grp = G0 \/
              drop_weight U3.addmul grp p0 x = U3.addmul p0 (label grp) x)
      by (destruct grp; auto).
    destruct Hcases as [->|Hdw].
    + cbn [drop_weight] in Hw. cbn [label] in He. intros Hs.
      destruct (Hw ltac:(lia)) as (c0 & c1 & c2 & H0 & H1 & H2 & Hc & ->).
      exists c0, c1, c2. repeat split; try assumption; try nia.
    + rewrite Hdw in Hw.
      apply (holds_quanta_step g0 (drop_group grp g0) p0 x w (label grp) Hq);
        [destruct grp; cbn; lia|assumption| |assumption].
      intros Hs. split; lia.
  - intros g0 p0 w Hg0 Hs2 Hn0 Hw.
    assert (Hgrp : lowest_group g0 = Some G0).
    { unfold lowest_group. destruct (Z.ltb_spec 0 (n0 g0)); [reflexivity|lia]. }
    destruct (drop_group_multiplier g0 G0 Hg0 Hgrp) as [Hr He]. cbn [label] in He.
    destruct (lowest_group_Some g0 Hg0 ltac:(lia))
      as (grp' & Hgrp' & _ & _ & Hsum).
    rewrite Hgrp in Hgrp'. injection Hgrp' as <-.
    intros Hs. destruct (Hw ltac:(lia)) as (c0 & c1 & c2 & H0 & H1 & H2 & Hc & ->).
    exists c0, c1, c2. repeat split; try assumption; try nia.
Qed.

End U3Quanta.

(** X4.  After [generateM(l)] with 0 <= l <= 127, every weight that
    [generateSO3Weights] leaves in [mult_] lies between -l*A and l*A, where
    A = 4*n4 + 3*n3 + 2*n2 + n1 is the label total of the row: with A at most
    4 * 5 * 65535 the weights, sums of [int] products, stay far inside
    [int32_t]. *)
Theorem SO3_weights_bounded (l : Z) (g : GelfandRow) (gen gen' : SO3.UNtoSO3) (w : Z) :
  0 <= l <= 127 -> row_ok g ->
  SO3.generateSO3Weights g (SO3.generateM l gen) = Done gen' ->
  is_Some (SO3.mult_ gen' !! w) ->
  - (l * (4 * n4 g + 3 * n3 g + 2 * n2 g + n1 g)) <= w
    <= l * (4 * n4 g + 3 * n3 g + 2 * n2 g + n1 g) /\
  - 2 ^ 31 < w < 2 ^ 31.
Proof.
  intros Hl Hg Hrun Hw. unfold SO3.generateSO3Weights in Hrun.
  unfold mbind, outcome_bind in Hrun.
  destruct (SO3.generateSO3WeightsRec _ _ g 0 ∅) as [M|f] eqn:E; [|discriminate].
  injection Hrun as <-. cbn [SO3.mult_] in Hw.
  destruct (SO3_weights_within _ l (generateM_bounded l gen Hl) _ g 0 ∅ M Hg E w Hw)
    as [Hin|Hb].
  - rewrite lookup_empty in Hin. now destruct Hin.
  - fold (base_multiplier g).
    assert (0 <= base_multiplier g <= 20 * UINT16_MAX)
      by (unfold row_ok, base_multiplier in *; lia).
    unfold UINT16_MAX in *. split; [lia|nia].
Qed.

Lemma SO3_weights_bounded_witness :
  exists gen', SO3.generateSO3Weights (Row 0 0 1 1 1) (SO3.generateM 1 SO3.fresh) = Done gen' /\
    is_Some (SO3.mult_ gen' !! 2) /\
    (- (1 * (4 * 0 + 3 * 0 + 2 * 1 + 1)) <= 2 <= 1 * (4 * 0 + 3 * 0 + 2 * 1 + 1) /\
     - 2 ^ 31 < 2 < 2 ^ 31).
Proof.
  eexists. split; [vm_compute; reflexivity|].
  assert (Hw : is_Some (({[ -2 := 1; -1 := 2; 0 := 2; 1 := 2; 2 := 1 ]} : gmap Z Z) !! 2))
    by (vm_compute; eexists; reflexivity).
  split; [vm_compute; eexists; reflexivity|].
  apply (SO3_weights_bounded 1 (Row 0 0 1 1 1) SO3.fresh
           {| SO3.m_ := [-1; 0; 1]; SO3.l_ := 1;
              SO3.mult_ := {[ -2 := 1; -1 := 2; 0 := 2; 1 := 2; 2 := 1 ]} |} 2);
    [lia | unfold row_ok, UINT16_MAX; cbn; lia | vm_compute; reflexivity | exact Hw].
Defined.

(** X5.  After [generateXYZ(n)], every U(3) weight (f1, f2, f3) that
    [generateU3Weights] leaves in [mult_] for a row of at most 65535 entries
    has f1 + f2 + f3 = n * A, where A = 4*n4 + 3*n3 + 2*n2 + n1 is the label
    total of the row (the number of particles), as long as n * A fits in
    [uint32_t]. *)
Theorem U3_weights_hold_n_quanta_per_particle (n : Z) (g : GelfandRow)
    (gen gen' : U3.UNtoU3) (f1 f2 f3 : Z) :
  0 <= n <= INT_MAX -> row_ok g -> rowsum g <= UINT16_MAX ->
  n * (4 * n4 g + 3 * n3 g + 2 * n2 g + n1 g) < 2 ^ 32 ->
  U3.generateU3Weights g (U3.generateXYZ n gen) = Done gen' ->
  is_Some (U3.mult_ gen' !! (f1, f2, f3)) ->
  0 <= f1 /\ 0 <= f2 /\ 0 <= f3 /\
  f1 + f2 + f3 = n * (4 * n4 g + 3 * n3 g + 2 * n2 g + n1 g).
Proof.
  intros Hn Hg Hs Hfit Hrun Hw. unfold U3.generateU3Weights in Hrun.
  unfold mbind, outcome_bind in Hrun.
  destruct (U3.generateU3WeightsRec _ _ g (0, 0, 0) ∅) as [M|f] eqn:E; [|discriminate].
  injection Hrun as <-. cbn [U3.mult_] in Hw.
  assert (Hn' : 0 <= n < 2 ^ 32) by (unfold INT_MAX in Hn; lia).
  destruct (U3_weights_hold_quanta n gen Hn' _ g (0, 0, 0) ∅ M Hg E _ Hw) as [Hin|Hq].
  - rewrite lookup_empty in Hin. now destruct Hin.
  - destruct (Hq Hs) as (c0 & c1 & c2 & H0 & H1 & H2 & Hsum & Heq).
    fold (base_multiplier g) in *. cbn [fst snd] in Heq.
    injection Heq as -> -> ->.
    rewrite !to_uint32_small by lia. lia.
Qed.

Lemma U3_weights_hold_n_quanta_per_particle_witness :
  exists gen', U3.generateU3Weights (Row 0 0 1 1 1) (U3.generateXYZ 1 U3.fresh) = Done gen' /\
    is_Some (U3.mult_ gen' !! (1, 1, 1)) /\
    (0 <= 1 /\ 0 <= 1 /\ 0 <= 1 /\ 1 + 1 + 1 = 1 * (4 * 0 + 3 * 0 + 2 * 1 + 1)).
Proof.
  set (gen' := match U3.generateU3Weights (Row 0 0 1 1 1) (U3.generateXYZ 1 U3.fresh) with
               | Done x => x
               | Fail _ => U3.fresh
               end).
  assert (Hrun : U3.generateU3Weights (Row 0 0 1 1 1) (U3.generateXYZ 1 U3.fresh)
                 = Done gen') by (vm_compute; reflexivity).
  assert (Hw : is_Some (U3.mult_ gen' !! (1, 1, 1))) by (vm_compute; eexists; reflexivity).
  exists gen'. split; [exact Hrun|]. split; [exact Hw|].
  apply (U3_weights_hold_n_quanta_per_particle 1 (Row 0 0 1 1 1) U3.fresh gen' 1 1 1);
    [unfold INT_MAX; lia | unfold row_ok, UINT16_MAX; cbn; lia
    | unfold rowsum, UINT16_MAX; cbn; lia | cbn; lia | exact Hrun | exact Hw].
Defined.

(** X6.  A run of [generateSO3Weights] or [generateU3Weights] that returns
    has counted at least one weight: [mult_] is never left empty, whatever
    the row and the table of quanta. *)
Theorem returned_table_not_empty (g : GelfandRow) (so3 so3' : SO3.UNtoSO3)
    (u3 u3' : U3.UNtoU3) :
  (SO3.generateSO3Weights g so3 = Done so3' -> SO3.mult_ so3' <> ∅) /\
  (U3.generateU3Weights g u3 = Done u3' -> U3.mult_ u3' <> ∅).
Proof.
  split; intros Hrun.
  - unfold SO3.generateSO3Weights, mbind, outcome_bind in Hrun.
    destruct (SO3.generateSO3WeightsRec _ _ g 0 ∅) as [M|f] eqn:E; [|discriminate].
    injection Hrun as <-. cbn [SO3.mult_].
    exact (generateWeightsRec_nonempty _ _ _ _ _ _ _ E).
  - unfold U3.generateU3Weights, mbind, outcome_bind in Hrun.
    destruct (U3.generateU3WeightsRec _ _ g (0, 0, 0) ∅) as [M|f] eqn:E; [|discriminate].
    injection Hrun as <-. cbn [U3.mult_].
    exact (generateWeightsRec_nonempty _ _ _ _ _ _ _ E).
Qed.

(** ** A run counts a list of weights that does not depend on the table *)

Section Leaves.

Context {Weight : Type} `{Countable Weight}.

Lemma occurrences_nil (w : Weight) : occurrences w [] = 0.
Proof. reflexivity. Qed.

Lemma occurrences_cons (w w' : Weight) (ws : list Weight) :
  occurrences w (w' :: ws) = (if decide (w' = w) then 1 else 0) + occurrences w ws.
Proof.
  unfold occurrences. rewrite filter_cons.
  destruct (decide (w' = w)); cbn [length]; lia.
Qed.

Lemma occurrences_nonneg (w : Weight) (ws : list Weight) : 0 <= occurrences w ws.
Proof. unfold occurrences. lia. Qed.

Lemma occurrences_app (w : Weight) (ws ws' : list Weight) :
  occurrences w (ws ++ ws') = occurrences w ws + occurrences w ws'.
Proof. unfold occurrences. rewrite filter_app, length_app. lia. Qed.

(** The table after counting a list of weights. *)
Lemma lookup_increments (ws : list Weight) (M : gmap Weight Z) (w : Weight) :
  increments ws M !! w =
  if decide (occurrences w ws = 0) then M !! w
  else Some (to_uint32 (default 0 (M !! w) + occurrences w ws)).
Proof.
  revert M. induction ws as [|w' ws IH]; intros M; [reflexivity|].
  cbn [increments foldl]. fold (increments ws (increment w' M)).
  rewrite IH, occurrences_cons. pose proof (occurrences_nonneg w ws) as Hc.
  unfold increment. destruct (decide (w' = w)) as [->|Hne].
  - rewrite lookup_insert_eq. cbn [default from_option id].
    destruct (decide (occurrences w ws = 0)) as [E|E];
      destruct (decide (1 + occurrences w ws = 0)) as [E'|E']; try lia; f_equal.
    + rewrite E. reflexivity.
    + rewrite to_uint32_add_l. f_equal. lia.
  - rewrite lookup_insert_ne by assumption. rewrite Z.add_0_l. reflexivity.
Qed.

(** The table after merging a list of entries with distinct keys. *)
Lemma lookup_merge_entries (l : list (Weight * Z)) (M : gmap Weight Z) (w : Weight) :
  NoDup (fst <$> l) ->
  merge_entries l M !! w =
  match (list_to_map l : gmap Weight Z) !! w with
  | Some v => Some (to_uint32 (default 0 (M !! w) + v))
  | None => M !! w
  end.
Proof.
  revert M. induction l as [|[k v] l IH]; intros M Hnd; [reflexivity|].
  cbn [fmap list_fmap fst] in Hnd. apply NoDup_cons in Hnd as [Hk Hnd].
  cbn [merge_entries foldl fst snd].
  fold (merge_entries l (<[k := to_uint32 (default 0 (M !! k) + v)]> M)).
  rewrite IH by assumption. cbn [list_to_map foldr fst snd].
  destruct (decide (k = w)) as [->|Hne].
  - rewrite lookup_insert_eq.
    rewrite (not_elem_of_list_to_map_1 (M := gmap Weight) l w Hk).
    rewrite lookup_insert_eq. reflexivity.
  - rewrite !lookup_insert_ne by assumption. reflexivity.
Qed.

(** Merging the table of a list of weights counts the list. *)
Lemma merge_increments (ws : list Weight) (l : list (Weight * Z)) (M : gmap Weight Z) :
  l ≡ₚ map_to_list (increments ws ∅) ->
  merge_entries l M = increments ws M.
Proof.
  intros Hl. apply map_eq. intros w.
  assert (Hnd : NoDup (fst <$> l)).
  { rewrite Hl. apply NoDup_fst_map_to_list. }
  rewrite lookup_merge_entries by assumption.
  rewrite (list_to_map_proper (M := gmap Weight) l (map_to_list (increments ws ∅)) Hnd Hl).
  rewrite list_to_map_to_list, !lookup_increments, lookup_empty.
  destruct (decide (occurrences w ws = 0)); [reflexivity|].
  cbn [default from_option id]. rewrite Z.add_0_l, to_uint32_add_r. reflexivity.
Qed.

(** Counting two lists one after the other, in either order. *)
Lemma increments_comm (ws ws' : list Weight) (M : gmap Weight Z) :
  increments ws' (increments ws M) = increments ws (increments ws' M).
Proof.
  apply map_eq. intros w. rewrite !lookup_increments.
  pose proof (occurrences_nonneg w ws). pose proof (occurrences_nonneg w ws').
  destruct (decide (occurrences w ws = 0)) as [E|E],
           (decide (occurrences w ws' = 0)) as [E'|E']; try reflexivity.
  cbn [default from_option id]. rewrite !to_uint32_add_l. do 2 f_equal. lia.
Qed.

Lemma increments_app (ws ws' : list Weight) (M : gmap Weight Z) :
  increments (ws ++ ws') M = increments ws' (increments ws M).
Proof. unfold increments. apply foldl_app. Qed.

Variable q : Z -> Outcome Weight.
Variable addmul : Weight -> Z -> Weight -> Weight.

Lemma run_calls_counts (call : GelfandRow -> Weight -> gmap Weight Z -> Outcome (gmap Weight Z))
    (cs : list (GelfandRow * Weight)) :
  (forall r w, counts_a_list (call r w)) -> counts_a_list (run_calls call cs).
Proof.
  intros Hcall. induction cs as [|[r w] cs IH].
  - right. exists []. reflexivity.
  - cbn [run_calls]. unfold mbind, outcome_bind.
    destruct (Hcall r w) as [[f Hf]|[ws Hws]].
    + left. exists f. intros M. now rewrite Hf.
    + destruct IH as [[f Hf]|[ws' Hws']].
      * left. exists f. intros M. now rewrite Hws, Hf.
      * right. exists (ws ++ ws'). intros M. now rewrite Hws, Hws', increments_app.
Qed.

Lemma while_loop_counts (call : GelfandRow -> Weight -> gmap Weight Z -> Outcome (gmap Weight Z)) :
  (forall r w, counts_a_list (call r w)) ->
  forall (iters : nat) (N : Z) (g : GelfandRow) (p : Weight) (ds : list Group),
    counts_a_list (fun M => while_loop q addmul call iters N (MkFrame g p M ds)).
Proof.
  intros Hcall. induction iters as [|i IH]; intros N g p ds; cbn [while_loop];
    destruct (0 <? N).
  - left. now exists OutOfFuel.
  - destruct g as [a4 a3 a2 a1 a0]. unfold base_case. cbn [gpr pp acc].
    unfold mbind, outcome_bind. destruct (q 0) as [x|f].
    + right. eexists [_]. reflexivity.
    + left. now exists f.
  - destruct (iteration q addmul N g p) as [t|f] eqn:Et.
    + destruct (run_calls_counts call (acc t) Hcall) as [[f Hf]|[ws Hws]].
      * left. exists f. intros M. rewrite loop_body_calls. cbn [gpr pp acc fired].
        rewrite Et. unfold mbind, outcome_bind. now rewrite Hf.
      * destruct (IH (N - 1) (gpr t) (pp t) (ds ++ fired t)) as [[f Hf]|[ws' Hws']].
        -- left. exists f. intros M. rewrite loop_body_calls. cbn [gpr pp acc fired].
           rewrite Et. unfold mbind, outcome_bind. now rewrite Hws, Hf.
        -- right. exists (ws ++ ws'). intros M. rewrite loop_body_calls.
           cbn [gpr pp acc fired]. rewrite Et. unfold mbind, outcome_bind.
           now rewrite Hws, Hws', increments_app.
    + left. exists f. intros M. rewrite loop_body_calls. cbn [gpr pp acc fired].
      now rewrite Et.
  - destruct g as [a4 a3 a2 a1 a0]. unfold base_case. cbn [gpr pp acc].
    unfold mbind, outcome_bind. destruct (q 0) as [x|f].
    + right. eexists [_]. reflexivity.
    + left. now exists f.
Qed.

Lemma generateWeightsRec_counts (depth : nat) (g : GelfandRow) (p : Weight) :
  counts_a_list (generateWeightsRec q addmul depth g p).
Proof.
  revert g p. induction depth as [|d IHd]; intros g p.
  - left. now exists OutOfFuel.
  - cbn [generateWeightsRec]. apply while_loop_counts. exact IHd.
Qed.

(** A run into an empty table, merged into [M] afterwards, is the run on
    [M]. *)
Lemma generateWeightsRec_merge (depth : nat) (g : GelfandRow) (p : Weight)
    (tl M : gmap Weight Z) (l : list (Weight * Z)) :
  generateWeightsRec q addmul depth g p ∅ = Done tl ->
  l ≡ₚ map_to_list tl ->
  generateWeightsRec q addmul depth g p M = Done (merge_entries l M).
Proof.
  intros Hrun Hl. destruct (generateWeightsRec_counts depth g p) as [[f Hf]|[ws Hws]].
  - rewrite Hf in Hrun. discriminate.
  - rewrite Hws in Hrun. injection Hrun as <-. rewrite Hws. f_equal.
    symmetry. now apply merge_increments.
Qed.

(** Two runs one after the other, in either order. *)
Lemma generateWeightsRec_comm (d d' : nat) (g g' : GelfandRow) (p p' : Weight)
    (M : gmap Weight Z) :
  (M1 ← generateWeightsRec q addmul d g p M; generateWeightsRec q addmul d' g' p' M1)
  = match generateWeightsRec q addmul d g p M with
    | Done _ => M2 ← generateWeightsRec q addmul d' g' p' M;
                generateWeightsRec q addmul d g p M2
    | Fail f => Fail f
    end.
Proof.
  unfold mbind, outcome_bind.
  destruct (generateWeightsRec_counts d g p) as [[f Hf]|[ws Hws]],
           (generateWeightsRec_counts d' g' p') as [[f' Hf']|[ws' Hws']];
    rewrite ?Hf, ?Hws, ?Hf', ?Hws', ?Hf, ?Hws; try reflexivity.
  now rewrite increments_comm.
Qed.

End Leaves.

(** ** SO(3): the partial weight only translates the weights *)

Section Translation.

Variable gen : SO3.UNtoSO3.

Lemma SO3_q_in_table (N : Z) :
  0 <= N < Z.of_nat (length (SO3.m_ gen)) -> exists x, SO3.q gen N = Done x.
Proof. intros HN. unfold SO3.q. now apply at_index_Done. Qed.

Lemma occurrences_shift (p w : Z) (ws : list Z) :
  occurrences w (Z.add p <$> ws) = occurrences (w - p) ws.
Proof.
  induction ws as [|w' ws IH]; [reflexivity|].
  cbn [fmap list_fmap]. rewrite !occurrences_cons. fold (fmap (Z.add p) ws). rewrite IH.
  destruct (decide (p + w' = w)), (decide (w' = w - p)); lia.
Qed.

Lemma run_calls_translates (call : GelfandRow -> Z -> gmap Z Z -> Outcome (gmap Z Z))
    (x : Z) (bs : list (GelfandRow * Z)) :
  Forall (fun b => exists ws, forall p M,
            call (fst b) p M = Done (increments (Z.add p <$> ws) M)) bs ->
  exists ws, forall p M, run_calls call (map (as_call SO3.addmul p x) bs) M
                         = Done (increments (Z.add p <$> ws) M).
Proof.
  induction bs as [|[r k] bs IH]; intros Hbs.
  - exists []. reflexivity.
  - apply Forall_cons in Hbs as [[ws Hws] Hbs]. destruct (IH Hbs) as [ws' Hws'].
    cbn [fst] in Hws.
    exists ((Z.add (k * x) <$> ws) ++ ws'). intros p M.
    cbn [map run_calls as_call fst snd]. unfold mbind, outcome_bind.
    rewrite Hws, Hws', fmap_app, increments_app. do 3 f_equal.
    rewrite <- list_fmap_compose. apply list_fmap_ext. intros _ w _. cbn.
    unfold SO3.addmul. lia.
Qed.

Lemma while_loop_translates (d : nat) :
  (forall g, row_ok g -> rowsum g < Z.of_nat d ->
     rowsum g <= Z.of_nat (length (SO3.m_ gen)) ->
     exists ws, forall p M,
       SO3.generateSO3WeightsRec gen d g p M = Done (increments (Z.add p <$> ws) M)) ->
  0 < Z.of_nat (length (SO3.m_ gen)) ->
  forall (iters : nat) (N : Z) (g : GelfandRow),
    row_ok g -> N = rowsum g - 1 -> 0 <= N <= Z.of_nat iters ->
    rowsum g <= Z.of_nat d -> rowsum g <= Z.of_nat (length (SO3.m_ gen)) ->
    exists ws, forall p M ds,
      while_loop (SO3.q gen) SO3.addmul (SO3.generateSO3WeightsRec gen d) iters N
        (MkFrame g p M ds) = Done (increments (Z.add p <$> ws) M).
Proof.
  intros IHd Hlen. induction iters as [|i IH]; intros N g Hg HN Hi Hd Hl;
    cbn [while_loop]; destruct (Z.ltb_spec 0 N); try lia.
  - destruct (SO3_q_in_table 0 ltac:(lia)) as [x Hx].
    exists [base_multiplier g * x]. intros p M ds. destruct g as [a4 a3 a2 a1 a0].
    unfold base_case. cbn [gpr pp acc]. unfold mbind, outcome_bind. now rewrite Hx.
  - destruct (SO3_q_in_table N ltac:(lia)) as [x Hx].
    destruct (lowest_group_Some g Hg ltac:(lia)) as (grp & Hgrp & _ & Hok & Hsum).
    destruct (run_calls_translates (SO3.generateSO3WeightsRec gen d) x (branches g))
      as [ws Hws].
    { eapply Forall_impl; [apply (branches_smaller g Hg)|].
      intros [r k] [Hr Hs]. cbn [fst] in *. apply IHd; [assumption|lia|lia]. }
    destruct (IH (N - 1) (drop_group grp g) Hok ltac:(lia) ltac:(lia) ltac:(lia)
                ltac:(lia)) as [ws' Hws'].
    exists (ws ++ (Z.add (label grp * x) <$> ws')). intros p M ds.
    rewrite loop_body_calls. cbn [gpr pp acc fired].
    rewrite (iteration_Done _ _ N g p x Hg Hx). cbn [gpr pp acc fired].
    unfold mbind, outcome_bind. rewrite Hgrp.
    unfold SO3.generateSO3WeightsRec in Hws. rewrite Hws, Hws'.
    rewrite fmap_app, increments_app. do 2 f_equal.
    rewrite <- list_fmap_compose. apply list_fmap_ext. intros _ w _. cbn.
    rewrite drop_weight_SO3. lia.
  - destruct (SO3_q_in_table 0 ltac:(lia)) as [x Hx].
    exists [base_multiplier g * x]. intros p M ds. destruct g as [a4 a3 a2 a1 a0].
    unfold base_case. cbn [gpr pp acc]. unfold mbind, outcome_bind. now rewrite Hx.
Qed.

(** On a row no longer than the table, a run started with the partial
    weight [p] counts the weights of the run started with 0, each plus [p]. *)
Lemma generateSO3WeightsRec_translates (depth : nat) :
  0 < Z.of_nat (length (SO3.m_ gen)) ->
  forall g, row_ok g -> rowsum g < Z.of_nat depth ->
  rowsum g <= Z.of_nat (length (SO3.m_ gen)) ->
  exists ws, forall p M,
    SO3.generateSO3WeightsRec gen depth g p M = Done (increments (Z.add p <$> ws) M).
Proof.
  intros Hlen. induction depth as [|d IHd]; intros g Hg Hd Hl.
  - unfold row_ok, rowsum in *. lia.
  - unfold SO3.generateSO3WeightsRec. cbn [generateWeightsRec]. fold (rowsum g).
    destruct (Z.eq_dec (rowsum g) 0) as [E|E].
    + destruct (lowest_group_None g Hg E) as (_ & _ & ->).
      destruct (SO3_q_in_table 0 ltac:(lia)) as [x Hx].
      exists [0 * x]. intros p M.
      assert (HN : 0 <= to_size_t (rowsum (Row 0 0 0 0 0) - 1))
        by (apply Z.mod_pos_bound; reflexivity).
      revert HN. generalize (to_size_t (rowsum (Row 0 0 0 0 0) - 1)).
      intros N HN. rewrite while_loop_empty by (rewrite Z2Nat.id; lia).
      unfold base_case. cbn [gpr pp acc]. unfold mbind, outcome_bind. now rewrite Hx.
    + assert (Hpos : 0 < rowsum g) by (unfold row_ok, rowsum in *; lia).
      assert (Hsmall : rowsum g <= 5 * UINT16_MAX) by (unfold row_ok, rowsum in *; lia).
      rewrite to_size_t_small by (unfold UINT16_MAX in *; lia).
      destruct (while_loop_translates d IHd Hlen (Z.to_nat (rowsum g - 1)) (rowsum g - 1) g
                  Hg eq_refl ltac:(lia) ltac:(lia) Hl) as [ws Hws].
      exists ws. intros p M. apply Hws.
Qed.

End Translation.

Lemma returned_table_not_empty_witness :
  (exists so3', SO3.generateSO3Weights (Row 0 0 1 1 1) (SO3.generateM 1 SO3.fresh) = Done so3' /\
                SO3.mult_ so3' <> ∅) /\
  (exists u3', U3.generateU3Weights (Row 0 0 1 1 1) (U3.generateXYZ 1 U3.fresh) = Done u3' /\
               U3.mult_ u3' <> ∅).
Proof.
  set (so3' := match SO3.generateSO3Weights (Row 0 0 1 1 1) (SO3.generateM 1 SO3.fresh) with
               | Done x => x
               | Fail _ => SO3.fresh
               end).
  set (u3' := match U3.generateU3Weights (Row 0 0 1 1 1) (U3.generateXYZ 1 U3.fresh) with
              | Done x => x
              | Fail _ => U3.fresh
              end).
  assert (H1 : SO3.generateSO3Weights (Row 0 0 1 1 1) (SO3.generateM 1 SO3.fresh) = Done so3')
    by (vm_compute; reflexivity).
  assert (H2 : U3.generateU3Weights (Row 0 0 1 1 1) (U3.generateXYZ 1 U3.fresh) = Done u3')
    by (vm_compute; reflexivity).
  split.
  - exists so3'. split; [exact H1|].
    exact (proj1 (returned_table_not_empty (Row 0 0 1 1 1) (SO3.generateM 1 SO3.fresh) so3'
                    (U3.generateXYZ 1 U3.fresh) u3') H1).
  - exists u3'. split; [exact H2|].
    exact (proj2 (returned_table_not_empty (Row 0 0 1 1 1) (SO3.generateM 1 SO3.fresh) so3'
                    (U3.generateXYZ 1 U3.fresh) u3') H2).
Defined.

(** X7.  The merge of a thread-local table.  When the recursion, run on an
    empty table, leaves the table [tl], then run on any table [mult] it
    leaves what the loop [mult_[temp.first] += temp.second] over the
    entries of [tl] makes of [mult], whatever the order in which the map
    yields its entries; for [UNtoSO3] and for [UNtoU3]. *)
Theorem merge_is_direct_count :
  (forall (gen : SO3.UNtoSO3) (depth : nat) (g : GelfandRow) (p : Z)
          (tl mult : gmap Z Z) (entries : list (Z * Z)),
      SO3.generateSO3WeightsRec gen depth g p ∅ = Done tl ->
      entries ≡ₚ map_to_list tl ->
      SO3.generateSO3WeightsRec gen depth g p mult = Done (merge_entries entries mult)) /\
  (forall (gen : U3.UNtoU3) (depth : nat) (g : GelfandRow) (p : U3.U3Weight)
          (tl mult : gmap U3.U3Weight Z) (entries : list (U3.U3Weight * Z)),
      U3.generateU3WeightsRec gen depth g p ∅ = Done tl ->
      entries ≡ₚ map_to_list tl ->
      U3.generateU3WeightsRec gen depth g p mult = Done (merge_entries entries mult)).
Proof.
  split; intros gen depth g p tl mult entries Hrun Hl.
  - exact (generateWeightsRec_merge _ _ depth g p tl mult entries Hrun Hl).
  - exact (generateWeightsRec_merge _ _ depth g p tl mult entries Hrun Hl).
Qed.

Lemma merge_is_direct_count_witness :
  SO3.generateSO3WeightsRec (SO3.generateM 1 SO3.fresh) 4 (Row 0 0 1 1 1) 0 {[ 2 := 7 ]}
  = Done (merge_entries (map_to_list ({[ -2 := 1; -1 := 2; 0 := 2; 1 := 2; 2 := 1 ]} : gmap Z Z))
                        {[ 2 := 7 ]}).
Proof.
  apply (proj1 merge_is_direct_count (SO3.generateM 1 SO3.fresh) 4%nat (Row 0 0 1 1 1) 0
           {[ -2 := 1; -1 := 2; 0 := 2; 1 := 2; 2 := 1 ]});
    [vm_compute; reflexivity | reflexivity].
Defined.

(** X8.  Two recursive calls made one after the other leave the same table
    when they are made in the other order, for [UNtoSO3] and for [UNtoU3]:
    the order in which the calls of an iteration are executed does not
    matter to the result. *)
Theorem calls_commute :
  (forall (gen : SO3.UNtoSO3) (d d' : nat) (g g' : GelfandRow) (p p' : Z)
          (M M1 M12 : gmap Z Z),
      SO3.generateSO3WeightsRec gen d g p M = Done M1 ->
      SO3.generateSO3WeightsRec gen d' g' p' M1 = Done M12 ->
      exists M2, SO3.generateSO3WeightsRec gen d' g' p' M = Done M2 /\
                 SO3.generateSO3WeightsRec gen d g p M2 = Done M12) /\
  (forall (gen : U3.UNtoU3) (d d' : nat) (g g' : GelfandRow) (p p' : U3.U3Weight)
          (M M1 M12 : gmap U3.U3Weight Z),
      U3.generateU3WeightsRec gen d g p M = Done M1 ->
      U3.generateU3WeightsRec gen d' g' p' M1 = Done M12 ->
      exists M2, U3.generateU3WeightsRec gen d' g' p' M = Done M2 /\
                 U3.generateU3WeightsRec gen d g p M2 = Done M12).
Proof.
  split; intros gen d d' g g' p p' M M1 M12 H1 H2.
  - pose proof (generateWeightsRec_comm (SO3.q gen) SO3.addmul d d' g g' p p' M) as Hc.
    unfold SO3.generateSO3WeightsRec in *. unfold mbind, outcome_bind in Hc.
    rewrite H1, H2 in Hc.
    destruct (generateWeightsRec (SO3.q gen) SO3.addmul d' g' p' M) as [M2|f];
      [|discriminate].
    exists M2. split; [reflexivity|now symmetry].
  - pose proof (generateWeightsRec_comm (U3.q gen) U3.addmul d d' g g' p p' M) as Hc.
    unfold U3.generateU3WeightsRec in *. unfold mbind, outcome_bind in Hc.
    rewrite H1, H2 in Hc.
    destruct (generateWeightsRec (U3.q gen) U3.addmul d' g' p' M) as [M2|f];
      [|discriminate].
    exists M2. split; [reflexivity|now symmetry].
Qed.

Lemma calls_commute_witness :
  exists M2,
    SO3.generateSO3WeightsRec (SO3.generateM 1 SO3.fresh) 3 (Row 0 0 0 1 1) 0 ∅ = Done M2 /\
    SO3.generateSO3WeightsRec (SO3.generateM 1 SO3.fresh) 3 (Row 0 0 1 0 1) 1 M2
    = Done {[ -1 := 2; 0 := 2; 1 := 1 ]}.
Proof.
  apply (proj1 calls_commute (SO3.generateM 1 SO3.fresh) 3%nat 3%nat (Row 0 0 1 0 1)
           (Row 0 0 0 1 1) 1 0 ∅ {[ -1 := 1; 0 := 1; 1 := 1 ]});
    vm_compute; reflexivity.
Defined.

(** X9.  In [generateSO3WeightsRec] the partial weight only translates the
    result: on a row no longer than the table of quanta, the table left by
    a run started with the partial weight [p] is the table left by the run
    started with 0, every weight shifted by [p]. *)
Theorem SO3_partial_weight_translates (gen : SO3.UNtoSO3) (g : GelfandRow) (p : Z) :
  row_ok g -> 1 <= rowsum g <= Z.of_nat (length (SO3.m_ gen)) ->
  exists M0 Mp,
    SO3.generateSO3WeightsRec gen (S (Z.to_nat (rowsum g))) g 0 ∅ = Done M0 /\
    SO3.generateSO3WeightsRec gen (S (Z.to_nat (rowsum g))) g p ∅ = Done Mp /\
    forall w, Mp !! w = M0 !! (w - p).
Proof.
  intros Hg Hs.
  destruct (generateSO3WeightsRec_translates gen (S (Z.to_nat (rowsum g))) ltac:(lia)
              g Hg ltac:(lia) ltac:(lia)) as [ws Hws].
  exists (increments (Z.add 0 <$> ws) ∅), (increments (Z.add p <$> ws) ∅).
  split; [apply Hws|]. split; [apply Hws|].
  intros w. rewrite !lookup_increments, !occurrences_shift.
  replace (w - p - 0) with (w - p) by lia. reflexivity.
Qed.

Lemma SO3_partial_weight_translates_witness :
  exists M0 Mp,
    SO3.generateSO3WeightsRec (SO3.generateM 1 SO3.fresh) 4 (Row 0 0 1 1 1) 0 ∅ = Done M0 /\
    SO3.generateSO3WeightsRec (SO3.generateM 1 SO3.fresh) 4 (Row 0 0 1 1 1) 10 ∅ = Done Mp /\
    forall w, Mp !! w = M0 !! (w - 10).
Proof.
  apply (SO3_partial_weight_translates (SO3.generateM 1 SO3.fresh) (Row 0 0 1 1 1) 10);
    [unfold row_ok, UINT16_MAX; cbn; lia | vm_compute; split; discriminate].
Defined.

(** X10.  The driver's total does not depend on the order in which the loop
    over [gen.multMap()] visits the entries of the [unordered_map]. *)
Theorem driver_sum_any_order (gen : SO3.UNtoSO3) (pairs pairs' : list (Z * Z)) (sum : Z) :
  pairs ≡ₚ pairs' ->
  Driver.sum_irreps gen pairs sum = Driver.sum_irreps gen pairs' sum.
Proof. intros Hp. now apply sum_irreps_Permutation. Qed.

Lemma driver_sum_any_order_witness :
  Driver.sum_irreps {| SO3.m_ := [-1; 0; 1]; SO3.l_ := 1;
                       SO3.mult_ := {[ -1 := 1; 0 := 1; 1 := 1 ]} |}
    [(-1, 1); (0, 1); (1, 1)] 0
  = Driver.sum_irreps {| SO3.m_ := [-1; 0; 1]; SO3.l_ := 1;
                         SO3.mult_ := {[ -1 := 1; 0 := 1; 1 := 1 ]} |}
      [(1, 1); (-1, 1); (0, 1)] 0.
Proof.
  apply driver_sum_any_order.
  change [(1, 1); (-1, 1); (0, 1)] with ([(1, 1)] ++ [(-1, 1); (0, 1)]).
  change [(-1, 1); (0, 1); (1, 1)] with ([(-1, 1); (0, 1)] ++ [(1, 1)]).
  apply Permutation_app_comm.
Defined.

(** ** The driver on valid input *)

Lemma sum_irreps_Done (gen : SO3.UNtoSO3) (pairs : list (Z * Z)) :
  Forall (fun pair => is_Some (SO3.mult_ gen !! fst pair)) pairs ->
  forall sum, exists total, Driver.sum_irreps gen pairs sum = Done total.
Proof.
  induction pairs as [|[w c] pairs IH]; intros Hp sum; cbn [Driver.sum_irreps].
  - now exists sum.
  - apply Forall_cons in Hp as [[m Hm] Hp]. cbn [fst] in Hm.
    unfold SO3.getLevelDimensionality, mbind, outcome_bind. rewrite Hm.
    destruct (w <? 0); [apply (IH Hp)|].
    destruct (SO3.mult_ gen !! (w + 1)); apply (IH Hp).
Qed.

(** X11.  On every valid input (counts that are [unsigned short]s and add
    up to 2l+1) the driver returns a total: no table read is outside the
    table, and [getLevelDimensionality] is only asked for weights that are
    keys of the map, so that its [assert] holds. *)
Theorem driver_returns_on_valid_input (l : Z) (g : GelfandRow) :
  0 <= l -> row_ok g -> rowsum g = 2 * l + 1 ->
  exists total, Driver.main l (n4 g) (n3 g) (n2 g) (n1 g) (n0 g) = Done total.
Proof.
  intros Hl Hg Hsum.
  assert (Hsmall : rowsum g <= 5 * UINT16_MAX) by (unfold row_ok, rowsum in *; lia).
  unfold UINT16_MAX in Hsmall.
  unfold Driver.main. fold (rowsum g).
  rewrite to_ulong_small, to_int_small by lia.
  destruct (Z.eqb_spec (rowsum g) (2 * l + 1)) as [_|Hne]; [|contradiction]. cbn [negb].
  destruct g as [a b c d e]. cbn [n4 n3 n2 n1 n0].
  unfold SO3.generateSO3Weights, SO3.generateSO3WeightsRec.
  destruct (generateWeightsRec_Done (SO3.q (SO3.generateM l SO3.fresh)) SO3.addmul
              (2 * l + 1) (SO3_q_inside l SO3.fresh Hl)
              (S (Z.to_nat (rowsum (Row a b c d e)))) ltac:(lia) (Row a b c d e) Hg
              ltac:(lia) ltac:(lia) 0 ∅) as [M' HM'].
  unfold mbind, outcome_bind. rewrite HM'. cbn [SO3.mult_].
  apply sum_irreps_Done. apply Forall_forall. intros [w c0] Hin. cbn [fst SO3.mult_].
  apply elem_of_map_to_list in Hin. now exists c0.
Qed.

Lemma driver_returns_on_valid_input_witness :
  exists total, Driver.main 1 0 0 1 1 1 = Done total.
Proof.
  apply (driver_returns_on_valid_input 1 (Row 0 0 1 1 1));
    [lia | unfold row_ok, UINT16_MAX; cbn; lia | reflexivity].
Defined.

(** X12.  [generateM(l)] replaces the table of quanta by m = -l, ..., l in
    this order, each stored as an [int8_t], records [l] as an [int8_t] and
    leaves [mult_] alone; for a negative [l] the table is empty, and up to
    l = 127 no entry wraps around. *)
Theorem generateM_quanta (l : Z) (gen : SO3.UNtoSO3) :
  SO3.m_ (SO3.generateM l gen) = to_int8 <$> seqZ (- l) (2 * l + 1) /\
  SO3.l_ (SO3.generateM l gen) = to_int8 l /\
  SO3.mult_ (SO3.generateM l gen) = SO3.mult_ gen /\
  (l < 0 -> SO3.m_ (SO3.generateM l gen) = []) /\
  (0 <= l <= 127 -> SO3.m_ (SO3.generateM l gen) = seqZ (- l) (2 * l + 1)).
Proof.
  assert (Hm : SO3.m_ (SO3.generateM l gen) = to_int8 <$> seqZ (- l) (2 * l + 1)).
  { destruct (Z.le_gt_cases 0 l) as [Hl|Hl]; [now apply generateM_table|].
    rewrite seqZ_nil by lia. unfold SO3.generateM. cbn [SO3.m_].
    destruct (Z.to_nat (2 * l + 1)); cbn [SO3.generateM_loop];
      destruct (Z.leb_spec (- l) l); try lia; reflexivity. }
  split; [exact Hm|]. split; [reflexivity|]. split; [reflexivity|]. split.
  - intros Hl. rewrite Hm, seqZ_nil by lia. reflexivity.
  - intros Hl. rewrite Hm. rewrite <- (list_fmap_id (seqZ (- l) (2 * l + 1))) at 2.
    apply list_fmap_ext. intros i x Hx. apply lookup_seqZ in Hx as [-> Hi].
    unfold id. apply to_int8_small. lia.
Qed.

Lemma generateM_quanta_witness :
  SO3.m_ (SO3.generateM 2 SO3.fresh) = seqZ (- 2) (2 * 2 + 1) /\
  SO3.m_ (SO3.generateM (-3) SO3.fresh) = [].
Proof.
  split.
  - apply (proj2 (proj2 (proj2 (proj2 (generateM_quanta 2 SO3.fresh))))). lia.
  - apply (proj1 (proj2 (proj2 (proj2 (generateM_quanta (-3) SO3.fresh))))). lia.
Defined.

(** X13.  After [generateXYZ(n)], 0 <= n, the three vectors of [xyz_] have
    (n+1)(n+2)/2 entries each, and the entries at any index are three
    non-negative numbers of quanta that add up to n. *)
Theorem generateXYZ_quanta (n : Z) (gen : U3.UNtoU3) :
  0 <= n <= INT_MAX ->
  Z.of_nat (length (U3.xyz_NZ (U3.xyz_ (U3.generateXYZ n gen)))) = (n + 1) * (n + 2) / 2 /\
  Z.of_nat (length (U3.xyz_NX (U3.xyz_ (U3.generateXYZ n gen)))) = (n + 1) * (n + 2) / 2 /\
  Z.of_nat (length (U3.xyz_NY (U3.xyz_ (U3.generateXYZ n gen)))) = (n + 1) * (n + 2) / 2 /\
  forall N z x y, U3.q (U3.generateXYZ n gen) N = Done (z, x, y) ->
                  0 <= z /\ 0 <= x /\ 0 <= y /\ z + x + y = n.
Proof.
  intros Hn. unfold INT_MAX in Hn.
  rewrite generateXYZ_table by lia. unfold append_triples.
  cbn [U3.xyz_NZ U3.xyz_NX U3.xyz_NY app]. rewrite !length_fmap.
  rewrite canonical_order_length by lia.
  repeat split; try reflexivity;
    destruct (U3_q_quanta n gen N z x y ltac:(lia) H) as (? & ? & ? & ?); assumption.
Qed.

Lemma generateXYZ_quanta_witness :
  Z.of_nat (length (U3.xyz_NZ (U3.xyz_ (U3.generateXYZ 2 U3.fresh)))) = (2 + 1) * (2 + 2) / 2.
Proof.
  apply (generateXYZ_quanta 2 U3.fresh). unfold INT_MAX. lia.
Defined.

(** X14.  [array_3_hasher] gives different hashes to different weights as
    long as the first two labels are below 2^8 and the third below 2^16;
    beyond that it does not: {256, 0, 0} and {0, 1, 0} collide. *)
Theorem array_3_hasher_injective_on_small_labels :
  (forall a0 a1 a2 b0 b1 b2 : Z,
      0 <= a0 < 2 ^ 8 -> 0 <= a1 < 2 ^ 8 -> 0 <= a2 < 2 ^ 16 ->
      0 <= b0 < 2 ^ 8 -> 0 <= b1 < 2 ^ 8 -> 0 <= b2 < 2 ^ 16 ->
      array_3_hasher (a0, a1, a2) = array_3_hasher (b0, b1, b2) ->
      (a0, a1, a2) = (b0, b1, b2)) /\
  array_3_hasher (256, 0, 0) = array_3_hasher (0, 1, 0).
Proof.
  split; [|reflexivity].
  intros a0 a1 a2 b0 b1 b2 Ha0 Ha1 Ha2 Hb0 Hb1 Hb2.
  unfold array_3_hasher. rewrite !Z.shiftl_mul_pow2 by lia.
  change (2 ^ 8) with 256 in *. change (2 ^ 16) with 65536 in *.
  rewrite !(to_uint32_small (_ * 256)) by lia.
  rewrite !(to_uint32_small (_ * 65536)) by lia.
  rewrite !(to_uint32_small (_ + _ * 256)) by lia.
  rewrite !(to_uint32_small (_ + _ * 256 + _ * 65536)) by lia.
  rewrite !to_size_t_small by lia.
  intros He. assert (a0 = b0 /\ a1 = b1 /\ a2 = b2) as (-> & -> & ->) by lia.
  reflexivity.
Qed.

Lemma array_3_hasher_injective_on_small_labels_witness :
  (1, 2, 3) = (1, 2, 3) /\ array_3_hasher (1, 2, 3) = 197121.
Proof.
  split; [|reflexivity].
  apply (proj1 array_3_hasher_injective_on_small_labels 1 2 3 1 2 3);
    first [lia | reflexivity].
Defined.

(** ** Irreps with all labels equal *)

Section SingleGroup.

Lemma single_group_ok (grp : Group) (c : Z) :
  0 <= c <= UINT16_MAX -> row_ok (single_group grp c) /\ rowsum (single_group grp c) = c.
Proof. unfold row_ok, rowsum, UINT16_MAX. destruct grp; cbn; lia. Qed.

Lemma single_group_iteration (grp : Group) (c : Z) :
  0 < c <= UINT16_MAX ->
  branches (single_group grp c) = [] /\
  lowest_group (single_group grp c) = Some grp /\
  drop_group grp (single_group grp c) = single_group grp (c - 1) /\
  base_multiplier (single_group grp c) = label grp * c.
Proof.
  intros Hc. unfold branches, branches4, branches3, branches2, branches1, lowest_group,
    base_multiplier.
  destruct grp; cbn [single_group n4 n3 n2 n1 n0 drop_group label];
    destruct (Z.ltb_spec 0 c); try lia; cbn; repeat split; lia.
Qed.

Lemma quanta_sum_S (m : list Z) (n : nat) (x : Z) :
  m !! n = Some x -> quanta_sum m (S n) = quanta_sum m n + x.
Proof.
  intros Hx. unfold quanta_sum. rewrite (take_S_r m n x Hx).
  rewrite foldr_app. cbn [foldr]. generalize (take n m). intros l.
  induction l as [|y l IH]; cbn [foldr]; lia.
Qed.

Variable gen : SO3.UNtoSO3.

(** The loop on a row with one group drops one entry per iteration and
    adds its label times the quantum of the level. *)
Lemma while_loop_single_group
    (call : GelfandRow -> Z -> gmap Z Z -> Outcome (gmap Z Z)) (grp : Group) :
  forall (iters : nat) (N : Z) (p : Z) (M : gmap Z Z) (ds : list Group),
    0 <= N <= Z.of_nat iters -> N + 1 <= UINT16_MAX ->
    N < Z.of_nat (length (SO3.m_ gen)) ->
    while_loop (SO3.q gen) SO3.addmul call iters N (MkFrame (single_group grp (N + 1)) p M ds)
    = Done (increment (p + label grp * (quanta_sum (SO3.m_ gen) (S (Z.to_nat N)))) M).
Proof.
  induction iters as [|i IH]; intros N p M ds Hi HN Hlen; cbn [while_loop];
    destruct (Z.ltb_spec 0 N); try lia.
  - assert (N = 0) as -> by lia.
    assert (H0 : 0 <= 0 < Z.of_nat (length (SO3.m_ gen))) by lia.
    destruct (at_index_Done (SO3.m_ gen) 0 H0) as [x Hx].
    unfold base_case. cbn [gpr pp acc]. unfold SO3.q, mbind, outcome_bind.
    assert (H1 : 0 < 0 + 1 <= UINT16_MAX) by lia.
    destruct (single_group_iteration grp (0 + 1) H1) as (_ & _ & _ & Hb). unfold base_multiplier in Hb.
    destruct (single_group grp (0 + 1)) as [a4 a3 a2 a1 a0] eqn:Eg. cbn [n4 n3 n2 n1 n0] in Hb.
    rewrite Hx. unfold SO3.addmul. rewrite Hb. do 2 f_equal.
    unfold at_index in Hx. change (Z.to_nat 0) with O in *.
    destruct (SO3.m_ gen !! 0%nat) as [y|] eqn:Ey; [|discriminate]. injection Hx as ->.
    rewrite (quanta_sum_S _ 0 x Ey). unfold quanta_sum. rewrite take_0. cbn [foldr]. ring.
  - destruct (at_index_Done (SO3.m_ gen) N ltac:(lia)) as [x Hx].
    destruct (single_group_ok grp (N + 1) ltac:(lia)) as [Hok Hsum].
    destruct (single_group_iteration grp (N + 1) ltac:(lia)) as (Hbr & Hlow & Hdrop & _).
    rewrite loop_body_calls. cbn [gpr pp acc fired].
    rewrite (iteration_Done (SO3.q gen) SO3.addmul N _ p x Hok Hx).
    rewrite Hbr, Hlow, Hdrop. cbn [map run_calls gpr pp acc fired].
    unfold mbind, outcome_bind. rewrite drop_weight_SO3.
    replace (N + 1 - 1) with (N - 1 + 1) by lia.
    rewrite IH by lia. do 2 f_equal.
    unfold at_index in Hx.
    destruct (SO3.m_ gen !! Z.to_nat N) as [y|] eqn:Ey; [|discriminate]. injection Hx as ->.
    rewrite (quanta_sum_S _ (Z.to_nat N) x Ey).
    replace (S (Z.to_nat (N - 1))) with (Z.to_nat N) by lia. ring.
  - assert (N = 0) as -> by lia.
    assert (H0 : 0 <= 0 < Z.of_nat (length (SO3.m_ gen))) by lia.
    destruct (at_index_Done (SO3.m_ gen) 0 H0) as [x Hx].
    unfold base_case. cbn [gpr pp acc]. unfold SO3.q, mbind, outcome_bind.
    assert (H1 : 0 < 0 + 1 <= UINT16_MAX) by lia.
    destruct (single_group_iteration grp (0 + 1) H1) as (_ & _ & _ & Hb). unfold base_multiplier in Hb.
    destruct (single_group grp (0 + 1)) as [a4 a3 a2 a1 a0] eqn:Eg. cbn [n4 n3 n2 n1 n0] in Hb.
    rewrite Hx. unfold SO3.addmul. rewrite Hb. do 2 f_equal.
    unfold at_index in Hx. change (Z.to_nat 0) with O in *.
    destruct (SO3.m_ gen !! 0%nat) as [y|] eqn:Ey; [|discriminate]. injection Hx as ->.
    rewrite (quanta_sum_S _ 0 x Ey). unfold quanta_sum. rewrite take_0. cbn [foldr]. ring.
Qed.

(** [generateSO3Weights] on a row with one group counts one pattern, of
    weight the label times the sum of the quanta. *)
Lemma generateSO3Weights_single_group (grp : Group) (c : Z) :
  0 < c <= UINT16_MAX -> c <= Z.of_nat (length (SO3.m_ gen)) ->
  SO3.generateSO3Weights (single_group grp c) gen
  = Done {| SO3.m_ := SO3.m_ gen; SO3.l_ := SO3.l_ gen;
            SO3.mult_ := {[ label grp * quanta_sum (SO3.m_ gen) (Z.to_nat c) := 1 ]} |}.
Proof.
  intros Hc Hlen. destruct (single_group_ok grp c ltac:(lia)) as [Hok Hsum].
  unfold SO3.generateSO3Weights, SO3.generateSO3WeightsRec.
  rewrite Hsum. cbn [generateWeightsRec]. fold (rowsum (single_group grp c)).
  rewrite Hsum. rewrite to_size_t_small by (unfold UINT16_MAX in *; lia).
  replace (single_group grp c) with (single_group grp (c - 1 + 1)) at 1
    by (f_equal; lia).
  rewrite while_loop_single_group by lia.
  unfold mbind, outcome_bind, increment. rewrite lookup_empty. cbn [default from_option id].
  rewrite insert_empty. do 3 f_equal.
  replace (S (Z.to_nat (c - 1))) with (Z.to_nat c) by lia. lia.
Qed.

End SingleGroup.

Lemma seqZ_sum (a : Z) (n : nat) :
  2 * foldr Z.add 0 (seqZ a (Z.of_nat n)) = Z.of_nat n * (2 * a + Z.of_nat n - 1).
Proof.
  revert a. induction n as [|n IH]; intros a; [reflexivity|].
  rewrite seqZ_cons by lia. cbn [foldr].
  replace (Z.pred (Z.of_nat (S n))) with (Z.of_nat n) by lia.
  specialize (IH (Z.succ a)). nia.
Qed.

(** The quanta -l, ..., l add up to zero. *)
Lemma generateM_quanta_sum (l : Z) (gen : SO3.UNtoSO3) :
  0 <= l <= 127 ->
  quanta_sum (SO3.m_ (SO3.generateM l gen)) (Z.to_nat (2 * l + 1)) = 0.
Proof.
  intros Hl. destruct (generateM_quanta l gen) as (_ & _ & _ & _ & Hm).
  rewrite (Hm Hl). unfold quanta_sum.
  rewrite take_ge by (rewrite length_seqZ; lia).
  pose proof (seqZ_sum (- l) (Z.to_nat (2 * l + 1))) as Hs.
  rewrite Z2Nat.id in Hs by lia. nia.
Qed.

Lemma irrep_of_single_group (grp : Group) (c : Z) :
  Driver.irrep_of (single_group grp c) = replicate (Z.to_nat c) (label grp).
Proof.
  unfold Driver.irrep_of.
  destruct grp; cbn [single_group n4 n3 n2 n1 n0 label Z.to_nat replicate app];
    rewrite ?app_nil_r; reflexivity.
Qed.

Lemma rational_mul_one (a : Z) : 0 < a -> Driver.rational_mul (1, 1) a a = (1, 1).
Proof.
  intros Ha. unfold Driver.rational_mul. cbn [fst snd]. rewrite !Z.mul_1_l.
  rewrite Z.gcd_diag, Z.abs_eq by lia. rewrite Z.div_same by lia. reflexivity.
Qed.

Lemma dim_inner_equal_labels (n : nat) (v l : Z) :
  l <= Z.of_nat n ->
  forall (iters : nat) (k : Z), 1 <= k -> l - k <= Z.of_nat iters ->
  Driver.dim_inner iters (replicate n v) l k (1, 1) = Done (1, 1).
Proof.
  intros Hl. induction iters as [|i IH]; intros k Hk Hi; cbn [Driver.dim_inner];
    destruct (Z.leb_spec k (l - 1)); try lia; try reflexivity.
  unfold at_index, mbind, outcome_bind.
  rewrite !lookup_replicate_2 by lia.
  replace (v - v + l - k) with (l - k) by lia.
  rewrite rational_mul_one by lia. apply IH; lia.
Qed.

Lemma dim_outer_equal_labels (n : nat) (v : Z) :
  forall (iters : nat) (l : Z), 2 <= l -> Z.of_nat n - l + 1 <= Z.of_nat iters ->
  Driver.dim_outer iters (replicate n v) l (1, 1) = Done (1, 1).
Proof.
  induction iters as [|i IH]; intros l Hl Hi; cbn [Driver.dim_outer];
    rewrite length_replicate; destruct (Z.leb_spec l (Z.of_nat n)); try lia;
    try reflexivity.
  rewrite dim_inner_equal_labels by lia. unfold mbind, outcome_bind. apply IH; lia.
Qed.

(** The analytic dimension of an irrep with all labels equal is 1. *)
Lemma dim_UN_equal_labels (n : nat) (v : Z) : Driver.dim_UN (replicate n v) = Done 1.
Proof.
  unfold Driver.dim_UN. rewrite length_replicate.
  rewrite dim_outer_equal_labels by lia. reflexivity.
Qed.

(** X15.  The dimension sum law for the irreps with all labels equal, for
    every l up to 127: on the input with 2l+1 entries of one label (4, 3,
    2, 1 or 0) and no others, the driver's total is 1, and so is the
    analytic dimension of the irrep. *)
Theorem equal_labels_total_is_one (l : Z) (grp : Group) :
  0 <= l <= 127 ->
  Driver.main l (n4 (single_group grp (2 * l + 1))) (n3 (single_group grp (2 * l + 1)))
              (n2 (single_group grp (2 * l + 1))) (n1 (single_group grp (2 * l + 1)))
              (n0 (single_group grp (2 * l + 1))) = Done 1 /\
  Driver.dim_UN (Driver.irrep_of (single_group grp (2 * l + 1))) = Done 1.
Proof.
  intros Hl. split; [|rewrite irrep_of_single_group; apply dim_UN_equal_labels].
  destruct (single_group_ok grp (2 * l + 1) ltac:(unfold UINT16_MAX; lia)) as [Hok Hsum].
  unfold Driver.main. fold (rowsum (single_group grp (2 * l + 1))). rewrite Hsum.
  rewrite to_ulong_small, to_int_small by lia. rewrite Z.eqb_refl. cbn [negb].
  replace (Row _ _ _ _ _) with (single_group grp (2 * l + 1)) by (destruct grp; reflexivity).
  rewrite generateSO3Weights_single_group
    by (rewrite ?generateM_length; unfold UINT16_MAX; lia).
  rewrite generateM_quanta_sum by assumption. rewrite Z.mul_0_r.
  unfold mbind, outcome_bind. cbn [SO3.mult_]. rewrite map_to_list_singleton.
  reflexivity.
Qed.

Lemma equal_labels_total_is_one_witness :
  Driver.main 3 0 0 7 0 0 = Done 1 /\
  Driver.dim_UN (Driver.irrep_of (Row 0 0 7 0 0)) = Done 1.
Proof. apply (equal_labels_total_is_one 3 G2). lia. Defined.

(** ** The defining irrep [1, 0, ..., 0] *)

Section DefiningIrrep.

Variable gen : SO3.UNtoSO3.

(** A row of zeros counts one pattern, of the weight it is entered with. *)
Lemma generateSO3WeightsRec_zeros (d : nat) (c p : Z) (M : gmap Z Z) :
  0 < c <= UINT16_MAX -> c <= Z.of_nat (length (SO3.m_ gen)) ->
  SO3.generateSO3WeightsRec gen (S d) (Row 0 0 0 0 c) p M = Done (increment p M).
Proof.
  intros Hc Hlen. unfold SO3.generateSO3WeightsRec. cbn [generateWeightsRec n4 n3 n2 n1 n0].
  replace (0 + 0 + 0 + 0 + c - 1) with (c - 1) by lia.
  rewrite to_size_t_small by (unfold UINT16_MAX in *; lia).
  change (Row 0 0 0 0 c) with (single_group G0 c).
  replace (single_group G0 c) with (single_group G0 (c - 1 + 1)) by (f_equal; lia).
  rewrite while_loop_single_group by lia. cbn [label]. do 2 f_equal. lia.
Qed.

Lemma increments_cons (w : Z) (ws : list Z) (M : gmap Z Z) :
  increments (w :: ws) M = increments ws (increment w M).
Proof. reflexivity. Qed.

(** The loop on the row of the defining irrep: at every level one call on a
    row of zeros, entered with the quantum of the level. *)
Lemma while_loop_defining (d : nat) :
  forall (iters : nat) (c p : Z) (M : gmap Z Z) (ds : list Group),
    0 <= c <= Z.of_nat iters -> c + 1 <= UINT16_MAX ->
    c < Z.of_nat (length (SO3.m_ gen)) ->
    while_loop (SO3.q gen) SO3.addmul (generateWeightsRec (SO3.q gen) SO3.addmul (S d))
      iters c (MkFrame (Row 0 0 0 1 c) p M ds)
    = Done (increments (Z.add p <$> reverse (take (S (Z.to_nat c)) (SO3.m_ gen))) M).
Proof.
  induction iters as [|i IH]; intros c p M ds Hi Hc Hlen; cbn [while_loop];
    destruct (Z.ltb_spec 0 c); try lia.
  - assert (c = 0) as -> by lia.
    assert (H0 : 0 <= 0 < Z.of_nat (length (SO3.m_ gen))) by lia.
    destruct (at_index_Done (SO3.m_ gen) 0 H0) as [x Hx].
    unfold base_case. cbn [gpr pp acc]. unfold SO3.q, mbind, outcome_bind. rewrite Hx.
    unfold at_index in Hx. change (Z.to_nat 0) with O in *.
    destruct (SO3.m_ gen !! 0%nat) as [y|] eqn:Ey; [|discriminate]. injection Hx as ->.
    rewrite (take_S_r _ 0 x Ey), take_0. cbn. unfold SO3.addmul. do 2 f_equal. lia.
  - assert (H0 : 0 <= c < Z.of_nat (length (SO3.m_ gen))) by lia.
    destruct (at_index_Done (SO3.m_ gen) c H0) as [x Hx].
    assert (Hok : row_ok (Row 0 0 0 1 c)) by (unfold row_ok, UINT16_MAX in *; cbn; lia).
    rewrite loop_body_calls. cbn [gpr pp acc fired].
    rewrite (iteration_Done (SO3.q gen) SO3.addmul c _ p x Hok Hx).
    unfold branches, branches4, branches3, branches2, branches1, lowest_group.
    cbn [n4 n3 n2 n1 n0]. destruct (Z.ltb_spec 0 c); [|lia].
    cbn [Z.ltb Z.compare andb orb app map as_call fst snd run_calls gpr pp acc fired
         drop_group drop_weight n4 n3 n2 n1 n0].
    change (GRT (1 - 1)) with 0.
    unfold mbind, outcome_bind.
    pose proof (generateSO3WeightsRec_zeros d c (SO3.addmul p 1 x) M ltac:(lia) ltac:(lia))
      as Hz.
    unfold SO3.generateSO3WeightsRec in Hz. rewrite Hz.
    rewrite IH by lia.
    unfold at_index in Hx.
    destruct (SO3.m_ gen !! Z.to_nat c) as [y|] eqn:Ey; [|discriminate]. injection Hx as ->.
    rewrite (take_S_r _ (Z.to_nat c) x Ey), reverse_snoc. cbn [fmap list_fmap].
    rewrite increments_cons. unfold SO3.addmul.
    replace (S (Z.to_nat (c - 1))) with (Z.to_nat c) by lia.
    replace (p + 1 * x) with (p + x) by lia. reflexivity.
  - assert (c = 0) as -> by lia.
    assert (H0 : 0 <= 0 < Z.of_nat (length (SO3.m_ gen))) by lia.
    destruct (at_index_Done (SO3.m_ gen) 0 H0) as [x Hx].
    unfold base_case. cbn [gpr pp acc]. unfold SO3.q, mbind, outcome_bind. rewrite Hx.
    unfold at_index in Hx. change (Z.to_nat 0) with O in *.
    destruct (SO3.m_ gen !! 0%nat) as [y|] eqn:Ey; [|discriminate]. injection Hx as ->.
    rewrite (take_S_r _ 0 x Ey), take_0. cbn. unfold SO3.addmul. do 2 f_equal. lia.
Qed.

End DefiningIrrep.

Lemma occurrences_NoDup (w : Z) (ws : list Z) :
  NoDup ws -> occurrences w ws = if decide (w ∈ ws) then 1 else 0.
Proof.
  induction 1 as [|x ws Hx Hnd IH]; [reflexivity|].
  rewrite occurrences_cons, IH.
  destruct (decide (x = w)) as [->|Hne].
  - destruct (decide (w ∈ ws)); [contradiction|].
    destruct (decide (w ∈ w :: ws)) as [_|Hn]; [lia|].
    exfalso. apply Hn. left.
  - destruct (decide (w ∈ ws)) as [Hin|Hin].
    + destruct (decide (w ∈ x :: ws)) as [_|Hn]; [lia|]. exfalso. apply Hn. now right.
    + destruct (decide (w ∈ x :: ws)) as [Hn|_]; [|lia].
      apply elem_of_cons in Hn as [->|Hn]; contradiction.
Qed.

(** The table that [generateSO3Weights] leaves for the defining irrep:
    every quantum -l, ..., l once. *)
Lemma generateSO3Weights_defining (l : Z) :
  1 <= l <= 127 ->
  exists M, SO3.generateSO3Weights (Row 0 0 0 1 (2 * l)) (SO3.generateM l SO3.fresh)
            = Done {| SO3.m_ := SO3.m_ (SO3.generateM l SO3.fresh);
                      SO3.l_ := SO3.l_ (SO3.generateM l SO3.fresh);
                      SO3.mult_ := M |} /\
    forall w, M !! w = if decide (- l <= w <= l) then Some 1 else None.
Proof.
  intros Hl. eexists. split.
  - unfold SO3.generateSO3Weights, SO3.generateSO3WeightsRec.
    replace (rowsum (Row 0 0 0 1 (2 * l))) with (2 * l + 1) by (unfold rowsum; cbn; lia).
    cbn [generateWeightsRec n4 n3 n2 n1 n0].
    replace (0 + 0 + 0 + 1 + 2 * l - 1) with (2 * l) by lia.
    rewrite to_size_t_small by lia.
    assert (Hd : Z.to_nat (2 * l + 1) = S (Z.to_nat (2 * l))) by lia.
    rewrite Hd.
    pose proof (while_loop_defining (SO3.generateM l SO3.fresh) (Z.to_nat (2 * l))
                  (Z.to_nat (2 * l)) (2 * l) 0 ∅ []) as Hw.
    rewrite Hw.
    + unfold mbind, outcome_bind. reflexivity.
    + lia.
    + unfold UINT16_MAX. lia.
    + rewrite generateM_length; lia.
  - intros w. rewrite lookup_increments, lookup_empty.
    destruct (generateM_quanta l SO3.fresh) as (_ & _ & _ & _ & Hm).
    rewrite (Hm ltac:(lia)).
    rewrite take_ge by (rewrite length_seqZ; lia).
    assert (Hocc : occurrences w (Z.add 0 <$> reverse (seqZ (- l) (2 * l + 1)))
                   = if decide (- l <= w <= l) then 1 else 0).
    { rewrite occurrences_NoDup.
      - destruct (decide (w ∈ Z.add 0 <$> reverse (seqZ (- l) (2 * l + 1)))) as [Hin|Hin];
          destruct (decide (- l <= w <= l)) as [Hr|Hr]; try reflexivity; exfalso.
        + apply list_elem_of_fmap in Hin as (y & -> & Hy).
          apply elem_of_reverse, elem_of_seqZ in Hy. lia.
        + apply Hin. apply list_elem_of_fmap. exists w. split; [lia|].
          apply elem_of_reverse, elem_of_seqZ. lia.
      - apply NoDup_fmap; [intros a b; lia|]. rewrite reverse_Permutation. apply NoDup_seqZ. }
    rewrite Hocc. destruct (decide (- l <= w <= l)); reflexivity.
Qed.

(** Entries whose level dimensionality is zero add nothing to the total. *)
Lemma sum_irreps_zero_levels (gen : SO3.UNtoSO3) (pairs rest : list (Z * Z)) (sum : Z) :
  Forall (fun pair => SO3.getLevelDimensionality gen (fst pair) = Done 0) pairs ->
  Driver.sum_irreps gen (pairs ++ rest) sum = Driver.sum_irreps gen rest sum.
Proof.
  induction pairs as [|[w c] pairs IH]; intros Hp; [reflexivity|].
  apply Forall_cons in Hp as [Hw Hp]. cbn [fst] in Hw.
  cbn [app Driver.sum_irreps]. rewrite Hw. unfold mbind, outcome_bind. cbn [Z.eqb].
  now apply IH.
Qed.

Lemma driver_total_defining (l : Z) :
  1 <= l <= 127 -> Driver.main l 0 0 0 1 (2 * l) = Done (2 * l + 1).
Proof.
  intros Hl. unfold Driver.main.
  rewrite to_ulong_small, to_int_small by lia.
  replace (0 + 0 + 0 + 1 + 2 * l =? 2 * l + 1) with true by (symmetry; apply Z.eqb_eq; lia).
  cbn [negb].
  destruct (generateSO3Weights_defining l Hl) as (M & -> & HM).
  unfold mbind, outcome_bind. cbn [SO3.mult_].
  set (gen := {| SO3.m_ := _; SO3.l_ := _; SO3.mult_ := M |}).
  rewrite (sum_irreps_Permutation gen (map_to_list M)
             ((fun w => (w, 1)) <$> (seqZ (- l) (2 * l) ++ [l]))).
  - rewrite fmap_app. rewrite sum_irreps_zero_levels.
    + cbn [fmap list_fmap Driver.sum_irreps]. unfold SO3.getLevelDimensionality.
      cbn [SO3.mult_ gen]. rewrite !HM.
      destruct (Z.ltb_spec l 0); [lia|].
      destruct (decide (- l <= l <= l)); [|lia].
      destruct (decide (- l <= l + 1 <= l)); [lia|].
      unfold mbind, outcome_bind. rewrite Z.sub_0_r, to_uint32_small by lia.
      cbn [Z.eqb]. unfold Driver.dim.
      rewrite (to_ulong_small (2 * l + 1)) by lia.
      rewrite to_ulong_small by lia. f_equal. lia.
    + apply Forall_fmap, Forall_forall. intros w Hw. apply elem_of_seqZ in Hw.
      unfold compose. cbn [fst]. unfold SO3.getLevelDimensionality. cbn [SO3.mult_ gen].
      destruct (Z.ltb_spec w 0); [reflexivity|]. rewrite !HM.
      destruct (decide (- l <= w <= l)); [|lia].
      destruct (decide (- l <= w + 1 <= l)); [|lia]. reflexivity.
  - apply NoDup_Permutation.
    + apply NoDup_map_to_list.
    + apply NoDup_fmap; [intros a b [= ->]; reflexivity|].
      replace (seqZ (- l) (2 * l) ++ [l]) with (seqZ (- l) (2 * l + 1)); [apply NoDup_seqZ|].
      rewrite (seqZ_app (- l) (2 * l) 1) by lia. f_equal.
      replace (- l + 2 * l) with l by lia. reflexivity.
    + intros [w c]. rewrite elem_of_map_to_list, HM, list_elem_of_fmap. split.
      * destruct (decide (- l <= w <= l)); [|discriminate]. intros [= <-].
        exists w. split; [reflexivity|].
        apply elem_of_app. destruct (decide (w = l)) as [->|Hne].
        -- right. apply list_elem_of_singleton. reflexivity.
        -- left. apply elem_of_seqZ. lia.
      * intros (y & [= -> ->] & Hy).
        destruct (decide (- l <= y <= l)) as [_|Hn]; [reflexivity|].
        exfalso. apply Hn. apply elem_of_app in Hy as [Hy|Hy].
        -- apply elem_of_seqZ in Hy. lia.
        -- apply list_elem_of_singleton in Hy. lia.
Qed.

(** A step of the running product that cancels. *)
Lemma rational_mul_cancel (a b c r : Z) :
  0 < c -> a * b = r * c -> Driver.rational_mul (a, 1) b c = (r, 1).
Proof.
  intros Hc He. unfold Driver.rational_mul. cbn [fst snd]. rewrite He, Z.mul_1_l.
  assert (Hg : Z.gcd (r * c) c = c).
  { rewrite Z.gcd_comm. rewrite Z.mul_comm. apply Z.gcd_mul_diag_l. lia. }
  rewrite Hg. rewrite Z.div_mul by lia. rewrite Z.div_same by lia. reflexivity.
Qed.

Section DefiningDimension.

Variable n : nat.

Lemma dim_inner_defining_tail (L : Z) :
  L <= Z.of_nat n + 1 ->
  forall (iters : nat) (k : Z), 2 <= k -> L - k <= Z.of_nat iters ->
  Driver.dim_inner iters (1 :: replicate n 0) L k (L, 1) = Done (L, 1).
Proof.
  intros HL. induction iters as [|i IH]; intros k Hk Hi; cbn [Driver.dim_inner];
    destruct (Z.leb_spec k (L - 1)); try lia; try reflexivity.
  unfold at_index, mbind, outcome_bind.
  replace (Z.to_nat (k - 1)) with (S (Z.to_nat (k - 2))) by lia.
  replace (Z.to_nat (L - 1)) with (S (Z.to_nat (L - 2))) by lia.
  rewrite !lookup_cons. rewrite !lookup_replicate_2 by lia.
  rewrite (rational_mul_cancel L (0 - 0 + L - k) (L - k) L) by lia.
  apply IH; lia.
Qed.

Lemma dim_inner_defining (L : Z) (iters : nat) :
  2 <= L <= Z.of_nat n + 1 -> L - 1 <= Z.of_nat iters ->
  Driver.dim_inner iters (1 :: replicate n 0) L 1 (L - 1, 1) = Done (L, 1).
Proof.
  intros HL Hi. destruct iters as [|i]; [lia|]. cbn [Driver.dim_inner].
  destruct (Z.leb_spec 1 (L - 1)); [|lia].
  unfold at_index, mbind, outcome_bind.
  change (Z.to_nat (1 - 1)) with O.
  replace (Z.to_nat (L - 1)) with (S (Z.to_nat (L - 2))) by lia.
  rewrite !lookup_cons. rewrite lookup_replicate_2 by lia.
  rewrite (rational_mul_cancel (L - 1) (1 - 0 + L - 1) (L - 1) L) by lia.
  apply dim_inner_defining_tail; lia.
Qed.

Lemma dim_outer_defining :
  forall (iters : nat) (L : Z), 2 <= L <= Z.of_nat n + 2 ->
  Z.of_nat n + 2 - L <= Z.of_nat iters ->
  Driver.dim_outer iters (1 :: replicate n 0) L (L - 1, 1) = Done (Z.of_nat n + 1, 1).
Proof.
  induction iters as [|i IH]; intros L HL Hi; cbn [Driver.dim_outer length];
    rewrite length_replicate; destruct (Z.leb_spec L (Z.of_nat (S n))); try lia.
  - do 2 f_equal. lia.
  - rewrite dim_inner_defining by lia. unfold mbind, outcome_bind.
    replace L with (L + 1 - 1) at 2 by lia. apply IH; lia.
  - do 2 f_equal. lia.
Qed.

Lemma dim_UN_defining : Driver.dim_UN (1 :: replicate n 0) = Done (Z.of_nat n + 1).
Proof.
  unfold Driver.dim_UN. cbn [length]. rewrite length_replicate.
  change (1, 1) with (2 - 1, 1). rewrite dim_outer_defining by lia. reflexivity.
Qed.

End DefiningDimension.

(** X16.  The dimension sum law for the defining irrep [1, 0, ..., 0] of
    U(2l+1), for every l up to 127: on the input n1 = 1, n0 = 2l the driver's
    total is 2l+1 (the SO(3) irrep l once), and so is the analytic dimension
    of the irrep. *)
Theorem defining_irrep_total (l : Z) :
  0 <= l <= 127 ->
  Driver.main l 0 0 0 1 (2 * l) = Done (2 * l + 1) /\
  Driver.dim_UN (Driver.irrep_of (Row 0 0 0 1 (2 * l))) = Done (2 * l + 1).
Proof.
  intros Hl. split.
  - destruct (Z.eq_dec l 0) as [->|Hne]; [reflexivity|].
    apply driver_total_defining. lia.
  - change (Driver.irrep_of (Row 0 0 0 1 (2 * l)))
      with (1 :: replicate (Z.to_nat (2 * l)) 0).
    rewrite dim_UN_defining. f_equal. lia.
Qed.

Lemma defining_irrep_total_witness :
  Driver.main 5 0 0 0 1 (2 * 5) = Done (2 * 5 + 1) /\
  Driver.dim_UN (Driver.irrep_of (Row 0 0 0 1 (2 * 5))) = Done (2 * 5 + 1).
Proof. apply (defining_irrep_total 5). lia. Defined.
